(** * supabase-storage: the GCS backend, its request signer, the tenant
      connection and the base32 codec

    Every definition of the first part is a shallow embedding of one
    function of the TypeScript sources:

    - [src/internal/auth/base64.ts]            module [base32];
    - [src/storage/backend/gcs/signer.ts]      module [Signer];
    - [src/storage/backend/gcs/adapter.ts]     modules [GCS] and
                                               [DeleteObjects];
    - [src/storage/backend/index.ts]           module [Backend], with the
                                               constructor of [GCSBackend];
    - [src/internal/database/connection.ts]    module [Tenant].

    JavaScript numbers that hold bytes, indices, seconds or milliseconds
    are integers of [Z] or [nat]; strings are [string] or [list ascii]; a
    promise that may be rejected is a value of [result] or [outcome].  The
    functions of the runtime and of third-party packages ([URL], [Date],
    [Headers], the XML parser, [p-limit], [async-retry], [TTLCache], the
    pool of [knex]) are parameters of the class [Platform] or are modelled
    where they are used, with the behaviour that their documentation
    gives.

    The second part proves the properties of the specification, one
    theorem per claim, and then further properties of the same code. *)

From Stdlib Require Import ZArith Lia String Ascii List Bool Sorted.
From stdpp Require Import gmap strings list pretty.

Local Open Scope Z_scope.

Definition is_byte (b : Z) : Prop := 0 <= b < 256.

(** ** The base32 codec of [src/internal/auth/base64.ts]

    A [Buffer] is the list of its bytes; a text is a list of 8-bit
    characters, which is all that [encode] writes. *)

Module base32.

Definition alphabet : list ascii :=
  list_ascii_of_string "ABCDEFGHIJKLMNOPQRSTUVWXYZ234567".

Definition padding : ascii := "="%char.

(** [String.prototype.indexOf] for a one-character needle: the index of
    the first occurrence, or [-1]. *)
Fixpoint indexOf (s : list ascii) (c : ascii) : Z :=
  match s with
  | [] => -1
  | d :: s' =>
      if Ascii.eqb d c then 0
      else let r := indexOf s' c in if r =? -1 then -1 else r + 1
  end.

(** [this.alphabet.charCodeAt(n)]; out of range JavaScript yields [NaN],
    which a byte buffer stores as [0]. *)
Definition charCodeAt (s : list ascii) (n : Z) : ascii :=
  if n <? 0 then zero else nth (Z.to_nat n) s zero.

Definition fromCharCode (code : ascii) : Z := indexOf alphabet code.

(** The test [x === -1] of [decode], negated: the character is one of the
    alphabet. *)
Definition is_letter (c : ascii) : bool := negb (fromCharCode c =? -1).

(** [buffer[i]] used as an operand of [>>] or [<<]: [undefined] past the
    end coerces to [0]. *)
Definition byteAt (buffer : list Z) (i : nat) : Z := default 0 (buffer !! i).

Definition mask : Z := 31.

(** *** encode *)

Record enc_state : Type := EncState
  { enc_i : nat; enc_j : nat; enc_k : Z; enc_result : list ascii }.

(** One iteration of the [while (i < buffer.length)] loop of [encode].
    The operands are bytes and the shift counts are at most 8, so the
    32-bit wrap-around of [|], [<<] and [>>] is never reached. *)
Definition encode_body (buffer : list Z) (st : enc_state) : enc_state :=
  let k5 := enc_k st + 5 in
  let k := if 5 <=? k5 then k5 - 8 else k5 in
  let i := enc_i st in
  let x_i :=
    if k <? 0
    then (Z.lor 0 (Z.lor (Z.shiftr (byteAt buffer i) (- k))
                         (Z.shiftl (byteAt buffer (i + 1)) (8 + k))), i)
    else (Z.lor 0 (Z.lor (Z.shiftl (byteAt buffer i) k)
                         (Z.shiftr (byteAt buffer (i + 1)) (8 - k))), S i) in
  {| enc_i := snd x_i;
     enc_j := S (enc_j st);
     enc_k := k;
     enc_result :=
       <[enc_j st := charCodeAt alphabet (Z.land (fst x_i) mask)]> (enc_result st) |}.

Fixpoint encode_loop (fuel : nat) (buffer : list Z) (st : enc_state) : enc_state :=
  match fuel with
  | O => st
  | S fuel' =>
      if (enc_i st <? length buffer)%nat
      then encode_loop fuel' buffer (encode_body buffer st)
      else st
  end.

(** [Math.ceil(buffer.length / 5) * 8] *)
Definition encoded_length (n : nat) : nat := ((n + 4) / 5 * 8)%nat.

Definition encode_init (buffer : list Z) : enc_state :=
  {| enc_i := 0; enc_j := 0; enc_k := 0;
     enc_result := replicate (encoded_length (length buffer)) padding |}.

(** Every second iteration at the latest advances [i], so
    [2 * buffer.length + 1] iterations reach the exit of the loop
    ([encode_loop_exits] below). *)
Definition encode_fuel (buffer : list Z) : nat := S (2 * length buffer).

Definition encode (buffer : list Z) : string :=
  string_of_list_ascii
    (enc_result (encode_loop (encode_fuel buffer) buffer (encode_init buffer))).

(** *** decode *)

(** [text.replace(/=*$/, '')]: drop the longest run of [=] at the end. *)
Fixpoint strip_padding (text : list ascii) : list ascii :=
  match text with
  | [] => []
  | c :: text' =>
      match strip_padding text' with
      | [] => if Ascii.eqb c padding then [] else [c]
      | rest => c :: rest
      end
  end.

Record dec_state : Type := DecState
  { dec_i : nat; dec_j : nat; dec_k : Z; dec_result : list Z }.

(** [result[j] |= v] on a [Buffer]: the element read is [undefined]
    (so [0] under [|]) past the end, the value stored is reduced modulo
    256, and a store past the end is ignored. *)
Definition or_assign (result : list Z) (j : nat) (v : Z) : list Z :=
  <[j := (Z.lor (default 0 (result !! j)) v) mod 256]> result.

(** One iteration of the [while (i < text.length)] loop of [decode]. *)
Definition decode_body (text : list ascii) (st : dec_state) : dec_state :=
  let x := fromCharCode (nth (dec_i st) text zero) in
  if x =? -1 then
    {| dec_i := S (dec_i st); dec_j := dec_j st; dec_k := dec_k st;
       dec_result := dec_result st |}
  else if dec_k st <? 3 then
    {| dec_i := S (dec_i st); dec_j := dec_j st; dec_k := dec_k st + 5;
       dec_result := or_assign (dec_result st) (dec_j st) (Z.shiftl x (3 - dec_k st)) |}
  else
    {| dec_i := dec_i st; dec_j := S (dec_j st); dec_k := dec_k st - 8;
       dec_result := or_assign (dec_result st) (dec_j st) (Z.shiftr x (dec_k st - 3)) |}.

Fixpoint decode_loop (fuel : nat) (text : list ascii) (st : dec_state) : dec_state :=
  match fuel with
  | O => st
  | S fuel' =>
      if (dec_i st <? length text)%nat
      then decode_loop fuel' text (decode_body text st)
      else st
  end.

(** [Math.floor((text.length * 5) / 8)] *)
Definition decoded_length (n : nat) : nat := (n * 5 / 8)%nat.

Definition decode_init (text : list ascii) : dec_state :=
  {| dec_i := 0; dec_j := 0; dec_k := 0;
     dec_result := replicate (decoded_length (length text)) 0 |}.

Definition decode_fuel (text : list ascii) : nat := S (2 * length text).

Definition decode (text : string) : list Z :=
  let text := strip_padding (list_ascii_of_string text) in
  dec_result (decode_loop (decode_fuel text) text (decode_init text)).


(** *** Loop summaries

    The two loops read their input front to back and write their output
    front to back.  [enc_quintets] lists the 5-bit values whose letters the
    loop of [encode] stores, as a function of the bytes not yet consumed;
    [dec_quintets] is the loop of [decode] on the 5-bit values of the
    letters not yet consumed and on the part of [result] from index [j]
    on.  [encode_loop_quintets] and [decode_loop_quintets] relate them to
    the loops above. *)

Fixpoint enc_quintets (fuel : nat) (bs : list Z) (k : Z) : list Z :=
  match fuel, bs with
  | S fuel', b :: bs' =>
      let k5 := k + 5 in
      let k' := if 5 <=? k5 then k5 - 8 else k5 in
      let b1 := default 0 (head bs') in
      if k' <? 0
      then Z.land (Z.lor 0 (Z.lor (Z.shiftr b (- k')) (Z.shiftl b1 (8 + k')))) mask
             :: enc_quintets fuel' bs k'
      else Z.land (Z.lor 0 (Z.lor (Z.shiftl b k') (Z.shiftr b1 (8 - k')))) mask
             :: enc_quintets fuel' bs' k'
  | _, _ => []
  end.

Fixpoint write_chars (j : nat) (cs : list ascii) (result : list ascii) : list ascii :=
  match cs with
  | [] => result
  | c :: cs' => write_chars (S j) cs' (<[j := c]> result)
  end.

Definition or_head (rs : list Z) (v : Z) : list Z :=
  match rs with
  | [] => []
  | r :: rs' => (Z.lor r v) mod 256 :: rs'
  end.

Definition quintet (x : Z) : Prop := 0 <= x < 32.

Fixpoint dec_quintets (fuel : nat) (xs : list Z) (k : Z) (rs : list Z) : list Z :=
  match fuel, xs with
  | S fuel', x :: xs' =>
      if k <? 3
      then dec_quintets fuel' xs' (k + 5) (or_head rs (Z.shiftl x (3 - k)))
      else match or_head rs (Z.shiftr x (k - 3)) with
           | [] => dec_quintets fuel' xs (k - 8) []
           | r :: rs' => r :: dec_quintets fuel' xs (k - 8) rs'
           end
  | _, _ => rs
  end.

End base32.


(** ** Errors, promises and the calls made on the Google client *)

Inductive Error : Type :=
| RangeError (message : string)
| TypeError (message : string)
| Rejected (reason : string).

Inductive result (A : Type) : Type :=
| Ok (a : A)
| Err (e : Error).
Arguments Ok {A} a.
Arguments Err {A} e.

(** A [Date] is its time value in milliseconds; [None] is the invalid date,
    whose time value is [NaN]. *)
Definition Date : Type := option Z.

(** [a < b] on two dates compares the time values; it is false as soon as
    one of them is [NaN]. *)
Definition Date_lt (a b : Date) : bool :=
  match a, b with
  | Some x, Some y => x <? y
  | _, _ => false
  end.

Record URL : Type := mkURL
  { url_scheme : string;
    url_host : string;
    url_pathname : string;
    url_searchParams : list (string * string) }.

Record Request : Type := mkRequest
  { rq_method : string;
    rq_url : string;
    rq_headers : list (string * option string);
    rq_responseType : option string;
    rq_data : option string;
    rq_retry : bool }.

Record Response : Type := mkResponse
  { rs_status : Z;
    rs_headers : list (string * string);
    rs_data : string;
    (** [response.data && response.data.error]: the error carried by the
        body, when there is one. *)
    rs_error : option Error }.

Record Credentials : Type := mkCredentials { client_email : option string }.

(** The [GoogleAuth] client, by the answers it gives. *)
Record GoogleAuth : Type := mkGoogleAuth
  { auth_getCredentials : result Credentials;
    auth_sign : string -> option string -> result string;
    auth_request : Request -> result Response }.

Inductive Call : Type :=
| CallGetCredentials
| CallSign (payload : string) (endpoint : option string)
| CallRequest (request : Request).

(** A computation lists the calls it made on the client, in order, and ends
    with a value or with the error thrown. *)
Definition M (A : Type) : Type := (list Call * result A)%type.

Definition ret {A : Type} (a : A) : M A := ([], Ok a).

Definition throw {A : Type} (e : Error) : M A := ([], Err e).

Definition bind {A B : Type} (m : M A) (k : A -> M B) : M B :=
  match m with
  | (calls, Ok a) => let '(calls', r) := k a in (calls ++ calls', r)
  | (calls, Err e) => (calls, Err e)
  end.

Notation "'let*' x ':=' m 'in' k" := (bind m (fun x => k))
  (at level 10, x name, m at level 100, k at level 200).

(** [await p] for a promise of the client. *)
Definition await {A : Type} (c : Call) (p : result A) : M A := ([c], p).

Definition lift {A : Type} (r : result A) : M A := ([], r).

Definition calls_of {A : Type} (m : M A) : list Call := fst m.
Definition outcome {A : Type} (m : M A) : result A := snd m.

Definition is_sign (c : Call) : bool :=
  match c with CallSign _ _ => true | _ => false end.

(** The value that the XML parser gives to the text of an element.  With
    [parseTagValue], which is on unless the options of the parser turn it
    off, a text that reads as a number or as a boolean is returned as
    one: the key [123] of an object arrives as a number, not as a
    string. *)
Inductive TagValue : Type :=
| TagString (s : string)
| TagNumber (n : Z)
| TagBoolean (b : bool).

(** The [ListBucketResult] element that the XML parser returns for a
    listing.  [Key] is the name that the owner of the object chose, so it
    may be any of the three; [LastModified] is written by the backend as
    an ISO 8601 text, which the parser leaves as it is. *)
Record ListEntry : Type := mkListEntry
  { le_Key : TagValue; le_LastModified : option string; le_Size : Z }.

Record ListBucketResult : Type := mkListBucketResult
  { lbr_Contents : option (list ListEntry);
    lbr_NextContinuationToken : option string }.

(** ** The platform

    Functions of the JavaScript runtime and of third-party packages that
    the sources call and whose code is not part of the repository. *)

Class Platform : Type := mkPlatform
  { (** [Date.prototype.toISOString] of a valid time value *)
    toISOString : Z -> string;
    (** [new Date(text)] *)
    Date_parse : string -> Date;
    (** [new Date()] *)
    Date_now : Date;
    (** [createHash('sha256').update(data).digest().toString('hex')] *)
    sha256_hex : string -> string;
    (** [Buffer.from(text, 'base64').toString('hex')] *)
    base64_to_hex : string -> string;
    (** [new URL(text)]; [None] when it throws *)
    URL_parse : string -> option URL;
    (** [URLSearchParams.prototype.toString] *)
    form_urlencode : list (string * string) -> string;
    (** [Number(text)]; [None] for [NaN] *)
    Number_parse : string -> option Z;
    (** [Date.prototype.toUTCString] *)
    toUTCString : Date -> string;
    (** [parser.parse(text).ListBucketResult]; [None] when the document has
        no such element *)
    parse_ListBucketResult : string -> option ListBucketResult }.

(** ** Strings *)

Module Str.

Definition is_digit (c : ascii) : bool :=
  let n := nat_of_ascii c in (48 <=? n)%nat && (n <=? 57)%nat.

Definition is_space (c : ascii) : bool :=
  let n := nat_of_ascii c in
  (n =? 32)%nat || ((9 <=? n)%nat && (n <=? 13)%nat).

Definition lower_char (c : ascii) : ascii :=
  let n := nat_of_ascii c in
  if (65 <=? n)%nat && (n <=? 90)%nat then ascii_of_nat (n + 32) else c.

Fixpoint lower (s : string) : string :=
  match s with
  | EmptyString => EmptyString
  | String c s' => String (lower_char c) (lower s')
  end.

Fixpoint all_digits (s : string) : bool :=
  match s with
  | EmptyString => true
  | String c s' => is_digit c && all_digits s'
  end.

Fixpoint drop_digits (s : string) : string :=
  match s with
  | String c s' => if is_digit c then drop_digits s' else s
  | EmptyString => EmptyString
  end.

(** [s.replace(/\.\d+/, '')] *)
Fixpoint remove_fraction (s : string) : string :=
  match s with
  | EmptyString => EmptyString
  | String c s' =>
      match s' with
      | String d _ =>
          if Ascii.eqb c "."%char && is_digit d then drop_digits s'
          else String c (remove_fraction s')
      | EmptyString => String c EmptyString
      end
  end.

(** [s.replaceAll(/[-:]/g, '')] *)
Fixpoint remove_dash_colon (s : string) : string :=
  match s with
  | EmptyString => EmptyString
  | String c s' =>
      if Ascii.eqb c "-"%char || Ascii.eqb c ":"%char then remove_dash_colon s'
      else String c (remove_dash_colon s')
  end.

Fixpoint drop_spaces (s : string) : string :=
  match s with
  | String c s' => if is_space c then drop_spaces s' else s
  | EmptyString => EmptyString
  end.

(** [s.replaceAll(/\s+/g, ' ')] *)
Fixpoint collapse_spaces (fuel : nat) (s : string) : string :=
  match fuel, s with
  | S fuel', String c s' =>
      if is_space c then String " "%char (collapse_spaces fuel' (drop_spaces s'))
      else String c (collapse_spaces fuel' s')
  | _, _ => EmptyString
  end.

Definition rev_string (s : string) : string :=
  string_of_list_ascii (rev (list_ascii_of_string s)).

(** [s.trim()] *)
Definition trim (s : string) : string :=
  rev_string (drop_spaces (rev_string (drop_spaces s))).

(** [s.slice(0, n)] *)
Definition slice0 (n : nat) (s : string) : string := String.substring 0 n s.

(** [parts.join(sep)] *)
Definition join (sep : string) (parts : list string) : string := String.concat sep parts.

(** [s.includes(needle)] *)
Fixpoint includes (needle s : string) : bool :=
  String.prefix needle s ||
  match s with
  | EmptyString => false
  | String _ s' => includes needle s'
  end.

(** [s.replace(pattern, replacement)] for a string pattern: the first
    occurrence only. *)
Fixpoint replace_first (pattern replacement s : string) : string :=
  if String.prefix pattern s
  then replacement +:+ String.substring (String.length pattern) (String.length s) s
  else match s with
       | EmptyString => EmptyString
       | String c s' => String c (replace_first pattern replacement s')
       end.

End Str.

(** ** [Headers]

    Names are kept in lower case, one entry per name, sorted by name, which
    is the order in which a [Headers] object is iterated. *)

Module Headers.

Definition t : Type := list (string * string).

Fixpoint find (h : t) (name : string) : option string :=
  match h with
  | [] => None
  | (n, v) :: h' => if String.eqb n name then Some v else find h' name
  end.

Definition get (h : t) (name : string) : option string := find h (Str.lower name).

Definition has (h : t) (name : string) : bool :=
  match get h name with Some _ => true | None => false end.

Fixpoint put (name value : string) (h : t) : t :=
  match h with
  | [] => [(name, value)]
  | (n, v) :: h' =>
      if String.eqb n name then (name, value) :: h'
      else if String.ltb name n then (name, value) :: (n, v) :: h'
      else (n, v) :: put name value h'
  end.

(** [headers.set(name, value)], for a name and a value that are stored as
    they are given.  The sources call it once, with ['Host'] and the host
    of a parsed URL, in which the URL parser leaves no whitespace and no
    control character. *)
Definition set (h : t) (name value : string) : t := put (Str.lower name) value h.

Definition append (h : t) (name value : string) : t :=
  match get h name with
  | Some old => set h name (old +:+ ", " +:+ value)
  | None => set h name value
  end.

Definition delete (h : t) (name : string) : t :=
  List.filter (fun p => negb (String.eqb (fst p) (Str.lower name))) h.

Definition keys (h : t) : list string := map fst h.

Definition entries (h : t) : list (string * string) := h.

Definition of_list (init : list (string * string)) : t :=
  fold_left (fun h p => append h (fst p) (snd p)) init [].

(** A header name is a token: one character or more out of the letters,
    the digits and [! # $ % & ' * + - . ^ _ ` | ~]. *)
Definition is_token_char (c : ascii) : bool :=
  let n := nat_of_ascii c in
  ((48 <=? n)%nat && (n <=? 57)%nat) || ((65 <=? n)%nat && (n <=? 90)%nat) ||
  ((97 <=? n)%nat && (n <=? 122)%nat) ||
  existsb (Nat.eqb n) [33; 35; 36; 37; 38; 39; 42; 43; 45; 46; 94; 95; 96; 124; 126]%nat.

Fixpoint all_token (s : string) : bool :=
  match s with
  | EmptyString => true
  | String c s' => is_token_char c && all_token s'
  end.

Definition name_ok (name : string) : bool :=
  negb (String.eqb name "") && all_token name.

(** The HTTP whitespace: tab, line feed, carriage return and space. *)
Definition is_http_whitespace (c : ascii) : bool :=
  existsb (Nat.eqb (nat_of_ascii c)) [9; 10; 13; 32]%nat.

Fixpoint drop_http_whitespace (s : string) : string :=
  match s with
  | String c s' => if is_http_whitespace c then drop_http_whitespace s' else s
  | EmptyString => EmptyString
  end.

(** A value is normalized before it is stored: the HTTP whitespace at its
    two ends goes. *)
Definition normalize (value : string) : string :=
  Str.rev_string (drop_http_whitespace (Str.rev_string (drop_http_whitespace value))).

(** A header value holds no NUL, no line feed and no carriage return. *)
Fixpoint value_ok (value : string) : bool :=
  match value with
  | EmptyString => true
  | String c s' =>
      negb (existsb (Nat.eqb (nat_of_ascii c)) [0; 10; 13]%nat) && value_ok s'
  end.

(** The constructor fills the object with the entries of [init], one
    after the other: the value is normalized, then the name and the value
    are tested, then the entry is appended.  The first entry that fails a
    test ends the construction with a [TypeError]. *)
Fixpoint fill (init : list (string * string)) (h : t) : result t :=
  match init with
  | [] => Ok h
  | (name, value) :: init' =>
      let value := normalize value in
      if negb (name_ok name) then Err (TypeError "Invalid header name")
      else if negb (value_ok value) then Err (TypeError "Invalid header value")
      else fill init' (append h name value)
  end.

End Headers.

(** The names of a [Headers] object are in lower case. *)
Definition lower_names (h : Headers.t) : Prop :=
  Forall (fun kv => Str.lower (fst kv) = fst kv) h.

(** [new Headers(init)] *)
Definition new_Headers (init : list (string * string)) : result Headers.t :=
  Headers.fill init [].

(** The entries of [init] as a [Headers] object stores them. *)
Definition normalized_entries (init : list (string * string)) : list (string * string) :=
  map (fun kv => (fst kv, Headers.normalize (snd kv))) init.

(** Every entry of [init] passes the two tests of the constructor. *)
Definition acceptable (init : list (string * string)) : bool :=
  forallb (fun kv => Headers.name_ok (fst kv) && Headers.value_ok (Headers.normalize (snd kv)))
    init.

Definition new_URL `{Platform} (text : string) : result URL :=
  match URL_parse text with
  | Some u => Ok u
  | None => Err (TypeError "Invalid URL")
  end.

(** [URLSearchParams.prototype.sort]: a stable sort by name. *)
Fixpoint insert_param (p : string * string) (ps : list (string * string))
  : list (string * string) :=
  match ps with
  | [] => [p]
  | q :: ps' =>
      if String.leb (fst p) (fst q) then p :: q :: ps'
      else q :: insert_param p ps'
  end.

Definition sort_params (ps : list (string * string)) : list (string * string) :=
  fold_right insert_param [] ps.

(** The order of that sort. *)
Definition by_name (p q : string * string) : Prop := String.leb (fst p) (fst q) = true.

(** [searchParams.append(name, value)] *)
Definition append_param (u : URL) (name value : string) : URL :=
  {| url_scheme := url_scheme u; url_host := url_host u;
     url_pathname := url_pathname u;
     url_searchParams := url_searchParams u ++ [(name, value)] |}.

Definition with_params (u : URL) (ps : list (string * string)) : URL :=
  {| url_scheme := url_scheme u; url_host := url_host u;
     url_pathname := url_pathname u; url_searchParams := ps |}.

(** The parameters of a given name, in the order of the query string. *)
Definition is_param (name : string) (kv : string * string) : bool :=
  String.eqb (fst kv) name.


(** ** The request signer of [src/storage/backend/gcs/signer.ts] *)

Module Signer.
Section WithPlatform.
Context `{Platform}.

(** [toISOBasicString.call(date)]; [toISOString] throws a [RangeError] on
    the invalid date. *)
Definition toISOBasicString (date : Date) : result string :=
  match date with
  | Some t => Ok (Str.remove_dash_colon (Str.remove_fraction (toISOString t)))
  | None => Err (RangeError "Invalid time value")
  end.

Record CredentialScope : Type := mkCredentialScope
  { cs_date : Date; cs_location : string; cs_service : string; cs_requestType : string }.

Definition CredentialScope_toString (data : CredentialScope) : result string :=
  match toISOBasicString (cs_date data) with
  | Ok basic =>
      Ok (Str.join "/" [Str.slice0 8 basic; cs_location data; cs_service data;
                        cs_requestType data])
  | Err e => Err e
  end.

Record CanonicalRequest : Type := mkCanonicalRequest
  { cr_method : string;
    cr_url : string;
    cr_data : option string;
    cr_headers : list (string * string) }.

(** [hashCanonicalRequest], called by [getSignedUrl] on the [URL] and the
    [Headers] objects it has built. *)
Definition hashCanonicalRequest
    (method : string) (url : URL) (headers : Headers.t) (data : string) : string :=
  let canonicalQueryString := form_urlencode (url_searchParams url) in
  let canonicalHeaders :=
    Str.join (String "010"%char EmptyString)
      (map (fun kv =>
              fst kv +:+ ":" +:+
              Str.trim (Str.collapse_spaces (String.length (snd kv)) (snd kv)))
           (Headers.entries headers)) in
  let signedHeaders := Str.join ";" (Headers.keys headers) in
  let data :=
    Str.join (String "010"%char EmptyString)
      [method; url_pathname url; canonicalQueryString;
       canonicalHeaders +:+ String "010"%char EmptyString; signedHeaders; data] in
  sha256_hex data.

Record RequestPresigningArguments : Type := mkPresigningArguments
  { signingDate : option Date;
    signingEndpoint : option string;
    signingService : option string;
    signingRegion : option string;
    unsignableHeaders : option (gset string);
    signableHeaders : option (gset string);
    expiresIn : option Z;
    unhoistableHeaders : option (gset string) }.

(** [options?.field ?? fallback] *)
Definition option_field {A : Type} (options : option RequestPresigningArguments)
    (field : RequestPresigningArguments -> option A) (fallback : A) : A :=
  match options with
  | Some o => default fallback (field o)
  | None => fallback
  end.

(** The loop over [Array.from(headers.entries())]: a header outside
    [unhoistableHeaders] moves to the query string. *)
Fixpoint hoist (entries : list (string * string)) (unhoistable : gset string)
    (url : URL) (headers : Headers.t) : URL * Headers.t :=
  match entries with
  | [] => (url, headers)
  | (key, value) :: entries' =>
      if bool_decide (key ∈ unhoistable)
      then hoist entries' unhoistable url headers
      else hoist entries' unhoistable (append_param url key value)
             (Headers.delete headers key)
  end.

(** The loop over [headers.keys()]: the iterator reads the live, sorted list
    of names at its current index, so a deletion moves the later names one
    place down under it. *)
Fixpoint drop_unsignable (fuel index : nat) (unsignable signable : gset string)
    (headers : Headers.t) : Headers.t :=
  match fuel with
  | O => headers
  | S fuel' =>
      match Headers.keys headers !! index with
      | None => headers
      | Some key =>
          if bool_decide (key ∈ unsignable) && negb (bool_decide (key ∈ signable))
          then drop_unsignable fuel' (S index) unsignable signable (Headers.delete headers key)
          else drop_unsignable fuel' (S index) unsignable signable headers
      end
  end.

(** The URL and the headers that [getSignedUrl] holds when it reaches the
    test of [expiresIn]. *)
Definition hoisted (request : CanonicalRequest) (options : option RequestPresigningArguments)
    (headers : Headers.t) (url : URL) : URL * Headers.t :=
  let headers :=
    if Headers.has headers "Host" then headers
    else Headers.set headers "Host" (url_host url) in
  hoist (Headers.entries headers)
    (option_field options unhoistableHeaders (list_to_set (Headers.keys headers)))
    url headers.

(** The headers that [getSignedUrl] signs: those that the second loop
    leaves of them. *)
Definition signed_headers (request : CanonicalRequest)
    (options : option RequestPresigningArguments) (headers : Headers.t) (url : URL)
  : Headers.t :=
  let headers := snd (hoisted request options headers url) in
  drop_unsignable (S (length headers)) 0 (option_field options unsignableHeaders ∅)
    (option_field options signableHeaders ∅) headers.

Definition max_expiry : Z := 604800.

Definition default_expiry : Z := 900.

Definition getSignedUrl (client : GoogleAuth) (request : CanonicalRequest)
    (options : option RequestPresigningArguments) : M URL :=
  let* headers := lift (new_Headers (cr_headers request)) in
  let* url := lift (new_URL (cr_url request)) in
  let headers :=
    if Headers.has headers "Host" then headers
    else Headers.set headers "Host" (url_host url) in
  let unhoistableHeaders :=
    option_field options unhoistableHeaders (list_to_set (Headers.keys headers)) in
  let unsignableHeaders := option_field options unsignableHeaders ∅ in
  let signableHeaders := option_field options signableHeaders ∅ in
  let '(url, headers) := hoist (Headers.entries headers) unhoistableHeaders url headers in
  let headers :=
    drop_unsignable (S (length headers)) 0 unsignableHeaders signableHeaders headers in
  let signingDate := option_field options signingDate Date_now in
  let expiresIn := option_field options expiresIn default_expiry in
  if max_expiry <? expiresIn
  then throw (RangeError "The longest expiration value is 604800 seconds (7 days)")
  else
    let* credentials := await CallGetCredentials (auth_getCredentials client) in
    let* credentialScope :=
      lift (CredentialScope_toString
              {| cs_date := signingDate;
                 cs_location := option_field options signingRegion "auto"%string;
                 cs_service := option_field options signingService "storage"%string;
                 cs_requestType := "goog4_request" |}) in
    let signingAlgorithm := "GOOG4-RSA-SHA256"%string in
    let signedHeaders := Str.join ";" (Headers.keys headers) in
    let url := append_param url "X-Goog-Algorithm" signingAlgorithm in
    let url :=
      append_param url "X-Goog-Credential"
        (default "undefined"%string (client_email credentials) +:+ "/" +:+ credentialScope) in
    let* basicDate := lift (toISOBasicString signingDate) in
    let url := append_param url "X-Goog-Date" basicDate in
    let url := append_param url "X-Goog-Expires" (pretty expiresIn) in
    let url := append_param url "X-Goog-SignedHeaders" signedHeaders in
    let url := with_params url (sort_params (url_searchParams url)) in
    let contentHash :=
      default "UNSIGNED-PAYLOAD"%string (Headers.get headers "X-Goog-Content-SHA256") in
    let hash := hashCanonicalRequest (cr_method request) url headers contentHash in
    let* activeDatetime := lift (toISOBasicString signingDate) in
    let stringToSign :=
      Str.join (String "010"%char EmptyString)
        [signingAlgorithm; activeDatetime; credentialScope; hash] in
    let endpoint := match options with Some o => signingEndpoint o | None => None end in
    let* signature :=
      await (CallSign stringToSign endpoint) (auth_sign client stringToSign endpoint) in
    let signatureHex := base64_to_hex signature in
    ret (append_param url "X-Goog-Signature" signatureHex).

End WithPlatform.
End Signer.

(** ** The GCS backend of [src/storage/backend/gcs/adapter.ts] *)

Module GCS.
Section WithPlatform.
Context `{Platform}.

(** Modelled from the spec: [withOptionalVersion] is imported from
    [src/storage/backend/adapter.ts], which is not among the sources.  The
    spec gives the derived key as [name[/version]]: "the version suffix is
    appended only when a version is known". *)
Definition withOptionalVersion (key : string) (version : option string) : string :=
  match version with
  | Some v => key +:+ "/" +:+ v
  | None => key
  end.

Record GCSBackend : Type := mkGCSBackend
  { client : GoogleAuth; retry : bool }.

Record ObjectMetadata : Type := mkObjectMetadata
  { cacheControl : string;
    mimetype : string;
    eTag : string;
    lastModified : option Date;
    contentRange : option string;
    contentLength : Z;
    size : Z;
    httpStatusCode : Z }.

Record ObjectResponse : Type := mkObjectResponse
  { or_metadata : ObjectMetadata; or_httpStatusCode : Z; or_body : string }.

(** [value || fallback] on the result of [headers.get]. *)
Definition or_string (value : option string) (fallback : string) : string :=
  match value with
  | Some s => if String.eqb s "" then fallback else s
  | None => fallback
  end.

(** [Number(headers.get(name)) || 0] *)
Definition number_or_zero (value : option string) : Z :=
  match value with
  | Some s => default 0 (Number_parse s)
  | None => 0
  end.

Definition dateify (value : option string) : option Date :=
  match value with
  | Some s => Some (Date_parse s)
  | None => None
  end.

(** The object literal that [buildMetadata] returns, from the [Headers]
    object it has built. *)
Definition metadata_of (headers : Headers.t) (status : Z) : ObjectMetadata :=
  {| cacheControl := or_string (Headers.get headers "Cache-Control") "no-cache";
     mimetype := or_string (Headers.get headers "Content-Type") "application/octet-stream";
     eTag := or_string (Headers.get headers "ETag") "";
     lastModified := dateify (Headers.get headers "Last-Modified");
     contentRange := Headers.get headers "Range";
     contentLength := number_or_zero (Headers.get headers "Content-Length");
     size := number_or_zero (Headers.get headers "Content-Length");
     httpStatusCode := status |}.

(** [buildMetadata]: [new Headers(response.headers)] throws when the
    response has a header that is not one. *)
Definition buildMetadata (response : Response) : result ObjectMetadata :=
  match new_Headers (rs_headers response) with
  | Ok headers => Ok (metadata_of headers (rs_status response))
  | Err e => Err e
  end.

(** [carries response name]: the response has a header of that name, in
    whatever case it is spelled. *)
Definition carries (response : Response) (name : string) : bool :=
  existsb (fun kv => String.eqb (Str.lower (fst kv)) (Str.lower name)) (rs_headers response).

(** The metadata that an operation returns was built by [buildMetadata]
    from a response of the backend. *)
Definition normalized (client : GoogleAuth) (request : Request) (m : ObjectMetadata) : Prop :=
  exists response,
    auth_request client request = Ok response /\
    buildMetadata response = Ok m.

Definition object_url (bucketName objectName : string) : string :=
  "https://" +:+ bucketName +:+ ".storage.googleapis.com/" +:+ objectName.

(** [await this.client.request(...)] followed by
    [if (response.data && response.data.error) throw response.data.error]. *)
Definition send (backend : GCSBackend) (request : Request) : M Response :=
  let* response := await (CallRequest request) (auth_request (client backend) request) in
  match rs_error response with
  | Some e => throw e
  | None => ret response
  end.

Record ListOptions : Type := mkListOptions
  { lo_prefix : option string;
    lo_delimiter : option string;
    lo_nextToken : option string;
    lo_startAfter : option string;
    lo_beforeDate : option Date }.

(** An entry of the page: [name] is the key as the parser gave it, or the
    string that [replace] made of it. *)
Record ListKey : Type := mkListKey { lk_name : TagValue; lk_size : Z }.

Record ListPage : Type := mkListPage
  { lp_keys : list ListKey; lp_nextToken : option string }.

(** [options?.field ?? ''] *)
Definition list_option (options : option ListOptions)
    (field : ListOptions -> option string) : string :=
  match options with
  | Some o => default ""%string (field o)
  | None => ""%string
  end.

(** [options?.beforeDate], when it is there. *)
Definition list_beforeDate (options : option ListOptions) : option Date :=
  match options with
  | Some o => lo_beforeDate o
  | None => None
  end.

(** [options?.prefix], when it is a non-empty string. *)
Definition list_prefix (options : option ListOptions) : option string :=
  match options with
  | Some o =>
      match lo_prefix o with
      | Some p => if String.eqb p "" then None else Some p
      | None => None
      end
  | None => None
  end.

(** The predicate given to [data.Contents?.filter]. *)
Definition list_keep (options : option ListOptions) (object : ListEntry) : bool :=
  match le_LastModified object, list_beforeDate options with
  | Some modified, Some beforeDate =>
      if String.eqb modified "" then true
      else Date_lt (Date_parse modified) beforeDate
  | _, _ => true
  end.

(** The function given to [map] after it.  With a prefix it calls
    [object.Key.replace], which only a string has. *)
Definition list_entry (options : option ListOptions) (object : ListEntry) : result ListKey :=
  match list_prefix options with
  | Some prefix =>
      match le_Key object with
      | TagString key =>
          Ok {| lk_name := TagString (Str.replace_first "/" "" (Str.replace_first prefix "" key));
                lk_size := le_Size object |}
      | _ => Err (TypeError "object.Key.replace is not a function")
      end
  | None => Ok {| lk_name := le_Key object; lk_size := le_Size object |}
  end.

(** [entries.map(f)] for a function that may throw: the first entry on
    which it throws ends the call. *)
Fixpoint map_entries {A B : Type} (f : A -> result B) (entries : list A)
  : result (list B) :=
  match entries with
  | [] => Ok []
  | entry :: entries' =>
      match f entry with
      | Ok b =>
          match map_entries f entries' with
          | Ok bs => Ok (b :: bs)
          | Err e => Err e
          end
      | Err e => Err e
      end
  end.

Definition list_request (backend : GCSBackend) (bucketName : string)
    (options : option ListOptions) : Request :=
  let query :=
    [("continuation-token"%string, list_option options lo_nextToken);
     ("delimiter"%string, list_option options lo_delimiter);
     ("prefix"%string, list_option options lo_prefix);
     ("start-after"%string, list_option options lo_startAfter)] in
  let query := List.filter (fun kv => negb (String.eqb (snd kv) "")) query in
  let url := "https://" +:+ bucketName +:+ ".storage.googleapis.com/?" +:+ form_urlencode query in
  {| rq_method := "GET"; rq_url := url; rq_headers := [];
     rq_responseType := Some "text"%string; rq_data := None;
     rq_retry := retry backend |}.

Definition list (backend : GCSBackend) (bucketName : string)
    (options : option ListOptions) : M ListPage :=
  let* response := send backend (list_request backend bucketName options) in
  match parse_ListBucketResult (rs_data response) with
  | None => throw (TypeError "Cannot read properties of undefined (reading 'Contents')")
  | Some data =>
      let* keys :=
        lift match lbr_Contents data with
             | Some contents =>
                 map_entries (list_entry options) (List.filter (list_keep options) contents)
             | None => Ok []
             end in
      ret {| lp_keys := keys; lp_nextToken := lbr_NextContinuationToken data |}
  end.

Record BrowserCacheHeaders : Type := mkBrowserCacheHeaders
  { ifModifiedSince : option string; ifNoneMatch : option string; range : option string }.

Definition getObject (backend : GCSBackend) (bucketName key : string)
    (version : option string) (headers : option BrowserCacheHeaders) : M ObjectResponse :=
  let objectName := withOptionalVersion key version in
  let url := object_url bucketName objectName in
  let* response :=
    send backend
      {| rq_method := "GET"; rq_url := url;
         rq_headers :=
           [("If-Modified-Since"%string, headers ≫= ifModifiedSince);
            ("If-None-Match"%string, headers ≫= ifNoneMatch);
            ("Range"%string, headers ≫= range)];
         rq_responseType := Some "stream"%string; rq_data := None;
         rq_retry := retry backend |} in
  let* metadata := lift (buildMetadata response) in
  ret {| or_metadata := metadata;
         or_httpStatusCode := rs_status response;
         or_body := rs_data response |}.

Definition head_request (backend : GCSBackend) (bucketName key : string)
    (version : option string) : Request :=
  let objectName := withOptionalVersion key version in
  let url := object_url bucketName objectName in
  {| rq_method := "HEAD"; rq_url := url; rq_headers := [];
     rq_responseType := None; rq_data := None; rq_retry := retry backend |}.

Definition headObject (backend : GCSBackend) (bucketName key : string)
    (version : option string) : M ObjectMetadata :=
  let* response := send backend (head_request backend bucketName key version) in
  lift (buildMetadata response).

Definition uploadObject (backend : GCSBackend) (bucketName key : string)
    (version : option string) (body contentType cacheControl : string) : M ObjectMetadata :=
  let objectName := withOptionalVersion key version in
  let url := object_url bucketName objectName in
  let* response :=
    send backend
      {| rq_method := "PUT"; rq_url := url;
         rq_headers :=
           [("Cache-Control"%string, Some cacheControl);
            ("Content-Type"%string, Some contentType)];
         rq_responseType := None; rq_data := Some body; rq_retry := retry backend |} in
  let* metadata := headObject backend bucketName key version in
  ret metadata.

Definition deleteObject (backend : GCSBackend) (bucketName key : string)
    (version : option string) : M unit :=
  let objectName := withOptionalVersion key version in
  let url := object_url bucketName objectName in
  let* response :=
    send backend
      {| rq_method := "DELETE"; rq_url := url; rq_headers := [];
         rq_responseType := None; rq_data := None; rq_retry := retry backend |} in
  ret tt.

Record CopyMetadata : Type := mkCopyMetadata
  { cm_cacheControl : option string; cm_mimetype : option string }.

Record CopyConditions : Type := mkCopyConditions
  { cc_ifMatch : option string;
    cc_ifNoneMatch : option string;
    cc_ifModifiedSince : option Date;
    cc_ifUnmodifiedSince : option Date }.

Inductive MetadataDirective : Type := COPY | REPLACE.

Definition directive_name (d : MetadataDirective) : string :=
  match d with COPY => "COPY" | REPLACE => "REPLACE" end.

(** [`${bucketName}/${withOptionalVersion(source, version)}`] *)
Definition copy_source (bucketName source : string) (version : option string) : string :=
  bucketName +:+ "/" +:+ withOptionalVersion source version.

(** [objectName !== copySource ? 'COPY' : 'REPLACE'] *)
Definition metadata_directive (bucketName source : string) (version : option string)
    (destination : string) (destinationVersion : option string) : MetadataDirective :=
  let objectName := withOptionalVersion destination destinationVersion in
  let copySource := copy_source bucketName source version in
  if negb (String.eqb objectName copySource) then COPY else REPLACE.

Definition copy_request (backend : GCSBackend) (bucketName source : string)
    (version : option string) (destination : string) (destinationVersion : option string)
    (metadata : option CopyMetadata) (conditions : option CopyConditions) : Request :=
  let objectName := withOptionalVersion destination destinationVersion in
  let url := object_url bucketName objectName in
  let copySource := copy_source bucketName source version in
  {| rq_method := "PUT"; rq_url := url;
     rq_headers :=
       [("Cache-Control"%string, metadata ≫= cm_cacheControl);
        ("Content-Type"%string, metadata ≫= cm_mimetype);
        ("X-Goog-Copy-Source"%string, Some copySource);
        ("X-Goog-Copy-Source-If-Match"%string, conditions ≫= cc_ifMatch);
        ("X-Goog-Copy-Source-If-None-Match"%string, conditions ≫= cc_ifNoneMatch);
        ("X-Goog-Copy-Source-If-Unmodified-Since"%string,
          toUTCString <$> (conditions ≫= cc_ifUnmodifiedSince));
        ("X-Goog-Copy-Source-If-Modified-Since"%string,
          toUTCString <$> (conditions ≫= cc_ifModifiedSince));
        ("X-Goog-Metadata-Directive"%string,
          Some (directive_name
                  (metadata_directive bucketName source version destination
                     destinationVersion)))];
     rq_responseType := None; rq_data := None; rq_retry := retry backend |}.

Definition copyObject (backend : GCSBackend) (bucketName source : string)
    (version : option string) (destination : string) (destinationVersion : option string)
    (metadata : option CopyMetadata) (conditions : option CopyConditions)
  : M ObjectMetadata :=
  let* response :=
    send backend
      (copy_request backend bucketName source version destination destinationVersion
         metadata conditions) in
  lift (buildMetadata response).

(** The options that [privateAssetUrl] gives to the signer:
    [{ expiresIn: 600 }]. *)
Definition private_options : Signer.RequestPresigningArguments :=
  {| Signer.signingDate := None; Signer.signingEndpoint := None;
     Signer.signingService := None; Signer.signingRegion := None;
     Signer.unsignableHeaders := None; Signer.signableHeaders := None;
     Signer.expiresIn := Some 600; Signer.unhoistableHeaders := None |}.

Definition privateAssetUrl (backend : GCSBackend) (bucketName key : string)
    (version : option string) : M URL :=
  let objectName := withOptionalVersion key version in
  let url := object_url bucketName objectName in
  let request :=
    {| Signer.cr_method := "GET"; Signer.cr_url := url;
       Signer.cr_data := None; Signer.cr_headers := [] |} in
  Signer.getSignedUrl (client backend) request (Some private_options).

End WithPlatform.
End GCS.

(** ** Multipart uploads of [src/storage/backend/gcs/adapter.ts]

    [uploadPart], [abortMultipartUpload] and [uploadPartCopy].  Their
    requests carry a [body], a [signal] and numbers as header values, so
    they have a request type of their own; a computation lists the
    requests it sent and the aborts of its [AbortController]. *)

Module Multipart.

(** The [signal] of a request: the one the caller passed, or the one of
    the controller that [uploadPartCopy] creates. *)
Inductive Signal : Type := CallerSignal | ControllerSignal.

Inductive HeaderValue : Type :=
| HString (s : string)
| HNumber (n : Z).

Record PartRequest : Type := mkPartRequest
  { pr_method : string;
    pr_url : string;
    pr_headers : list (string * option HeaderValue);
    pr_body : option string;
    pr_responseType : option string;
    pr_signal : option Signal;
    pr_retry : bool }.

(** The client, by its answers, and the [retry] setting of the backend. *)
Record Backend : Type := mkBackend
  { request : PartRequest -> result Response; retry : bool }.

Inductive Event : Type :=
| Requested (r : PartRequest)
| Aborted (reason : Error).

(** [response.headers[name]]: the property of that exact name. *)
Fixpoint own_property (name : string) (headers : list (string * string)) : option string :=
  match headers with
  | [] => None
  | (n, v) :: headers' => if String.eqb n name then Some v else own_property name headers'
  end.

(** The URL of a part:
    [https://${bucketName}.storage.googleapis.com/${objectName}?partNumber=${partNumber}&uploadId=${uploadId}] *)
Definition part_url (bucketName objectName : string) (partNumber : Z) (uploadId : string)
  : string :=
  GCS.object_url bucketName objectName +:+ "?partNumber=" +:+ pretty partNumber +:+
  "&uploadId=" +:+ uploadId.

Definition uploadPart (backend : Backend) (bucketName key version uploadId : string)
    (partNumber : Z) (body : option string) (length : option Z) (signal : option Signal)
  : list Event * result (option string) :=
  let objectName := GCS.withOptionalVersion key (Some version) in
  let url := part_url bucketName objectName partNumber uploadId in
  let put :=
    {| pr_method := "PUT"; pr_url := url;
       pr_headers := [("Content-Length"%string, HNumber <$> length)];
       pr_body := body; pr_responseType := None; pr_signal := signal;
       pr_retry := retry backend |} in
  match request backend put with
  | Err e => ([Requested put], Err e)
  | Ok response =>
      match rs_error response with
      | Some e => ([Requested put], Err e)
      | None => ([Requested put], Ok (own_property "ETag" (rs_headers response)))
      end
  end.

Definition abortMultipartUpload (backend : Backend) (bucketName key uploadId : string)
    (version : option string) : list Event * result unit :=
  let objectName := GCS.withOptionalVersion key version in
  let url := GCS.object_url bucketName objectName +:+ "?uploadId=" +:+ uploadId in
  let delete :=
    {| pr_method := "DELETE"; pr_url := url; pr_headers := [];
       pr_body := None; pr_responseType := None; pr_signal := None;
       pr_retry := retry backend |} in
  match request backend delete with
  | Err e => ([Requested delete], Err e)
  | Ok response =>
      match rs_error response with
      | Some e => ([Requested delete], Err e)
      | None => ([Requested delete], Ok tt)
      end
  end.

Record CopiedPart : Type := mkCopiedPart
  { cp_eTag : option string; cp_lastModified : option string }.

(** The request that reads the source of [uploadPartCopy]. *)
Definition copy_get (backend : Backend) (bucketName sourceKey : string)
    (sourceVersion : option string) (sourceRange : option (Z * Z)) : PartRequest :=
  let copySource := GCS.withOptionalVersion sourceKey sourceVersion in
  let copyUrl := GCS.object_url bucketName copySource in
  let range :=
    (fun r => "bytes=" +:+ pretty (fst r) +:+ "-" +:+ pretty (snd r)) <$> sourceRange in
  {| pr_method := "GET"; pr_url := copyUrl;
     pr_headers := [("Range"%string, HString <$> range)];
     pr_body := None; pr_responseType := Some "stream"%string;
     pr_signal := Some ControllerSignal; pr_retry := retry backend |}.

(** The request that writes the part, from the answer to the first. *)
Definition copy_put (backend : Backend) (bucketName key version uploadId : string)
    (partNumber : Z) (source : Response) : PartRequest :=
  let objectName := GCS.withOptionalVersion key (Some version) in
  let url := part_url bucketName objectName partNumber uploadId in
  let body := rs_data source in
  let length := own_property "Content-Length" (rs_headers source) in
  {| pr_method := "PUT"; pr_url := url;
     pr_headers := [("Content-Length"%string, HString <$> length)];
     pr_body := Some body; pr_responseType := None; pr_signal := None;
     pr_retry := retry backend |}.

Definition uploadPartCopy (backend : Backend) (bucketName key version uploadId : string)
    (partNumber : Z) (sourceKey : string) (sourceVersion : option string)
    (sourceRange : option (Z * Z)) : list Event * result CopiedPart :=
  let get := copy_get backend bucketName sourceKey sourceVersion sourceRange in
  match request backend get with
  | Err e => ([Requested get], Err e)
  | Ok source =>
      let put := copy_put backend bucketName key version uploadId partNumber source in
      (* try { ... } catch (reason) { controller.abort(reason); throw reason } *)
      match request backend put with
      | Err reason => ([Requested get; Requested put; Aborted reason], Err reason)
      | Ok response =>
          match rs_error response with
          | Some reason => ([Requested get; Requested put; Aborted reason], Err reason)
          | None =>
              ([Requested get; Requested put],
               Ok {| cp_eTag := own_property "ETag" (rs_headers response);
                     cp_lastModified := own_property "Last-Modified" (rs_headers response) |})
          end
      end
  end.

End Multipart.

(** ** [deleteObjects]: the pool of jobs

    [deleteObjects] hands one job per key to [p-limit] and awaits the
    promises in batches.  The jobs run interleaved with the loop, so the
    function is embedded as a transition system: a state of the loop and of
    the limiter, and the events that move it.  [Main] lets the body of
    [deleteObjects] run to its next suspension or push; [Start] lets the
    limiter start the job at the head of its queue; [Settle i outcome] is
    the answer of the backend to the [deleteObject] of the [i]-th running
    job.  Every run of the JavaScript function is a run of this system. *)

Module DeleteObjects.

Definition MAX_PARALLEL_LIMIT : nat := 10.
Definition MAX_QUEUE_SIZE : nat := 1000.

Record job : Type := mkJob { job_id : nat; job_key : string }.

Inductive pc : Type :=
| Looping
| AwaitingBatch (batch : list nat)
| AwaitingAll (batch : list nat)
| Returned (r : result unit).

Record state : Type := mkState
  { (** the keys that the [for] loop has not reached *)
    todo : list string;
    next_id : nat;
    (** the promises held in [queue] *)
    queue : list nat;
    (** the jobs that the limiter has not started *)
    pending : list job;
    (** the jobs that run: their [deleteObject] request is in flight *)
    active : list job;
    (** the promises that were rejected *)
    rejected : list (nat * Error);
    main : pc }.

Inductive event : Type :=
| Main
| Start
| Settle (i : nat) (outcome : result unit).

Definition init (keys : list string) : state :=
  {| todo := keys; next_id := 0; queue := []; pending := []; active := [];
     rejected := []; main := Looping |}.

(** [promise.catch(() => {})]: a rejection becomes a fulfilment. *)
Definition catch_ignore (outcome : result unit) : result unit :=
  match outcome with
  | Ok _ => Ok tt
  | Err _ => Ok tt
  end.

Definition unsettled (s : state) : list nat := map job_id (pending s ++ active s).

Definition mem (n : nat) (l : list nat) : bool := existsb (Nat.eqb n) l.

(** [Promise.all(batch)] rejects as soon as one of its promises is
    rejected, and is fulfilled once all of them are. *)
Definition first_rejection (batch : list nat) (s : state) : option Error :=
  snd <$> List.find (fun r => mem (fst r) batch) (rejected s).

Definition all_settled (batch : list nat) (s : state) : bool :=
  forallb (fun n => negb (mem n (unsettled s))) batch.

Definition set_main (s : state) (p : pc) : state :=
  {| todo := todo s; next_id := next_id s; queue := queue s; pending := pending s;
     active := active s; rejected := rejected s; main := p |}.

Definition step_main (s : state) : option state :=
  match main s with
  | Looping =>
      match todo s with
      | key :: rest =>
          if (MAX_QUEUE_SIZE <=? length (queue s))%nat
          then (* await Promise.all(queue.splice(0)) *)
            Some {| todo := todo s; next_id := next_id s; queue := [];
                    pending := pending s; active := active s; rejected := rejected s;
                    main := AwaitingBatch (queue s) |}
          else (* queue.push(limit(...)) *)
            Some {| todo := rest; next_id := S (next_id s);
                    queue := queue s ++ [next_id s];
                    pending := pending s ++ [{| job_id := next_id s; job_key := key |}];
                    active := active s; rejected := rejected s; main := Looping |}
      | [] => Some (set_main s (AwaitingAll (queue s)))
      end
  | AwaitingBatch batch =>
      match first_rejection batch s with
      | Some e => Some (set_main s (Returned (Err e)))
      | None => if all_settled batch s then Some (set_main s Looping) else None
      end
  | AwaitingAll batch =>
      match first_rejection batch s with
      | Some e => Some (set_main s (Returned (Err e)))
      | None => if all_settled batch s then Some (set_main s (Returned (Ok tt))) else None
      end
  | Returned _ => None
  end.

(** The limiter starts a job only below its concurrency. *)
Definition step_start (s : state) : option state :=
  match pending s with
  | t :: rest =>
      if (length (active s) <? MAX_PARALLEL_LIMIT)%nat
      then Some {| todo := todo s; next_id := next_id s; queue := queue s;
                   pending := rest; active := active s ++ [t];
                   rejected := rejected s; main := main s |}
      else None
  | [] => None
  end.

Definition step_settle (i : nat) (outcome : result unit) (s : state) : option state :=
  match active s !! i with
  | Some t =>
      Some {| todo := todo s; next_id := next_id s; queue := queue s;
              pending := pending s; active := delete i (active s);
              rejected :=
                match catch_ignore outcome with
                | Ok _ => rejected s
                | Err e => rejected s ++ [(job_id t, e)]
                end;
              main := main s |}
  | None => None
  end.

Definition step (ev : event) (s : state) : option state :=
  match ev with
  | Main => step_main s
  | Start => step_start s
  | Settle i outcome => step_settle i outcome s
  end.

Fixpoint run (evs : list event) (s : state) : option state :=
  match evs with
  | [] => Some s
  | ev :: evs' =>
      match step ev s with
      | Some s' => run evs' s'
      | None => None
      end
  end.

(** The keys whose [deleteObject] request is in flight. *)
Definition in_flight (s : state) : list string := map job_key (active s).

(** The promises on which the body of [deleteObjects] depends: those of
    [queue] while it loops, those of the batch while it awaits one. *)
Definition tracked (s : state) : list nat :=
  match main s with
  | Looping => queue s
  | AwaitingBatch batch => batch
  | AwaitingAll batch => batch
  | Returned _ => []
  end.

(** The invariant of the runs. *)
Definition inv (s : state) : Prop :=
  (length (active s) <= MAX_PARALLEL_LIMIT)%nat /\
  rejected s = [] /\
  (length (queue s) <= MAX_QUEUE_SIZE)%nat /\
  (length (tracked s) <= MAX_QUEUE_SIZE)%nat /\
  incl (unsettled s) (tracked s) /\
  (length (unsettled s) <= length (tracked s))%nat /\
  (forall batch, main s = AwaitingBatch batch -> queue s = []) /\
  (forall r, main s = Returned r -> r = Ok tt).

Definition weight (s : state) : nat :=
  match main s with
  | Looping => if (MAX_QUEUE_SIZE <=? length (queue s))%nat then 4 else 2
  | AwaitingBatch _ => 3
  | AwaitingAll _ => 1
  | Returned _ => 0
  end.

(** A bound on the number of events that a state can still take. *)
Definition measure (s : state) : nat :=
  5 * length (todo s) + 2 * length (pending s) + length (active s) + weight s.

(** The keys of the jobs that the limiter starts during a run, in the
    order in which it starts them: the keys for which [deleteObject] is
    called. *)
Fixpoint starts (evs : list event) (s : state) : list string :=
  match evs with
  | [] => []
  | ev :: evs' =>
      match step ev s with
      | Some s' =>
          match ev, pending s with
          | Start, t :: _ => job_key t :: starts evs' s'
          | _, _ => starts evs' s'
          end
      | None => []
      end
  end.

(** The number of [deleteObject] calls that were answered during a run. *)
Definition settles (evs : list event) : nat :=
  length (List.filter (fun ev => match ev with Settle _ _ => true | _ => false end) evs).

(** The body awaits all the promises only when the loop has no key left,
    and it has returned only when nothing waits and nothing runs. *)
Definition finished (s : state) : Prop :=
  (forall batch, main s = AwaitingAll batch -> todo s = []) /\
  (forall r, main s = Returned r -> todo s = [] /\ pending s = [] /\ active s = []).

End DeleteObjects.

(** ** The tenant connection of [src/internal/database/connection.ts] *)

Module Tenant.

(** The values that the module reads from [getConfig()]. *)
Record Config : Type := mkConfig
  { isMultitenant : bool;
    databaseSSLRootCert : option string;
    databaseMaxConnections : Z;
    databaseFreePoolAfterInactivity : Z;
    databaseConnectionTimeout : Z;
    dbSearchPath : string;
    dbPostgresVersion : option string }.

(** Modelled from the spec: [ERRORS.InternalError], [ERRORS.DatabaseTimeout]
    and [ERRORS.DatabaseError] come from [@internal/errors], which is not
    among the sources; section 7 of the spec lists them as InternalError,
    DatabaseTimeout and DatabaseError, and the three [Storage...]
    constructors stand for them.  The other constructors are the errors of
    the packages: [PgDatabaseError] is the [DatabaseError] of [pg],
    [KnexTimeoutError] the one of [knex], [RetryTimeout] the
    [Error('RetryOperation timeout occurred')] of [retry]. *)
Inductive DbError : Type :=
| PgDatabaseError (code message : string)
| KnexTimeoutError (message : string)
| OtherError (message : string)
| RetryTimeout
| StorageInternalError (message : string)
| StorageDatabaseTimeout (cause : DbError)
| StorageDatabaseError (message : string).

Fixpoint error_message (e : DbError) : string :=
  match e with
  | PgDatabaseError _ m => m
  | KnexTimeoutError m => m
  | OtherError m => m
  | RetryTimeout => "RetryOperation timeout occurred"
  | StorageInternalError m => m
  | StorageDatabaseTimeout c => error_message c
  | StorageDatabaseError m => m
  end.

Inductive outcome (A : Type) : Type :=
| Resolved (a : A)
| Thrown (e : DbError).
Arguments Resolved {A} a.
Arguments Thrown {A} e.

Record User : Type := mkUser
  { jwt : string; payload_role : option string; payload_sub : option string }.

Record TenantConnectionOptions : Type := mkOptions
  { user : User;
    superUser : User;
    tenantId : string;
    dbUrl : string;
    isExternalPool : option bool;
    maxConnections : Z;
    method : option string;
    path : option string }.

(** The settings of a [knex] pool once [create] is done with it. *)
Record PoolSettings : Type := mkPoolSettings
  { ps_searchPath : option (list string);
    ps_min : Z;
    ps_max : Z;
    ps_acquireTimeoutMillis : Z;
    ps_idleTimeoutMillis : Z;
    ps_reapIntervalMillis : option Z;
    ps_connectionString : string;
    ps_ssl_ca : option string;
    (** the [release] listener and the replaced [release] method *)
    ps_check_on_release : bool }.

(** A [Knex] instance: [knex_id] is the identity of the object. *)
Record Knex : Type := mkKnex { knex_id : nat; knex_settings : PoolSettings }.

(** The module-level state: the [connections] cache, each entry with the
    time at which it goes stale, the pools that were destroyed, and the
    labels with which [DbActivePool.inc] was called. *)
Record World : Type := mkWorld
  { connections : gmap string (Knex * Z);
    next_knex : nat;
    destroyed : list nat;
    active_pool_incs : list bool }.

Definition empty_world : World :=
  {| connections := ∅; next_knex := 0; destroyed := []; active_pool_incs := [] |}.

Section WithConfig.
Variable cfg : Config.

(** [dbSearchPath.split(',')] *)
Fixpoint split_comma (acc : string) (s : string) : list string :=
  match s with
  | EmptyString => [Str.rev_string acc]
  | String c s' =>
      if Ascii.eqb c ","%char then Str.rev_string acc :: split_comma EmptyString s'
      else split_comma (String c acc) s'
  end.

Definition searchPath : list string :=
  List.filter (fun s => negb (String.eqb s ""))
    (["storage"; "public"; "extensions"]%string ++ split_comma EmptyString (dbSearchPath cfg)).

(** *** The [TTLCache] of pools

    [ttl] is [databaseFreePoolAfterInactivity], [updateAgeOnGet] is set and
    [dispose] destroys the pool. *)

Definition ttl : Z := databaseFreePoolAfterInactivity cfg.

(** A timer of the cache fires at time [now]: the entries that are stale
    by then are disposed of. *)
Definition purgeStale (now : Z) (w : World) : World :=
  let stale := filter (fun kv => snd (snd kv) <= now) (connections w) in
  {| connections := filter (fun kv => now < snd (snd kv)) (connections w);
     next_knex := next_knex w;
     destroyed := destroyed w ++ map (fun kv => knex_id (fst (snd kv))) (map_to_list stale);
     active_pool_incs := active_pool_incs w |}.

(** [connections.get(key)] at time [now], with [updateAgeOnGet]. *)
Definition cache_get (now : Z) (key : string) (w : World) : option Knex * World :=
  match connections w !! key with
  | Some (pool, _) =>
      (Some pool,
       {| connections := <[key := (pool, now + ttl)]> (connections w);
          next_knex := next_knex w; destroyed := destroyed w;
          active_pool_incs := active_pool_incs w |})
  | None => (None, w)
  end.

(** [connections.set(key, pool)] at time [now]; a pool that the key held
    before is disposed of. *)
Definition cache_set (now : Z) (key : string) (pool : Knex) (w : World) : World :=
  {| connections := <[key := (pool, now + ttl)]> (connections w);
     next_knex := next_knex w;
     destroyed :=
       match connections w !! key with
       | Some (old, _) =>
           if (knex_id old =? knex_id pool)%nat then destroyed w
           else destroyed w ++ [knex_id old]
       | None => destroyed w
       end;
     active_pool_incs := active_pool_incs w |}.

(** *** [TenantConnection] *)

Record TenantConnection : Type := mkTenantConnection
  { pool : Knex; options : TenantConnectionOptions; role : string }.

(** [options.user.payload.role || 'anon'] *)
Definition new_TenantConnection (pool : Knex) (options : TenantConnectionOptions)
  : TenantConnection :=
  {| pool := pool; options := options;
     role := match payload_role (user options) with
             | Some r => if String.eqb r "" then "anon"%string else r
             | None => "anon"%string
             end |}.

(** [Boolean(options.isExternalPool)] *)
Definition external (options : TenantConnectionOptions) : bool :=
  default false (isExternalPool options).

(** The constructor of the [tarn] pool, which [knex(config)] calls with
    the settings of [config.pool], tests them in this order and throws on
    the first that fails: [min] is an integer of at least 0, [max] one of
    at least 1 and not below [min], and a time that is given is a positive
    integer. *)
Definition invalid_time (name : string) (time : option Z) : option DbError :=
  match time with
  | Some t =>
      if t <=? 0 then Some (OtherError ("Tarn: invalid opt." +:+ name +:+ " " +:+ pretty t))
      else None
  | None => None
  end.

Definition tarn_rejects (settings : PoolSettings) : option DbError :=
  if ps_min settings <? 0 then Some (OtherError "Tarn: opt.min must be an integer >= 0")
  else if ps_max settings <=? 0 then Some (OtherError "Tarn: opt.max must be an integer > 0")
  else if ps_max settings <? ps_min settings
  then Some (OtherError "Tarn: opt.max is smaller than opt.min")
  else
    match invalid_time "acquireTimeoutMillis" (Some (ps_acquireTimeoutMillis settings)) with
    | Some e => Some e
    | None =>
        match invalid_time "idleTimeoutMillis" (Some (ps_idleTimeoutMillis settings)) with
        | Some e => Some e
        | None => invalid_time "reapIntervalMillis" (ps_reapIntervalMillis settings)
        end
    end.

(** What [knex(config)] does with the settings of the pool: it throws the
    error of [tarn], or returns an instance, which has no pool when the
    maximum is 0. *)
Inductive KnexResult : Type :=
| KnexThrows (e : DbError)
| KnexWithoutPool
| KnexWithPool.

Definition knex (settings : PoolSettings) : KnexResult :=
  if ps_max settings =? 0 then KnexWithoutPool
  else match tarn_rejects settings with
       | Some e => KnexThrows e
       | None => KnexWithPool
       end.

Definition create (options : TenantConnectionOptions) (now : Z) (w : World)
  : outcome TenantConnection * World :=
  let connectionString := dbUrl options in
  match cache_get now connectionString w with
  | (Some knexPool, w) => (Resolved (new_TenantConnection knexPool options), w)
  | (None, w) =>
      let isExternalPool := external options in
      let settings :=
        {| ps_searchPath := if isExternalPool then None else Some searchPath;
           ps_min := 0;
           ps_max := if maxConnections options =? 0 then databaseMaxConnections cfg
                     else maxConnections options;
           ps_acquireTimeoutMillis := databaseConnectionTimeout cfg;
           ps_idleTimeoutMillis :=
             if isExternalPool then 100 else databaseFreePoolAfterInactivity cfg;
           ps_reapIntervalMillis := if isExternalPool then Some 50 else None;
           ps_connectionString := connectionString;
           ps_ssl_ca := databaseSSLRootCert cfg;
           ps_check_on_release := false |} in
      let id := next_knex w in
      let counted :=
        {| connections := connections w; next_knex := S id;
           destroyed := destroyed w;
           active_pool_incs := active_pool_incs w ++ [isExternalPool] |} in
      match knex settings with
      | KnexThrows e => (Thrown e, w)
      | KnexWithoutPool =>
          (* [DbActivePool.inc] is called, then [knexPool.client.pool.on] *)
          (Thrown (OtherError "Cannot read properties of undefined (reading 'on')"), counted)
      | KnexWithPool =>
          let w := counted in
          if negb isExternalPool || negb (isMultitenant cfg)
          then
            let knexPool :=
              {| knex_id := id;
                 knex_settings :=
                   {| ps_searchPath := ps_searchPath settings;
                      ps_min := ps_min settings;
                      ps_max := ps_max settings;
                      ps_acquireTimeoutMillis := ps_acquireTimeoutMillis settings;
                      ps_idleTimeoutMillis := 0;
                      ps_reapIntervalMillis := Some 2147483647;
                      ps_connectionString := ps_connectionString settings;
                      ps_ssl_ca := ps_ssl_ca settings;
                      ps_check_on_release := true |} |} in
            (Resolved (new_TenantConnection knexPool options),
             cache_set now connectionString knexPool w)
          else
            (Resolved (new_TenantConnection {| knex_id := id; knex_settings := settings |}
                         options), w)
      end
  end.

(** *** [retry] of [async-retry]

    [attempt n] is what the [n]-th call of [pool.transaction()] does (a
    transaction object, nothing, or an error), together with the time in
    milliseconds, counted from the start of the operation, at which its
    failure is handled. *)

Record Transaction : Type := mkTransaction
  { tnx_id : nat;
    isCompleted : bool;
    executionPromise : outcome unit;
    (** [tnx.raw("SELECT set_config('search_path', ?, true)", ...)] *)
    set_search_path : string -> outcome unit;
    rollback : outcome unit }.

Definition Acquisition : Type := nat -> outcome (option Transaction) * Z.

Definition acquire_failed (attempt : Acquisition) (n : nat) (e : DbError) (elapsed : Z)
  : Prop :=
  attempt n = (Thrown e, elapsed).

(** The test of the [catch] block in the function given to [retry]. *)
Definition is_transient (e : DbError) : bool :=
  match e with
  | PgDatabaseError code message =>
      String.eqb code "08P01" && Str.includes "no more connections allowed" message
  | _ => false
  end.

Definition retries : nat := 10.
Definition maxRetryTime : Z := 3000.
Definition minTimeout : Z := 50.
Definition maxTimeout : Z := 200.

(** [RetryOperation.prototype.mainError]: the error whose message occurs
    most often, the later one on a tie. *)
Definition count_message (m : string) (errors : list DbError) : nat :=
  length (List.filter (fun e => String.eqb (error_message e) m) errors).

Fixpoint mainError_from (seen rest : list DbError) (best : option DbError) (bestCount : nat)
  : option DbError :=
  match rest with
  | [] => best
  | e :: rest' =>
      let count := S (count_message (error_message e) seen) in
      if (bestCount <=? count)%nat
      then mainError_from (seen ++ [e]) rest' (Some e) count
      else mainError_from (seen ++ [e]) rest' best bestCount
  end.

Definition mainError (errors : list DbError) : DbError :=
  default RetryTimeout (mainError_from [] errors None 0).

(** The result of [retry] and the number of calls of [pool.transaction()]
    it made.  [timeouts] is the number of delays that the operation has
    left, [n] the number of attempts made so far. *)
Fixpoint retry_from (attempt : Acquisition) (timeouts n : nat) (errors : list DbError)
  : outcome (option Transaction) * nat :=
  match attempt n with
  | (Resolved tnx, _) => (Resolved tnx, S n)
  | (Thrown e, elapsed) =>
      if is_transient e
      then (* [throw e]: the operation decides whether to try again *)
        if maxRetryTime <=? elapsed
        then (Thrown (mainError (RetryTimeout :: errors ++ [e])), S n)
        else match timeouts with
             | O => (Thrown (mainError (errors ++ [e])), S n)
             | S timeouts' => retry_from attempt timeouts' (S n) (errors ++ [e])
             end
      else (* [bail(e)] *)
        (Thrown e, S n)
  end.

Definition retry (attempt : Acquisition) : outcome (option Transaction) * nat :=
  retry_from attempt retries 0 [].

(** *** [transaction] *)

(** The [catch] block around the body of [transaction]. *)
Definition surface (e : DbError) : DbError :=
  match e with
  | KnexTimeoutError _ => StorageDatabaseTimeout e
  | _ => e
  end.

(** The body of the [try] block after [retry] has given a transaction. *)
Definition prepare (self : TenantConnection) (instance : option Knex) (tnx : Transaction)
  : outcome Transaction :=
  if negb (bool_decide (is_Some instance)) && external (options self)
  then
    if isCompleted tnx
    then match executionPromise tnx with
         | Thrown e => Thrown e
         | Resolved _ => Thrown (StorageDatabaseError "Transaction already completed")
         end
    else match set_search_path tnx (Str.join ", " searchPath) with
         | Resolved _ => Resolved tnx
         | Thrown e =>
             match rollback tnx with
             | Resolved _ => Thrown e
             | Thrown e' => Thrown e'
             end
         end
  else Resolved tnx.

(** [transaction(instance)]: [acquire] gives the behaviour of
    [pool.transaction()] on the pool it is called on.  The second component
    is the number of calls of [pool.transaction()]. *)
Definition transaction (acquire : Knex -> Acquisition) (self : TenantConnection)
    (instance : option Knex) : outcome Transaction * nat :=
  let pool := default (pool self) instance in
  match retry (acquire pool) with
  | (Resolved (Some tnx), calls) =>
      match prepare self instance tnx with
      | Resolved tnx => (Resolved tnx, calls)
      | Thrown e => (Thrown (surface e), calls)
      end
  | (Resolved None, calls) =>
      (Thrown (surface (StorageInternalError "Could not create transaction")), calls)
  | (Thrown e, calls) => (Thrown (surface e), calls)
  end.

Definition asSuperUser (self : TenantConnection) : TenantConnection :=
  let o := options self in
  new_TenantConnection (pool self)
    {| user := superUser o; superUser := superUser o; tenantId := tenantId o;
       dbUrl := dbUrl o; isExternalPool := isExternalPool o;
       maxConnections := maxConnections o; method := method o; path := path o |}.

(** [dispose()]: [pool.destroy()] when the pool is externally fronted in a
    multitenant deployment. *)
Definition dispose (self : TenantConnection) (w : World) : World :=
  if external (options self) && isMultitenant cfg
  then {| connections := connections w; next_knex := next_knex w;
          destroyed := destroyed w ++ [knex_id (pool self)];
          active_pool_incs := active_pool_incs w |}
  else w.

(** *** Histories

    What happens to the module-level state: a call of [create], a timer of
    the cache that fires, a call of [dispose] on a connection. *)
Inductive action : Type :=
| Create (options : TenantConnectionOptions) (now : Z)
| Timer (now : Z)
| Dispose (self : TenantConnection).

Definition perform (w : World) (a : action) : World :=
  match a with
  | Create options now => snd (create options now w)
  | Timer now => purgeStale now w
  | Dispose self => dispose self w
  end.

Definition history (actions : list action) : World := fold_left perform actions empty_world.

(** What the cache holds: every pool is stored under the connection string
    it connects to, it was built by an earlier [create], and no two
    connection strings share a pool. *)
Definition well_keyed (w : World) : Prop :=
  forall key p expiry,
    connections w !! key = Some (p, expiry) ->
    ps_connectionString (knex_settings p) = key /\
    (knex_id p < next_knex w)%nat /\
    (forall key' p' expiry',
        connections w !! key' = Some (p', expiry') -> knex_id p' = knex_id p -> key' = key).

End WithConfig.
End Tenant.

(** ** [createStorageBackend] of [src/storage/backend/index.ts] and the
       constructor of [GCSBackend]

    Configuration objects are plain JavaScript objects: finite maps from
    property names to values. *)

Module Backend.

Inductive StorageBackendType : Type := s3 | gcs | file.

#[warnings="-register-all"]
Inductive Value : Type :=
| VUndefined
| VNull
| VBool (b : bool)
| VNumber (n : Z)
| VString (s : string)
| VArray (items : list Value)
| VObject (properties : gmap string Value).

Definition Object : Type := gmap string Value.

(** [{ ...a, ...b }]: the properties of [b] win. *)
Definition spread (a b : Object) : Object := b ∪ a.

(** [...value] in an object literal, for a value that is an object or is
    missing: [undefined] and [null] spread to nothing. *)
Definition properties_of (value : option Value) : Object :=
  match value with
  | Some (VObject o) => o
  | _ => ∅
  end.

(** [object?.name] *)
Definition property (object : option Object) (name : string) : option Value :=
  object ≫= (fun o => o !! name).

(** [a ?? b] on a property that may be missing *)
Definition nullish (value : option Value) : bool :=
  match value with
  | None | Some VUndefined | Some VNull => true
  | Some _ => false
  end.

(** The [GoogleAuth] client of a backend: the one the caller gave, or
    [new GoogleAuth(authConfig)]. *)
Inductive Client : Type :=
| GivenClient (authClient : Value)
| NewGoogleAuth (authConfig : option Value).

Record GCSBackend : Type := mkGCSBackend
  { client : Client; retry : bool; retryConfig : Value }.

(** The constructor of [GCSBackend]; [typeof null] is ['object']. *)
Definition new_GCSBackend (options : option Object) : GCSBackend :=
  {| client :=
       if nullish (property options "authClient")
       then NewGoogleAuth (property options "authConfig")
       else GivenClient (default VUndefined (property options "authClient"));
     retry :=
       match property options "retry" with
       | Some (VBool b) => b
       | _ => true
       end;
     retryConfig :=
       match property options "retry" with
       | Some (VObject o) => VObject o
       | Some (VArray items) => VArray items
       | Some VNull => VNull
       | _ => VObject ∅
       end |}.

Inductive StorageBackendAdapter : Type :=
| IsGCSBackend (backend : GCSBackend)
| IsS3Backend (options : Object)
| IsFileBackend.

Definition cloud_platform : Value :=
  VArray [VString "https://www.googleapis.com/auth/cloud-platform"].

Section WithConfig.
(** The values that the module reads from [getConfig()]. *)
Variables storageS3Region storageS3Endpoint storageS3ForcePathStyle
  storageS3ClientTimeout : Value.

Definition createStorageBackend (storageBackendType : StorageBackendType)
    (config : option Object) : StorageBackendAdapter :=
  match storageBackendType with
  | gcs =>
      IsGCSBackend
        (new_GCSBackend
           (Some (spread
                    {[ "authConfig"%string :=
                         VObject (spread {[ "scopes"%string := cloud_platform ]}
                                    (properties_of (property config "authConfig"))) ]}
                    (default ∅ config))))
  | s3 =>
      let defaultOptions :=
        spread
          (list_to_map
             [("region"%string, storageS3Region);
              ("endpoint"%string, storageS3Endpoint);
              ("forcePathStyle"%string, storageS3ForcePathStyle);
              ("requestTimeout"%string, storageS3ClientTimeout)])
          (default ∅ config) in
      IsS3Backend defaultOptions
  | file => IsFileBackend
  end.

End WithConfig.
End Backend.

(** ** Sample inputs

    A platform, a client and a few requests on which the theorems below
    are exercised. *)

Module Sample.

Definition url : URL :=
  {| url_scheme := "https:"; url_host := "photos.storage.googleapis.com";
     url_pathname := "/cat.png"; url_searchParams := [] |}.

Definition entries : list ListEntry :=
  [ {| le_Key := TagString "old.txt"; le_LastModified := Some "2023-12-31T00:00:00.000Z"%string;
       le_Size := 3 |};
    {| le_Key := TagString "new.txt"; le_LastModified := Some "2024-01-02T00:00:00.000Z"%string;
       le_Size := 5 |} ].

(** A platform that knows two dates and the URLs that start with
    [https://]. *)
Definition platform : Platform :=
  {| toISOString := fun _ => "2024-01-02T03:04:05.678Z"%string;
     Date_parse := fun text =>
       if String.eqb text "2023-12-31T00:00:00.000Z" then Some 1703980800000
       else if String.eqb text "2024-01-02T00:00:00.000Z" then Some 1704153600000
       else None;
     Date_now := Some 1704164645678;
     sha256_hex := fun _ => "9f86d081884c7d65"%string;
     base64_to_hex := fun text => text;
     URL_parse := fun text => if String.prefix "https://" text then Some url else None;
     form_urlencode := fun params =>
       Str.join "&" (map (fun kv => fst kv +:+ "=" +:+ snd kv) params);
     Number_parse := fun _ => None;
     toUTCString := fun _ => "Tue, 02 Jan 2024 03:04:05 GMT"%string;
     parse_ListBucketResult := fun _ =>
       Some {| lbr_Contents := Some entries; lbr_NextContinuationToken := None |} |}.

Definition response : Response :=
  {| rs_status := 200; rs_headers := [("ETag"%string, "abc"%string)];
     rs_data := ""; rs_error := None |}.

Definition auth : GoogleAuth :=
  {| auth_getCredentials := Ok {| client_email := Some "svc@example.iam"%string |};
     auth_sign := fun _ _ => Ok "c2lnbmF0dXJl"%string;
     auth_request := fun _ => Ok response |}.

Definition backend : GCS.GCSBackend := {| GCS.client := auth; GCS.retry := true |}.

Definition too_long : Signer.RequestPresigningArguments :=
  {| Signer.signingDate := None; Signer.signingEndpoint := None;
     Signer.signingService := None; Signer.signingRegion := None;
     Signer.unsignableHeaders := None; Signer.signableHeaders := None;
     Signer.expiresIn := Some 604801; Signer.unhoistableHeaders := None |}.

Definition good_request : Signer.CanonicalRequest :=
  {| Signer.cr_method := "GET";
     Signer.cr_url := "https://photos.storage.googleapis.com/cat.png";
     Signer.cr_data := None; Signer.cr_headers := [] |}.

(** A request whose URL is the empty string, which [new URL] rejects. *)
Definition bad_request : Signer.CanonicalRequest :=
  {| Signer.cr_method := "GET"; Signer.cr_url := "";
     Signer.cr_data := None; Signer.cr_headers := [] |}.

(** A platform that reads the query string of one more URL: that of the
    object whose key is [cat.png?X-Goog-Expires=5]. *)
Definition query_platform : Platform :=
  {| toISOString := toISOString (Platform := platform);
     Date_parse := Date_parse (Platform := platform);
     Date_now := Date_now (Platform := platform);
     sha256_hex := sha256_hex (Platform := platform);
     base64_to_hex := base64_to_hex (Platform := platform);
     URL_parse := fun text =>
       if String.eqb text "https://photos.storage.googleapis.com/cat.png?X-Goog-Expires=5"
       then Some {| url_scheme := "https:"; url_host := "photos.storage.googleapis.com";
                    url_pathname := "/cat.png";
                    url_searchParams := [("X-Goog-Expires", "5")]%string |}
       else URL_parse (Platform := platform) text;
     form_urlencode := form_urlencode (Platform := platform);
     Number_parse := Number_parse (Platform := platform);
     toUTCString := toUTCString (Platform := platform);
     parse_ListBucketResult := parse_ListBucketResult (Platform := platform) |}.

(** A request with a header value that holds a line feed. *)
Definition folded_request : Signer.CanonicalRequest :=
  {| Signer.cr_method := "GET";
     Signer.cr_url := "https://photos.storage.googleapis.com/cat.png";
     Signer.cr_data := None;
     Signer.cr_headers :=
       [("X-Goog-Meta-Note"%string, String "a" (String "010" (String "b" EmptyString)))] |}.

Definition list_options : GCS.ListOptions :=
  {| GCS.lo_prefix := None; GCS.lo_delimiter := None; GCS.lo_nextToken := None;
     GCS.lo_startAfter := None; GCS.lo_beforeDate := Some (Some 1704067200000) |}.

Definition keys : list string := ["a"; "b"]%string.

Definition events : list DeleteObjects.event :=
  [DeleteObjects.Main; DeleteObjects.Main; DeleteObjects.Start; DeleteObjects.Start;
   DeleteObjects.Settle 1 (Err (Rejected "503")); DeleteObjects.Main;
   DeleteObjects.Settle 0 (Ok tt); DeleteObjects.Main].

Definition config (multitenant : bool) : Tenant.Config :=
  {| Tenant.isMultitenant := multitenant;
     Tenant.databaseSSLRootCert := None;
     Tenant.databaseMaxConnections := 20;
     Tenant.databaseFreePoolAfterInactivity := 60000;
     Tenant.databaseConnectionTimeout := 3000;
     Tenant.dbSearchPath := "";
     Tenant.dbPostgresVersion := None |}.

Definition user : Tenant.User :=
  {| Tenant.jwt := "jwt"; Tenant.payload_role := Some "authenticated"%string;
     Tenant.payload_sub := None |}.

Definition options (external : option bool) : Tenant.TenantConnectionOptions :=
  {| Tenant.user := user; Tenant.superUser := user; Tenant.tenantId := "tenant";
     Tenant.dbUrl := "postgres://db/tenant"; Tenant.isExternalPool := external;
     Tenant.maxConnections := 0; Tenant.method := None; Tenant.path := None |}.

(** Options that ask for a pool of at most -1 connections. *)
Definition negative_max : Tenant.TenantConnectionOptions :=
  {| Tenant.user := user; Tenant.superUser := user; Tenant.tenantId := "tenant";
     Tenant.dbUrl := "postgres://db/tenant"; Tenant.isExternalPool := None;
     Tenant.maxConnections := -1; Tenant.method := None; Tenant.path := None |}.

Definition settings : Tenant.PoolSettings :=
  {| Tenant.ps_searchPath := None; Tenant.ps_min := 0; Tenant.ps_max := 20;
     Tenant.ps_acquireTimeoutMillis := 3000; Tenant.ps_idleTimeoutMillis := 100;
     Tenant.ps_reapIntervalMillis := Some 50;
     Tenant.ps_connectionString := "postgres://db/tenant";
     Tenant.ps_ssl_ca := None; Tenant.ps_check_on_release := false |}.

Definition knex : Tenant.Knex := {| Tenant.knex_id := 7; Tenant.knex_settings := settings |}.

Definition connection : Tenant.TenantConnection :=
  Tenant.new_TenantConnection knex (options (Some true)).

Definition too_many : Tenant.DbError :=
  Tenant.PgDatabaseError "08P01" "no more connections allowed (max_client_conn)".

(** Two transient failures, then a timeout of the pool. *)
Definition flaky : Tenant.Knex -> Tenant.Acquisition :=
  fun _ n =>
    match n with
    | 0%nat => (Tenant.Thrown too_many, 40)
    | 1%nat => (Tenant.Thrown too_many, 130)
    | _ => (Tenant.Thrown (Tenant.KnexTimeoutError "Knex: Timeout acquiring a connection"), 3200)
    end.

(** A transaction object that is completed at once; its execution promise
    is rejected with the error of the connection. *)
Definition completed : Tenant.Transaction :=
  {| Tenant.tnx_id := 1; Tenant.isCompleted := true;
     Tenant.executionPromise := Tenant.Thrown (Tenant.OtherError "connect ECONNREFUSED");
     Tenant.set_search_path := fun _ => Tenant.Resolved tt;
     Tenant.rollback := Tenant.Resolved tt |}.

Definition refused : Tenant.Knex -> Tenant.Acquisition :=
  fun _ _ => (Tenant.Resolved (Some completed), 5).

(** A request with two headers of its own. *)
Definition put_request : Signer.CanonicalRequest :=
  {| Signer.cr_method := "PUT";
     Signer.cr_url := "https://photos.storage.googleapis.com/cat.png";
     Signer.cr_data := None;
     Signer.cr_headers := [("Content-Type", "image/png"); ("X-Goog-Meta-Owner", "me")]%string |}.

Definition dated (date : Date) : Signer.RequestPresigningArguments :=
  {| Signer.signingDate := Some date; Signer.signingEndpoint := None;
     Signer.signingService := None; Signer.signingRegion := None;
     Signer.unsignableHeaders := None; Signer.signableHeaders := None;
     Signer.expiresIn := None; Signer.unhoistableHeaders := None |}.

Definition two_headers : Headers.t := [("x-a", "1"); ("x-b", "2")]%string.

(** A platform whose parser finds a listing without entries in the
    document [<ListBucketResult/>] and no listing in any other. *)
Definition bare_platform : Platform :=
  {| toISOString := toISOString (Platform := platform);
     Date_parse := fun _ => None;
     Date_now := Date_now (Platform := platform);
     sha256_hex := sha256_hex (Platform := platform);
     base64_to_hex := base64_to_hex (Platform := platform);
     URL_parse := URL_parse (Platform := platform);
     form_urlencode := form_urlencode (Platform := platform);
     Number_parse := Number_parse (Platform := platform);
     toUTCString := toUTCString (Platform := platform);
     parse_ListBucketResult := fun text =>
       if String.eqb text "<ListBucketResult/>"
       then Some {| lbr_Contents := None; lbr_NextContinuationToken := None |}
       else None |}.

Definition bare_response : Response :=
  {| rs_status := 200; rs_headers := []; rs_data := "<ListBucketResult/>"; rs_error := None |}.

Definition bare_backend : GCS.GCSBackend :=
  {| GCS.client :=
       {| auth_getCredentials := auth_getCredentials auth;
          auth_sign := auth_sign auth;
          auth_request := fun _ => Ok bare_response |};
     GCS.retry := true |}.

(** A backend that answers every request with [503] and an error in the
    body. *)
Definition unavailable : Response :=
  {| rs_status := 503; rs_headers := []; rs_data := "";
     rs_error := Some (Rejected "Service Unavailable") |}.

Definition failing_backend : GCS.GCSBackend :=
  {| GCS.client :=
       {| auth_getCredentials := auth_getCredentials auth;
          auth_sign := auth_sign auth;
          auth_request := fun _ => Ok unavailable |};
     GCS.retry := true |}.

(** A client that lets the source be read and refuses the part. *)
Definition read_only : Multipart.Backend :=
  {| Multipart.request := fun r =>
       if String.eqb (Multipart.pr_method r) "GET"
       then Ok {| rs_status := 200; rs_headers := [("Content-Length", "4")]%string;
                  rs_data := "data"; rs_error := None |}
       else Err (Rejected "403");
     Multipart.retry := true |}.

Definition prefixed : GCS.ListOptions :=
  {| GCS.lo_prefix := Some "folder/"%string; GCS.lo_delimiter := None;
     GCS.lo_nextToken := None; GCS.lo_startAfter := None; GCS.lo_beforeDate := None |}.

(** The entry of an object whose key is [123]. *)
Definition numbered : ListEntry :=
  {| le_Key := TagNumber 123; le_LastModified := None; le_Size := 7 |}.

Definition before_invalid : GCS.ListOptions :=
  {| GCS.lo_prefix := None; GCS.lo_delimiter := None; GCS.lo_nextToken := None;
     GCS.lo_startAfter := None; GCS.lo_beforeDate := Some None |}.

(** A transaction whose search path cannot be set and whose rollback
    fails too. *)
Definition stuck : Tenant.Transaction :=
  {| Tenant.tnx_id := 2; Tenant.isCompleted := false;
     Tenant.executionPromise := Tenant.Resolved tt;
     Tenant.set_search_path := fun _ => Tenant.Thrown (Tenant.OtherError "read ECONNRESET");
     Tenant.rollback := Tenant.Thrown (Tenant.OtherError "rollback failed") |}.

Definition hands_stuck : Tenant.Knex -> Tenant.Acquisition :=
  fun _ _ => (Tenant.Resolved (Some stuck), 5).

(** The pool has no connection to give, whenever it is asked. *)
Definition exhausted : Tenant.Knex -> Tenant.Acquisition :=
  fun _ n => (Tenant.Thrown too_many, 60 * Z.of_nat n).

Definition gcs_config : Backend.Object :=
  {[ "authConfig"%string :=
       Backend.VObject {[ "projectId"%string := Backend.VString "photos-prod" ]} ]}.

End Sample.
(** * Theorems *)

(** ** Bit-level reasoning on bytes *)

Lemma byte_eq_bits (a b : Z) :
  0 <= a < 256 -> 0 <= b < 256 ->
  (forall n, 0 <= n < 8 -> Z.testbit a n = Z.testbit b n) -> a = b.
Proof.
  intros Ha Hb Hbits. apply Z.bits_inj'. intros n Hn.
  destruct (Z.lt_ge_cases n 8) as [Hlt | Hge].
  - apply Hbits. lia.
  - rewrite <- (Z.mod_small a (2 ^ 8)), <- (Z.mod_small b (2 ^ 8)) by (simpl; lia).
    rewrite !Z.mod_pow2_bits_high by lia. reflexivity.
Qed.


Example base32_encode_foobar :
  base32.encode [102; 111; 111; 98; 97; 114] = "MZXW6YTBOI======"%string.
Proof. vm_compute. reflexivity. Qed.

Example base32_decode_foobar :
  base32.decode "MZXW6YTBOI======" = [102; 111; 111; 98; 97; 114].
Proof. vm_compute. reflexivity. Qed.

Example base32_decode_skips_foreign :
  base32.decode "MZ XW-6Y" = [102; 111; 111; 96; 0].
Proof. vm_compute. reflexivity. Qed.

(** ** base32: the loops and their summaries *)

Section base32_loops.
Import base32.

Lemma enc_quintets_nil fuel k : enc_quintets fuel [] k = [].
Proof. destruct fuel; reflexivity. Qed.

Lemma byteAt_drop (buffer : list Z) (i : nat) :
  byteAt buffer i = default 0 (head (drop i buffer)).
Proof. unfold byteAt. rewrite head_lookup, lookup_drop, Nat.add_0_r. reflexivity. Qed.

Lemma encode_loop_quintets fuel buffer st :
  enc_result (encode_loop fuel buffer st) =
  write_chars (enc_j st)
    (map (charCodeAt alphabet) (enc_quintets fuel (drop (enc_i st) buffer) (enc_k st)))
    (enc_result st).
Proof.
  revert st. induction fuel as [| fuel IH]; intros st; [reflexivity |].
  cbn [encode_loop]. destruct (Nat.ltb_spec (enc_i st) (length buffer)) as [Hlt | Hge].
  - destruct (lookup_lt_is_Some_2 buffer (enc_i st) Hlt) as [b Hb].
    rewrite IH. rewrite (drop_S _ _ _ Hb). cbn [enc_quintets].
    unfold encode_body. rewrite !byteAt_drop, Nat.add_1_r.
    rewrite (drop_S _ _ _ Hb). cbn [head default].
    destruct (_ <? 0); cbn [enc_i enc_j enc_k enc_result fst snd map write_chars];
      [rewrite (drop_S _ _ _ Hb) |]; reflexivity.
  - rewrite drop_ge by lia. rewrite enc_quintets_nil. reflexivity.
Qed.

Lemma land_mask_quintet (e : Z) : quintet (Z.land e mask).
Proof.
  unfold quintet, mask. change 31 with (Z.ones 5). rewrite Z.land_ones by lia.
  apply Z.mod_pos_bound. reflexivity.
Qed.

Lemma quintet_cases (x : Z) :
  quintet x -> In x (map Z.of_nat (seq 0 32)).
Proof.
  intros [H0 H1]. apply in_map_iff. exists (Z.to_nat x). split; [lia |].
  apply in_seq. lia.
Qed.

Lemma fromCharCode_charCodeAt (x : Z) :
  quintet x -> fromCharCode (charCodeAt alphabet x) = x.
Proof.
  intros Hx. apply quintet_cases in Hx.
  assert (Hall : forallb (fun y => fromCharCode (charCodeAt alphabet y) =? y)
                   (map Z.of_nat (seq 0 32)) = true) by (vm_compute; reflexivity).
  rewrite forallb_forall in Hall. apply Z.eqb_eq, Hall, Hx.
Qed.

Lemma charCodeAt_not_padding (x : Z) :
  quintet x -> Ascii.eqb (charCodeAt alphabet x) padding = false.
Proof.
  intros Hx. apply quintet_cases in Hx.
  assert (Hall : forallb (fun y => negb (Ascii.eqb (charCodeAt alphabet y) padding))
                   (map Z.of_nat (seq 0 32)) = true) by (vm_compute; reflexivity).
  rewrite forallb_forall in Hall. apply negb_true_iff, Hall, Hx.
Qed.

Lemma or_assign_take result j v : take j (or_assign result j v) = take j result.
Proof. unfold or_assign. apply take_insert_ge. lia. Qed.

Lemma or_assign_drop result j v :
  drop j (or_assign result j v) = or_head (drop j result) v.
Proof.
  unfold or_assign. revert j. induction result as [| r result IH]; intros [| j];
    try reflexivity.
  cbn. apply IH.
Qed.

Lemma decode_loop_quintets xs :
  Forall quintet xs ->
  forall fuel st,
    dec_result (decode_loop fuel (map (charCodeAt alphabet) xs) st) =
    take (dec_j st) (dec_result st) ++
    dec_quintets fuel (drop (dec_i st) xs) (dec_k st) (drop (dec_j st) (dec_result st)).
Proof.
  intros Hxs. induction fuel as [| fuel IH]; intros st.
  - cbn. symmetry. apply take_drop.
  - cbn [decode_loop]. rewrite length_map.
    destruct (Nat.ltb_spec (dec_i st) (length xs)) as [Hlt | Hge].
    + destruct (lookup_lt_is_Some_2 xs (dec_i st) Hlt) as [x Hx].
      assert (Hq : quintet x) by (eapply Forall_lookup_1; eauto).
      rewrite IH. unfold decode_body.
      rewrite (nth_lookup_Some _ _ _ (charCodeAt alphabet x))
        by (rewrite list_lookup_fmap, Hx; reflexivity).
      rewrite (fromCharCode_charCodeAt _ Hq).
      destruct (Z.eqb_spec x (-1)) as [-> | _]; [unfold quintet in Hq; lia |].
      rewrite (drop_S _ _ _ Hx). cbn [dec_quintets].
      destruct (dec_k st <? 3); cbn [dec_i dec_j dec_k dec_result].
      * rewrite or_assign_take, or_assign_drop. reflexivity.
      * rewrite (drop_S _ _ _ Hx).
        unfold or_assign at 2. rewrite drop_insert_lt by lia.
        destruct (dec_result st !! dec_j st) as [r |] eqn:Hr.
        -- rewrite (drop_S _ _ _ Hr). cbn [or_head].
           erewrite take_S_r.
           2:{ unfold or_assign. apply list_lookup_insert_eq. eapply lookup_lt_Some, Hr. }
           rewrite or_assign_take, Hr, <- app_assoc. reflexivity.
        -- apply lookup_ge_None in Hr.
           unfold or_assign. rewrite list_insert_ge by lia.
           rewrite (take_ge _ (S (dec_j st))), (take_ge _ (dec_j st)) by lia.
           rewrite (drop_ge _ (S (dec_j st))), (drop_ge _ (dec_j st)) by lia.
           reflexivity.
    + rewrite drop_ge by lia. destruct fuel; cbn; symmetry; apply take_drop.
Qed.

End base32_loops.

(** ** base32: five bytes, eight letters *)

Lemma byte_high_bit (b n : Z) : is_byte b -> 8 <= n -> Z.testbit b n = false.
Proof.
  intros Hb Hn. rewrite <- (Z.mod_small b (2 ^ 8)) by (unfold is_byte in Hb; simpl; lia).
  apply Z.mod_pow2_bits_high. lia.
Qed.

Lemma list_ind5 {A : Type} (P : list A -> Prop) :
  P [] -> (forall a, P [a]) -> (forall a b, P [a; b]) ->
  (forall a b c, P [a; b; c]) -> (forall a b c d, P [a; b; c; d]) ->
  (forall a b c d e l, P l -> P (a :: b :: c :: d :: e :: l)) ->
  forall l, P l.
Proof.
  intros H0 H1 H2 H3 H4 H5 l.
  induction l as [l IH] using (induction_ltof1 _ (@length A)). unfold ltof in IH.
  destruct l as [| a [| b [| c [| d [| e l]]]]]; auto.
  apply H5, IH. cbn. lia.
Qed.

(** Normalise [Z.testbit] of a bitwise expression at a literal index. *)
Ltac testbit_push :=
  repeat first
    [ rewrite Z.mod_pow2_bits_low by lia
    | rewrite Z.lor_spec
    | rewrite Z.land_spec
    | rewrite Z.bits_0
    | match goal with
      | |- context [Z.testbit (Z.shiftl ?a ?n) ?m] => rewrite (Z.shiftl_spec a n m) by lia
      | |- context [Z.testbit (Z.shiftr ?a ?n) ?m] => rewrite (Z.shiftr_spec a n m) by lia
      | |- context [Z.testbit ?a ?m] => rewrite (Z.testbit_neg_r a m) by lia
      end ];
  repeat match goal with
    | |- context [Z.testbit _ ?i] =>
        lazymatch i with
        | Z0 => fail | Zpos _ => fail | Zneg _ => fail
        | _ => let v := eval vm_compute in i in change i with v
        end
    end.

Ltac testbit_consts :=
  repeat match goal with
    | |- context [Z.testbit ?c ?i] =>
        lazymatch c with
        | Zpos _ => let v := eval vm_compute in (Z.testbit c i) in
                    change (Z.testbit c i) with v
        end
    end;
  rewrite ?Z.testbit_neg_r by lia;
  repeat match goal with
    | H : is_byte ?b |- context [Z.testbit ?b ?i] =>
        rewrite (byte_high_bit b i H) by lia
    end.

Ltac testbit_atoms :=
  repeat match goal with
    | |- context [Z.testbit ?b ?i] => destruct (Z.testbit b i)
    end;
  reflexivity.

Ltac byte_bits :=
  apply byte_eq_bits;
  [ change 256 with (2 ^ 8); apply Z.mod_pos_bound; reflexivity
  | first [assumption | unfold is_byte; lia]
  | let n := fresh "n" in
    let Hn := fresh "Hn" in
    intros n Hn;
    assert (n = 0 \/ n = 1 \/ n = 2 \/ n = 3 \/ n = 4 \/ n = 5 \/ n = 6 \/ n = 7)
      as [-> | [-> | [-> | [-> | [-> | [-> | [-> | ->]]]]]]] by lia;
    change 256 with (2 ^ 8); unfold base32.mask; testbit_push; testbit_consts; testbit_atoms ].


Ltac burn f H := destruct f as [| f]; [cbn in H; lia |].

Section base32_chunks.
Import base32.

Lemma enc_quintets_hold fuel b bs k k' :
  k' = (if 5 <=? k + 5 then k + 5 - 8 else k + 5) -> k' < 0 ->
  enc_quintets (S fuel) (b :: bs) k =
  Z.land (Z.lor 0 (Z.lor (Z.shiftr b (- k')) (Z.shiftl (default 0 (head bs)) (8 + k')))) mask
    :: enc_quintets fuel (b :: bs) k'.
Proof. intros -> Hk. cbn [enc_quintets]. apply Z.ltb_lt in Hk. rewrite Hk. reflexivity. Qed.

Lemma enc_quintets_advance fuel b bs k k' :
  k' = (if 5 <=? k + 5 then k + 5 - 8 else k + 5) -> 0 <= k' ->
  enc_quintets (S fuel) (b :: bs) k =
  Z.land (Z.lor 0 (Z.lor (Z.shiftl b k') (Z.shiftr (default 0 (head bs)) (8 - k')))) mask
    :: enc_quintets fuel bs k'.
Proof. intros -> Hk. cbn [enc_quintets]. apply Z.ltb_ge in Hk. rewrite Hk. reflexivity. Qed.

Lemma dec_quintets_nil fuel k rs : dec_quintets fuel [] k rs = rs.
Proof. destruct fuel; reflexivity. Qed.

Lemma dec_quintets_shift fuel x xs k k' rs :
  k' = k + 5 -> k < 3 ->
  dec_quintets (S fuel) (x :: xs) k rs =
  dec_quintets fuel xs k' (or_head rs (Z.shiftl x (3 - k))).
Proof. intros -> Hk. cbn [dec_quintets]. apply Z.ltb_lt in Hk. rewrite Hk. reflexivity. Qed.

Lemma dec_quintets_emit fuel x xs k k' r rs :
  k' = k - 8 -> 3 <= k ->
  dec_quintets (S fuel) (x :: xs) k (r :: rs) =
  (Z.lor r (Z.shiftr x (k - 3))) mod 256 :: dec_quintets fuel (x :: xs) k' rs.
Proof. intros -> Hk. cbn [dec_quintets or_head]. apply Z.ltb_ge in Hk. rewrite Hk. reflexivity. Qed.

Lemma dec_quintets_emit_nil fuel x xs k k' :
  k' = k - 8 -> 3 <= k ->
  dec_quintets (S fuel) (x :: xs) k [] = dec_quintets fuel (x :: xs) k' [].
Proof. intros -> Hk. cbn [dec_quintets or_head]. apply Z.ltb_ge in Hk. rewrite Hk. reflexivity. Qed.

Lemma or_head_zeros n v :
  v mod 256 = 0 -> or_head (replicate n 0) v = replicate n 0.
Proof.
  intros Hv. destruct n; [reflexivity |].
  cbn [replicate or_head]. rewrite Z.lor_0_l, Hv. reflexivity.
Qed.

Lemma shiftl_8_mod (x : Z) : (Z.shiftl x 8) mod 256 = 0.
Proof. rewrite Z.shiftl_mul_pow2 by lia. apply Z.mod_mul. discriminate. Qed.

End base32_chunks.

(** One iteration of a loop summary at a literal [k]. *)
Ltac enc_step :=
  match goal with
  | |- context [base32.enc_quintets (S ?f) (?b :: ?bs) ?k] =>
      let k' := eval vm_compute in (if 5 <=? k + 5 then k + 5 - 8 else k + 5) in
      first [ rewrite (enc_quintets_hold f b bs k k') by (first [reflexivity | lia])
            | rewrite (enc_quintets_advance f b bs k k') by (first [reflexivity | lia]) ]
  end.

Tactic Notation "enc_steps" integer(n) :=
  match goal with
  | |- context [base32.enc_quintets ?f ?bs 0] =>
      let E := fresh "E" in
      eassert (E : base32.enc_quintets f bs 0 = _);
      [ do n enc_step; reflexivity | rewrite E in *; clear E ]
  end.

Ltac dec_step :=
  match goal with
  | |- context [base32.dec_quintets (S ?f) (?x :: ?xs) ?k ?rs] =>
      first
        [ let k' := eval vm_compute in (k + 5) in
          rewrite (dec_quintets_shift f x xs k k' rs) by (first [reflexivity | lia])
        | let k' := eval vm_compute in (k - 8) in
          first [ rewrite (dec_quintets_emit f x xs k k') by (first [reflexivity | lia])
                | rewrite (dec_quintets_emit_nil f x xs k k') by (first [reflexivity | lia]) ] ]
  end;
  cbn [base32.or_head].

Ltac split_bytes :=
  repeat match goal with
    | H : Forall is_byte (_ :: _) |- _ =>
        let Hb := fresh "Hb" in
        apply Forall_cons in H; destruct H as [Hb H]
    end.

Section base32_roundtrip.
Import base32.

Lemma head_is_byte (bs : list Z) : Forall is_byte bs -> is_byte (default 0 (head bs)).
Proof. intros [| b bs' Hb _]; [unfold is_byte; cbn; lia | exact Hb]. Qed.

Lemma quintets_roundtrip (buffer : list Z) :
  Forall is_byte buffer ->
  forall fe fd e,
    (2 * length buffer <= fe)%nat ->
    (2 * length (enc_quintets fe buffer 0) <= fd)%nat ->
    dec_quintets fd (enc_quintets fe buffer 0) 0 (replicate (length buffer + e) 0)
      = buffer ++ replicate e 0
    /\ length (enc_quintets fe buffer 0) = ((8 * length buffer + 4) / 5)%nat.
Proof.
  induction buffer as [| b0 | b0 b1 | b0 b1 b2 | b0 b1 b2 b3 | b0 b1 b2 b3 b4 rest IH]
    using list_ind5; intros Hbytes fe fd e Hfe Hfd; split_bytes.
  - rewrite enc_quintets_nil. split; [destruct fd; reflexivity | reflexivity].
  - do 2 burn fe Hfe. enc_steps 2. rewrite enc_quintets_nil in *.
    cbn [length] in Hfd. do 3 burn fd Hfd.
    cbn [length Nat.add replicate head default from_option id].
    do 3 dec_step. rewrite dec_quintets_nil. rewrite or_head_zeros by byte_bits.
    split; [| reflexivity]. cbn [app]. repeat f_equal; byte_bits.
  - do 4 burn fe Hfe. enc_steps 4. rewrite enc_quintets_nil in *.
    cbn [length] in Hfd. do 6 burn fd Hfd.
    cbn [length Nat.add replicate head default from_option id].
    do 6 dec_step. rewrite dec_quintets_nil. rewrite or_head_zeros by byte_bits.
    split; [| reflexivity]. cbn [app]. repeat f_equal; byte_bits.
  - do 5 burn fe Hfe. enc_steps 5. rewrite enc_quintets_nil in *.
    cbn [length] in Hfd. do 8 burn fd Hfd.
    cbn [length Nat.add replicate head default from_option id].
    do 8 dec_step. rewrite dec_quintets_nil. rewrite or_head_zeros by byte_bits.
    split; [| reflexivity]. cbn [app]. repeat f_equal; byte_bits.
  - do 7 burn fe Hfe. enc_steps 7. rewrite enc_quintets_nil in *.
    cbn [length] in Hfd. do 11 burn fd Hfd.
    cbn [length Nat.add replicate head default from_option id].
    do 11 dec_step. rewrite dec_quintets_nil. rewrite or_head_zeros by byte_bits.
    split; [| reflexivity]. cbn [app]. repeat f_equal; byte_bits.
  - pose proof (head_is_byte rest Hbytes) as Hb5.
    do 8 burn fe Hfe. enc_steps 8.
    set (b5 := default 0 (head rest)) in *. clearbody b5.
    cbn [length] in Hfd, Hfe. do 13 burn fd Hfd.
    cbn [length Nat.add replicate head default from_option id].
    do 13 dec_step. rewrite or_head_zeros by apply shiftl_8_mod.
    destruct (IH Hbytes fe fd e) as [IH1 IH2]; [lia | lia |].
    rewrite IH1, IH2. split.
    + cbn [app]. repeat f_equal; byte_bits.
    + cbn [length].
      replace (8 * S (S (S (S (S (length rest))))) + 4)%nat
        with (8 * length rest + 4 + 8 * 5)%nat by lia.
      rewrite Nat.div_add by lia. lia.
Qed.

End base32_roundtrip.

(** ** base32: the loops leave through their exit, and the round trip *)

Section base32_theorems.
Import base32.

Lemma encode_loop_exits_from buffer fuel st :
  -3 <= enc_k st <= 4 ->
  (2 * (length buffer - enc_i st) + (if (enc_k st <? 0)%Z then 0 else 1) <= fuel)%nat ->
  (length buffer <= enc_i (encode_loop fuel buffer st))%nat.
Proof.
  revert st. induction fuel as [| fuel IH]; intros st Hk Hfuel.
  - cbn. destruct (enc_k st <? 0); lia.
  - cbn [encode_loop]. destruct (Nat.ltb_spec (enc_i st) (length buffer)) as [Hlt | Hge];
      [| exact Hge].
    apply IH; unfold encode_body; cbn [enc_k enc_i].
    + destruct (Z.leb_spec 5 (enc_k st + 5)); lia.
    + destruct (Z.leb_spec 5 (enc_k st + 5)) as [H5 | H5];
        destruct (Z.ltb_spec (enc_k st) 0) as [Hneg | Hpos]; try lia.
      * destruct (Z.ltb_spec (enc_k st + 5 - 8) 0); cbn [fst snd]; lia.
      * destruct (Z.ltb_spec (enc_k st + 5) 0); cbn [fst snd]; lia.
Qed.

Lemma encode_loop_exits (buffer : list Z) :
  (length buffer <=
   enc_i (encode_loop (encode_fuel buffer) buffer (encode_init buffer)))%nat.
Proof.
  apply encode_loop_exits_from; unfold encode_init, encode_fuel; cbn [enc_k enc_i]; [lia |].
  change (0 <? 0) with false. cbv iota. lia.
Qed.

Lemma decode_loop_exits_from text fuel st :
  dec_k st < 8 ->
  (2 * (length text - dec_i st) + (if (dec_k st <? 3)%Z then 0 else 1) <= fuel)%nat ->
  (length text <= dec_i (decode_loop fuel text st))%nat.
Proof.
  revert st. induction fuel as [| fuel IH]; intros st Hk Hfuel.
  - cbn. destruct (dec_k st <? 3); lia.
  - cbn [decode_loop]. destruct (Nat.ltb_spec (dec_i st) (length text)) as [Hlt | Hge];
      [| exact Hge].
    unfold decode_body.
    destruct (_ =? -1); [| destruct (Z.ltb_spec (dec_k st) 3) as [Hlo | Hhi]];
      apply IH; cbn [dec_k dec_i]; try lia.
    + destruct (dec_k st + 5 <? 3); lia.
    + destruct (Z.ltb_spec (dec_k st - 8) 3); lia.
Qed.

Lemma decode_loop_exits (text : list ascii) :
  (length text <=
   dec_i (decode_loop (decode_fuel text) text (decode_init text)))%nat.
Proof.
  apply decode_loop_exits_from; unfold decode_init, decode_fuel; cbn [dec_k dec_i]; [lia |].
  change (0 <? 3) with true. cbv iota. lia.
Qed.

Lemma write_chars_padding (pre cs : list ascii) (m : nat) :
  (length cs <= m)%nat ->
  write_chars (length pre) cs (pre ++ replicate m padding) =
  pre ++ cs ++ replicate (m - length cs) padding.
Proof.
  revert pre m. induction cs as [| c cs IH]; intros pre m Hm.
  - cbn. rewrite Nat.sub_0_r. reflexivity.
  - cbn [write_chars length] in *. destruct m as [| m]; [lia |].
    replace (<[length pre := c]> (pre ++ replicate (S m) padding))
      with ((pre ++ [c]) ++ replicate m padding).
    + replace (S (length pre)) with (length (pre ++ [c])) by (rewrite length_app; cbn; lia).
      rewrite IH by lia. rewrite <- app_assoc. reflexivity.
    + replace (length pre) with (length pre + 0)%nat by lia.
      rewrite insert_app_r, <- app_assoc. reflexivity.
Qed.

Lemma strip_padding_replicate (p : nat) : strip_padding (replicate p padding) = [].
Proof. induction p as [| p IH]; [reflexivity |]. cbn [replicate strip_padding]. rewrite IH. reflexivity. Qed.

Lemma strip_padding_letters (qs : list Z) (p : nat) :
  Forall quintet qs ->
  strip_padding (map (charCodeAt alphabet) qs ++ replicate p padding) =
  map (charCodeAt alphabet) qs.
Proof.
  induction 1 as [| q qs Hq Hqs IH]; [apply strip_padding_replicate |].
  cbn [map app strip_padding]. rewrite IH.
  destruct qs; cbn [map]; [rewrite (charCodeAt_not_padding _ Hq) |]; reflexivity.
Qed.

Lemma enc_quintets_quintet fuel bs k : Forall quintet (enc_quintets fuel bs k).
Proof.
  revert bs k. induction fuel as [| fuel IH]; intros [| b bs] k; cbn [enc_quintets];
    try constructor.
  destruct (_ <? 0); constructor; auto using land_mask_quintet.
Qed.

Lemma letters_fit (n : nat) : ((8 * n + 4) / 5 <= encoded_length n)%nat.
Proof.
  unfold encoded_length.
  pose proof (Nat.div_mod_eq (8 * n + 4) 5). pose proof (Nat.mod_upper_bound (8 * n + 4) 5).
  pose proof (Nat.div_mod_eq (n + 4) 5). pose proof (Nat.mod_upper_bound (n + 4) 5).
  lia.
Qed.

Lemma decoded_length_letters (n : nat) : decoded_length ((8 * n + 4) / 5) = n.
Proof.
  unfold decoded_length.
  pose proof (Nat.div_mod_eq (8 * n + 4) 5). pose proof (Nat.mod_upper_bound (8 * n + 4) 5).
  symmetry. apply (Nat.div_unique _ 8 n ((8 * n + 4) / 5 * 5 - 8 * n)); lia.
Qed.

Lemma letters_length (buffer : list Z) :
  Forall is_byte buffer ->
  length (enc_quintets (encode_fuel buffer) buffer 0) = ((8 * length buffer + 4) / 5)%nat.
Proof.
  intros Hbytes.
  apply (quintets_roundtrip buffer Hbytes (encode_fuel buffer)
           (2 * length (enc_quintets (encode_fuel buffer) buffer 0)) 0);
    unfold encode_fuel; lia.
Qed.

(** The text that [encode] returns: the letters of the quintets, then the
    padding that fills the buffer allocated at the start. *)
Lemma encode_letters (buffer : list Z) :
  Forall is_byte buffer ->
  let qs := enc_quintets (encode_fuel buffer) buffer 0 in
  list_ascii_of_string (encode buffer) =
  map (charCodeAt alphabet) qs ++
  replicate (encoded_length (length buffer) - length qs) padding.
Proof.
  intros Hbytes qs. unfold encode. rewrite list_ascii_of_string_of_list_ascii.
  rewrite encode_loop_quintets. cbn [encode_init enc_i enc_j enc_k enc_result drop].
  fold qs.
  pose proof (write_chars_padding [] (map (charCodeAt alphabet) qs)
                (encoded_length (length buffer))) as Hw.
  cbn [length app] in Hw. rewrite length_map in Hw. apply Hw.
  subst qs. rewrite (letters_length _ Hbytes). apply letters_fit.
Qed.

Lemma string_of_list_ascii_length (l : list ascii) :
  String.length (string_of_list_ascii l) = length l.
Proof. induction l as [| c l IH]; [reflexivity |]. cbn. rewrite IH. reflexivity. Qed.

Lemma charCodeAt_in_alphabet (x : Z) : quintet x -> In (charCodeAt alphabet x) alphabet.
Proof.
  intros Hx. apply quintet_cases in Hx.
  assert (Hall : forallb (fun y => existsb (Ascii.eqb (charCodeAt alphabet y)) alphabet)
                   (map Z.of_nat (seq 0 32)) = true) by (vm_compute; reflexivity).
  rewrite forallb_forall in Hall. specialize (Hall x Hx).
  apply existsb_exists in Hall as [c [Hc Heq]]. apply Ascii.eqb_eq in Heq. congruence.
Qed.

(** C10. For every byte buffer [b], [base32.decode (base32.encode b)] is
    [b].  The text that [encode] returns has [8 * ceil (length b / 5)]
    characters: letters of the alphabet, then nothing but [=]. *)
Theorem base32_decode_encode (b : list Z) :
  Forall is_byte b ->
  decode (encode b) = b /\
  String.length (encode b) = (8 * ((length b + 4) / 5))%nat /\
  exists letters p,
    list_ascii_of_string (encode b) = letters ++ replicate p padding /\
    Forall (fun c => In c alphabet) letters.
Proof.
  intros Hbytes.
  pose proof (encode_letters b Hbytes) as Hletters. cbn zeta in Hletters.
  pose proof (letters_length b Hbytes) as Hlen.
  pose proof (letters_fit (length b)) as Hfit.
  set (qs := enc_quintets (encode_fuel b) b 0) in *.
  assert (Hqs : Forall quintet qs) by apply enc_quintets_quintet.
  split; [| split].
  - unfold decode. rewrite Hletters, (strip_padding_letters _ _ Hqs).
    rewrite (decode_loop_quintets qs Hqs).
    unfold decode_init, decode_fuel. cbn [dec_i dec_j dec_k dec_result drop take app].
    rewrite length_map, Hlen, decoded_length_letters.
    rewrite <- Hlen. fold qs.
    destruct (quintets_roundtrip b Hbytes (encode_fuel b) (S (2 * length qs)) 0)
      as [Hrt _]; [unfold encode_fuel; lia | fold qs; lia |].
    fold qs in Hrt. rewrite Nat.add_0_r in Hrt.
    rewrite take_0, !drop_0, Hrt. apply app_nil_r.
  - rewrite <- (string_of_list_ascii_of_string (encode b)), Hletters.
    rewrite string_of_list_ascii_length, length_app, length_map, length_replicate.
    unfold encoded_length in *. lia.
  - eexists _, _. split; [exact Hletters |].
    apply List.Forall_forall. intros c Hc. apply in_map_iff in Hc as [x [<- Hx]].
    apply charCodeAt_in_alphabet. rewrite List.Forall_forall in Hqs. exact (Hqs x Hx).
Qed.

Lemma base32_decode_encode_witness :
  Forall is_byte [222; 173; 190; 239; 0; 255] /\
  decode (encode [222; 173; 190; 239; 0; 255]) = [222; 173; 190; 239; 0; 255].
Proof.
  assert (Hbytes : Forall is_byte [222; 173; 190; 239; 0; 255])
    by (repeat constructor; unfold is_byte; lia).
  split; [exact Hbytes |].
  exact (proj1 (base32_decode_encode [222; 173; 190; 239; 0; 255] Hbytes)).
Defined.

End base32_theorems.

(** ** The GCS backend: [copyObject] *)

Lemma string_length_append (s1 s2 : string) :
  String.length (s1 +:+ s2) = (String.length s1 + String.length s2)%nat.
Proof.
  induction s1 as [| c s1 IH]; [reflexivity |].
  change (S (String.length (s1 +:+ s2)) = S (String.length s1 + String.length s2)).
  rewrite IH. reflexivity.
Qed.

Lemma string_not_own_suffix (prefix s : string) : s <> prefix +:+ "/" +:+ s.
Proof.
  intros Heq. apply (f_equal String.length) in Heq.
  rewrite !string_length_append in Heq. cbn in Heq. lia.
Qed.

Section gcs_copy.
Context `{Platform}.
Import GCS.

Lemma metadata_directive_REPLACE_iff bucketName source version destination destinationVersion :
  metadata_directive bucketName source version destination destinationVersion = REPLACE <->
  withOptionalVersion destination destinationVersion =
  bucketName +:+ "/" +:+ withOptionalVersion source version.
Proof.
  unfold metadata_directive, copy_source.
  destruct (String.eqb_spec (withOptionalVersion destination destinationVersion)
              (bucketName +:+ "/" +:+ withOptionalVersion source version)) as [Heq | Hne];
    cbn; split; intros; congruence.
Qed.

(** C1. A copy whose source and destination key (with their optional
    versions) are identical is sent with the metadata directive [COPY], for
    every bucket: the destination name is compared with the source name
    prefixed by the bucket, so the directive is [REPLACE] exactly when the
    destination name is the bucket name, a slash and the source name. *)
Theorem copyObject_same_key_sends_COPY
    (backend : GCSBackend) (bucketName key : string) (version : option string)
    (metadata : option CopyMetadata) (conditions : option CopyConditions) :
  metadata_directive bucketName key version key version = COPY /\
  calls_of (copyObject backend bucketName key version key version metadata conditions) =
    [CallRequest (copy_request backend bucketName key version key version metadata conditions)] /\
  In ("X-Goog-Metadata-Directive"%string, Some "COPY"%string)
     (rq_headers (copy_request backend bucketName key version key version
                    metadata conditions)) /\
  (forall source sourceVersion destination destinationVersion,
      metadata_directive bucketName source sourceVersion destination destinationVersion
        = REPLACE <->
      withOptionalVersion destination destinationVersion =
      bucketName +:+ "/" +:+ withOptionalVersion source sourceVersion).
Proof.
  assert (Hcopy : metadata_directive bucketName key version key version = COPY).
  { destruct (metadata_directive bucketName key version key version) eqn:Hd; [reflexivity |].
    apply metadata_directive_REPLACE_iff in Hd.
    exfalso. exact (string_not_own_suffix _ _ Hd). }
  split; [exact Hcopy |]. split; [| split].
  - unfold copyObject, send, await, calls_of, bind, lift.
    destruct (auth_request _ _) as [response | e]; [| reflexivity].
    destruct (rs_error response); [reflexivity |].
    cbn. destruct (buildMetadata response); reflexivity.
  - unfold copy_request. cbn [rq_headers]. rewrite Hcopy. cbn. tauto.
  - intros. apply metadata_directive_REPLACE_iff.
Qed.

End gcs_copy.

(** ** The GCS backend: [list] *)

Section gcs_list.
Context `{Platform}.
Import GCS.

Lemma send_ok backend request response :
  auth_request (client backend) request = Ok response ->
  rs_error response = None ->
  send backend request = ([CallRequest request], Ok response).
Proof. intros Hr He. unfold send, await, bind. rewrite Hr, He. reflexivity. Qed.

Lemma send_inv backend request response :
  outcome (send backend request) = Ok response ->
  auth_request (client backend) request = Ok response /\ rs_error response = None.
Proof.
  unfold send, await, bind, outcome.
  destruct (auth_request _ _) as [r | e]; cbn; [| discriminate].
  destruct (rs_error r) eqn:He; cbn; [discriminate |].
  intros [= <-]. auto.
Qed.

(** [entries.map(f)] returns exactly when [f] returns on every entry, and
    then with the results in the order of the entries. *)
Lemma map_entries_ok {A B : Type} (f : A -> result B) (entries : Datatypes.list A)
    (bs : Datatypes.list B) :
  map_entries f entries = Ok bs <-> Forall2 (fun a b => f a = Ok b) entries bs.
Proof.
  revert bs. induction entries as [| a entries IH]; intros bs; cbn [map_entries].
  - split; [intros [= <-]; constructor | intros Hall; inversion Hall; reflexivity].
  - split.
    + destruct (f a) as [b | e] eqn:Ha; [| discriminate].
      destruct (map_entries f entries) as [bs' | e]; [| discriminate].
      intros [= <-]. constructor; [exact Ha | apply IH; reflexivity].
    + intros Hall. inversion Hall as [| a' b entries' bs' Ha Hrest]; subst.
      rewrite Ha. apply IH in Hrest. rewrite Hrest. reflexivity.
Qed.

Lemma map_entries_total {A B : Type} (f : A -> result B) (entries : Datatypes.list A) :
  Forall (fun a => exists b, f a = Ok b) entries ->
  exists bs, map_entries f entries = Ok bs.
Proof.
  induction 1 as [| a entries [b Hb] _ [bs Hbs]]; cbn [map_entries]; [eauto |].
  rewrite Hb, Hbs. eauto.
Qed.

Lemma list_page backend bucketName options response data contents :
  auth_request (client backend) (list_request backend bucketName options) = Ok response ->
  rs_error response = None ->
  parse_ListBucketResult (rs_data response) = Some data ->
  lbr_Contents data = Some contents ->
  list backend bucketName options =
    ([CallRequest (list_request backend bucketName options)],
     match map_entries (list_entry options) (List.filter (list_keep options) contents) with
     | Ok keys => Ok {| lp_keys := keys; lp_nextToken := lbr_NextContinuationToken data |}
     | Err e => Err e
     end).
Proof.
  intros Hr He Hp Hc. unfold list. rewrite (send_ok _ _ _ Hr He). unfold bind, lift, ret.
  rewrite Hp, Hc. destruct (map_entries _ _); reflexivity.
Qed.

(** C7. When [beforeDate] is supplied, the page that [list] returns is made
    of the entries that pass [list_keep], one key for each of them and in
    their order, and an entry with a modification time passes exactly when
    that time is strictly before [beforeDate]: an entry modified on or
    after [beforeDate] is excluded, an entry modified strictly before it is
    retained.  [list] does return the page when no prefix is asked for, or
    when the keys of the entries that pass are strings. *)
Theorem list_beforeDate_excludes
    (backend : GCSBackend) (bucketName : string) (options : option ListOptions)
    (beforeDate : Z) :
  list_beforeDate options = Some (Some beforeDate) ->
  (forall response data contents,
      auth_request (client backend) (list_request backend bucketName options) = Ok response ->
      rs_error response = None ->
      parse_ListBucketResult (rs_data response) = Some data ->
      lbr_Contents data = Some contents ->
      outcome (list backend bucketName options) =
        match map_entries (list_entry options) (List.filter (list_keep options) contents) with
        | Ok keys => Ok {| lp_keys := keys; lp_nextToken := lbr_NextContinuationToken data |}
        | Err e => Err e
        end /\
      (forall page,
          outcome (list backend bucketName options) = Ok page ->
          Forall2 (fun object key => list_entry options object = Ok key)
            (List.filter (list_keep options) contents) (lp_keys page) /\
          lp_nextToken page = lbr_NextContinuationToken data) /\
      (list_prefix options = None \/
       Forall (fun object => exists key, le_Key object = TagString key)
         (List.filter (list_keep options) contents) ->
       exists page, outcome (list backend bucketName options) = Ok page)) /\
  (forall object modified time,
      le_LastModified object = Some modified -> modified <> ""%string ->
      Date_parse modified = Some time ->
      (beforeDate <= time -> list_keep options object = false) /\
      (time < beforeDate -> list_keep options object = true)).
Proof.
  intros Hbefore. split.
  - intros response data contents Hr He Hp Hc.
    rewrite (list_page _ _ _ _ _ _ Hr He Hp Hc). unfold outcome. cbn [snd].
    split; [reflexivity |]. split.
    + intros page.
      destruct (map_entries _ _) as [keys | e] eqn:Hkeys; [| discriminate].
      intros [= <-]. cbn [lp_keys lp_nextToken]. split; [| reflexivity].
      apply map_entries_ok. exact Hkeys.
    + intros Hstrings.
      destruct (map_entries_total (list_entry options)
                  (List.filter (list_keep options) contents)) as [keys ->]; [| eauto].
      unfold list_entry. destruct Hstrings as [-> | Hstrings].
      * apply List.Forall_forall. intros object _. eauto.
      * eapply List.Forall_impl; [| exact Hstrings]. cbn. intros object [key ->].
        destruct (list_prefix options); eauto.
  - intros object modified time Hm Hne Ht. unfold list_keep. rewrite Hm, Hbefore.
    apply String.eqb_neq in Hne. rewrite Hne, Ht. cbn [Date_lt].
    split; intros Hcmp; [apply Z.ltb_ge | apply Z.ltb_lt]; exact Hcmp.
Qed.

End gcs_list.

(** ** The GCS backend: [buildMetadata] *)

Section headers_lemmas.

Lemma find_put_same name value h : Headers.find (Headers.put name value h) name = Some value.
Proof.
  induction h as [| [n v] h IH]; cbn.
  - rewrite String.eqb_refl. reflexivity.
  - destruct (String.eqb_spec n name) as [-> | Hne]; cbn.
    + rewrite String.eqb_refl. reflexivity.
    + destruct (String.ltb name n); cbn.
      * rewrite String.eqb_refl. reflexivity.
      * apply String.eqb_neq in Hne. rewrite Hne. exact IH.
Qed.

Lemma find_put_other name value h other :
  name <> other -> Headers.find (Headers.put name value h) other = Headers.find h other.
Proof.
  intros Hother. apply String.eqb_neq in Hother.
  induction h as [| [n v] h IH]; cbn.
  - rewrite Hother. reflexivity.
  - destruct (String.eqb_spec n name) as [-> | Hne]; cbn.
    + rewrite Hother. reflexivity.
    + destruct (String.ltb name n); cbn.
      * rewrite Hother. reflexivity.
      * destruct (String.eqb n other); [reflexivity | exact IH].
Qed.

Lemma find_append_other h name value other :
  Str.lower name <> other ->
  Headers.find (Headers.append h name value) other = Headers.find h other.
Proof.
  intros Hother. unfold Headers.append, Headers.set.
  destruct (Headers.get h name); apply find_put_other; exact Hother.
Qed.

Lemma find_append_same h name value :
  exists v, Headers.find (Headers.append h name value) (Str.lower name) = Some v.
Proof.
  unfold Headers.append, Headers.set.
  destruct (Headers.get h name); eexists; apply find_put_same.
Qed.

(** A name that no entry of [init] spells, in any case, is absent from
    [new Headers(init)]. *)
Lemma find_of_list_absent (init : list (string * string)) (h : Headers.t) (lname : string) :
  Headers.find h lname = None ->
  forallb (fun kv => negb (String.eqb (Str.lower (fst kv)) lname)) init = true ->
  Headers.find (fold_left (fun h p => Headers.append h (fst p) (snd p)) init h) lname = None.
Proof.
  revert h. induction init as [| [n v] init IH]; intros h Hh Hall; [exact Hh |].
  cbn in Hall. apply andb_true_iff in Hall as [Hn Hall].
  cbn [fold_left]. apply IH; [| exact Hall].
  rewrite find_append_other; [exact Hh |].
  apply negb_true_iff, String.eqb_neq in Hn. exact Hn.
Qed.

(** What [new Headers(init)] gives when it returns, and when it does. *)
Lemma fill_accepts (init : list (string * string)) (h : Headers.t) :
  acceptable init = true ->
  Headers.fill init h =
  Ok (fold_left (fun h p => Headers.append h (fst p) (snd p)) (normalized_entries init) h).
Proof.
  revert h. induction init as [| [name value] init IH]; intros h Hok; [reflexivity |].
  cbn [acceptable forallb fst snd] in Hok.
  apply andb_true_iff in Hok as [Hentry Hok]. apply andb_true_iff in Hentry as [Hname Hvalue].
  cbn [Headers.fill normalized_entries map fold_left fst snd]. rewrite Hname, Hvalue.
  cbn [negb]. apply IH. exact Hok.
Qed.

Lemma fill_rejects (init : list (string * string)) (h : Headers.t) :
  acceptable init = false -> exists message, Headers.fill init h = Err (TypeError message).
Proof.
  revert h. induction init as [| [name value] init IH]; intros h; [discriminate |].
  cbn [acceptable forallb fst snd Headers.fill].
  destruct (Headers.name_ok name); cbn [negb andb]; [| eauto].
  destruct (Headers.value_ok (Headers.normalize value)); cbn [negb andb]; [| eauto].
  apply IH.
Qed.

Lemma new_Headers_accepts (init : list (string * string)) :
  acceptable init = true -> new_Headers init = Ok (Headers.of_list (normalized_entries init)).
Proof. intros Hok. unfold new_Headers. rewrite (fill_accepts _ _ Hok). reflexivity. Qed.

Lemma new_Headers_ok (init : list (string * string)) (h : Headers.t) :
  new_Headers init = Ok h ->
  acceptable init = true /\ h = Headers.of_list (normalized_entries init).
Proof.
  intros Hh. destruct (acceptable init) eqn:Hok.
  - rewrite (new_Headers_accepts _ Hok) in Hh. injection Hh as <-. auto.
  - destruct (fill_rejects init [] Hok) as [message Hm]. unfold new_Headers in Hh.
    rewrite Hm in Hh. discriminate.
Qed.

Lemma new_Headers_TypeError (init : list (string * string)) (e : Error) :
  new_Headers init = Err e -> acceptable init = false /\ exists message, e = TypeError message.
Proof.
  intros He. destruct (acceptable init) eqn:Hok.
  - rewrite (new_Headers_accepts _ Hok) in He. discriminate.
  - split; [reflexivity |]. destruct (fill_rejects init [] Hok) as [message Hm].
    unfold new_Headers in He. rewrite Hm in He. injection He as <-. eauto.
Qed.

End headers_lemmas.

Section gcs_metadata.
Context `{Platform}.
Import GCS.

Lemma get_absent (response : Response) (name : string) :
  carries response name = false ->
  Headers.get (Headers.of_list (normalized_entries (rs_headers response))) name = None.
Proof.
  intros Hc. unfold Headers.get, Headers.of_list.
  apply find_of_list_absent; [reflexivity |].
  unfold carries in Hc. unfold normalized_entries.
  induction (rs_headers response) as [| kv l IH]; [reflexivity |].
  cbn in Hc |- *. apply orb_false_iff in Hc as [Hkv Hl].
  rewrite Hkv, (IH Hl). reflexivity.
Qed.

Lemma buildMetadata_ok (response : Response) (m : ObjectMetadata) :
  buildMetadata response = Ok m ->
  acceptable (rs_headers response) = true /\
  m = metadata_of (Headers.of_list (normalized_entries (rs_headers response)))
        (rs_status response).
Proof.
  unfold buildMetadata. destruct (new_Headers (rs_headers response)) as [h | e] eqn:Hh;
    [| discriminate].
  apply new_Headers_ok in Hh as [Hok ->]. intros [= <-]. auto.
Qed.

Lemma buildMetadata_accepts (response : Response) :
  acceptable (rs_headers response) = true ->
  buildMetadata response =
    Ok (metadata_of (Headers.of_list (normalized_entries (rs_headers response)))
          (rs_status response)).
Proof. intros Hok. unfold buildMetadata. rewrite (new_Headers_accepts _ Hok). reflexivity. Qed.

Lemma buildMetadata_defaults (response : Response) (m : ObjectMetadata) :
  buildMetadata response = Ok m ->
  (carries response "Content-Type" = false ->
   mimetype m = "application/octet-stream"%string) /\
  (carries response "Cache-Control" = false ->
   cacheControl m = "no-cache"%string).
Proof.
  intros Hm. apply buildMetadata_ok in Hm as [_ ->].
  split; intros Hc; unfold metadata_of; cbn [mimetype cacheControl];
    rewrite (get_absent _ _ Hc); reflexivity.
Qed.

Lemma headObject_normalized backend bucketName key version m :
  outcome (headObject backend bucketName key version) = Ok m ->
  normalized (client backend) (head_request backend bucketName key version) m.
Proof.
  unfold headObject, bind, lift, outcome.
  destruct (send backend _) as [calls [response | e]] eqn:Hs; cbn; [| discriminate].
  intros Hm. exists response. split; [| exact Hm].
  apply (send_inv backend). unfold outcome. rewrite Hs. reflexivity.
Qed.

(** C8. The metadata returned by [getObject], [headObject], [uploadObject]
    and [copyObject] is [buildMetadata] of a response of the backend, and
    [buildMetadata] gives the mimetype [application/octet-stream] when the
    response carries no [Content-Type] and the cache control [no-cache]
    when it carries no [Cache-Control].  [buildMetadata] gives the metadata
    of a response exactly when [new Headers] accepts its headers, that is
    when every name is a token and no value, once the whitespace at its
    ends is gone, holds a NUL, a line feed or a carriage return. *)
Theorem metadata_is_normalized (backend : GCSBackend) (bucketName key : string)
    (version : option string) :
  (forall response m,
      buildMetadata response = Ok m ->
      (carries response "Content-Type" = false ->
       mimetype m = "application/octet-stream"%string) /\
      (carries response "Cache-Control" = false ->
       cacheControl m = "no-cache"%string)) /\
  (forall response,
      acceptable (rs_headers response) = true <-> exists m, buildMetadata response = Ok m) /\
  (forall headers r,
      outcome (getObject backend bucketName key version headers) = Ok r ->
      exists request, normalized (client backend) request (or_metadata r)) /\
  (forall m,
      outcome (headObject backend bucketName key version) = Ok m ->
      exists request, normalized (client backend) request m) /\
  (forall body contentType cacheControl m,
      outcome (uploadObject backend bucketName key version body contentType cacheControl)
        = Ok m ->
      exists request, normalized (client backend) request m) /\
  (forall destination destinationVersion metadata conditions m,
      outcome (copyObject backend bucketName key version destination destinationVersion
                 metadata conditions) = Ok m ->
      exists request, normalized (client backend) request m).
Proof.
  split; [apply buildMetadata_defaults |]. split; [| repeat split].
  - intros response. split.
    + intros Hok. rewrite (buildMetadata_accepts _ Hok). eauto.
    + intros [m Hm]. apply buildMetadata_ok in Hm. tauto.
  - intros headers r. unfold getObject, bind, lift, ret, outcome.
    destruct (send backend _) as [calls [response | e]] eqn:Hs; cbn; [| discriminate].
    destruct (buildMetadata response) as [m | e] eqn:Hm; cbn; [| discriminate].
    intros [= <-]. eexists. exists response. split; [| exact Hm].
    apply (send_inv backend). unfold outcome. rewrite Hs. reflexivity.
  - intros m Hm. eexists. apply (headObject_normalized _ _ _ _ _ Hm).
  - intros body contentType cacheControl m. unfold uploadObject, bind, outcome.
    destruct (send backend _) as [calls [response | e]]; cbn; [| discriminate].
    destruct (headObject backend bucketName key version) as [calls' [m' | e]] eqn:Hh;
      cbn; [| discriminate].
    intros [= <-]. eexists. apply headObject_normalized. unfold outcome. rewrite Hh.
    reflexivity.
  - intros destination destinationVersion metadata conditions m.
    unfold copyObject, bind, lift, outcome.
    destruct (send backend _) as [calls [response | e]] eqn:Hs; cbn; [| discriminate].
    intros Hm. eexists. exists response. split; [| exact Hm].
    apply (send_inv backend). unfold outcome. rewrite Hs. reflexivity.
Qed.

End gcs_metadata.

(** ** The request signer: query parameters *)

Lemma string_leb_refl (s : string) : String.leb s s = true.
Proof. destruct (String.leb_total s s); assumption. Qed.

Lemma filter_insert_param (name : string) (p : string * string) (ps : list (string * string)) :
  List.filter (is_param name) (insert_param p ps) =
  List.filter (is_param name) [p] ++ List.filter (is_param name) ps.
Proof.
  induction ps as [| q ps IH]; [cbn; destruct (is_param name p); reflexivity |].
  cbn [insert_param]. destruct (String.leb (fst p) (fst q)) eqn:Hle;
    [cbn; destruct (is_param name p); reflexivity |].
  cbn [List.filter] in *. rewrite IH. unfold is_param.
  destruct (String.eqb_spec (fst p) name) as [Hp | Hp];
    destruct (String.eqb_spec (fst q) name) as [Hq | Hq]; try reflexivity.
  rewrite Hp, Hq, string_leb_refl in Hle. discriminate.
Qed.

(** [searchParams.sort()] is stable: the parameters of one name keep their
    order. *)
Lemma filter_sort_params (name : string) (ps : list (string * string)) :
  List.filter (is_param name) (sort_params ps) = List.filter (is_param name) ps.
Proof.
  induction ps as [| p ps IH]; [reflexivity |].
  cbn [sort_params fold_right]. fold (sort_params ps).
  rewrite filter_insert_param, IH. cbn. destruct (is_param name p); reflexivity.
Qed.

Section signer_theorems.
Context `{Platform}.
Import Signer.

(** A request that one of the two constructors rejects: the call ends
    there, with the [TypeError] of the constructor. *)
Lemma getSignedUrl_rejected client request options e :
  new_Headers (cr_headers request) = Err e \/
  (exists headers, new_Headers (cr_headers request) = Ok headers /\
                   new_URL (cr_url request) = Err e) ->
  getSignedUrl client request options = ([], Err e) /\ exists message, e = TypeError message.
Proof.
  unfold getSignedUrl, bind, lift. intros [Hh | [headers [Hh Hu]]]; rewrite Hh.
  - split; [reflexivity |]. apply new_Headers_TypeError in Hh. tauto.
  - rewrite Hu. split; [reflexivity |]. unfold new_URL in Hu.
    destruct (URL_parse _); [discriminate |]. injection Hu as <-. eauto.
Qed.

Lemma getSignedUrl_too_long client request options :
  max_expiry < option_field options expiresIn default_expiry ->
  calls_of (getSignedUrl client request options) = [] /\
  (exists e, outcome (getSignedUrl client request options) = Err e) /\
  (forall headers url,
      new_Headers (cr_headers request) = Ok headers ->
      new_URL (cr_url request) = Ok url ->
      outcome (getSignedUrl client request options) =
        Err (RangeError "The longest expiration value is 604800 seconds (7 days)")).
Proof.
  intros Hlong. apply Z.ltb_lt in Hlong.
  unfold getSignedUrl, calls_of, outcome, bind, lift, throw.
  destruct (new_Headers (cr_headers request)) as [headers | e]; cbn.
  2:{ split; [reflexivity |]. split; [eauto |]. intros; discriminate. }
  destruct (new_URL (cr_url request)) as [url | e]; cbn.
  2:{ split; [reflexivity |]. split; [eauto |]. intros; discriminate. }
  destruct (hoist _ _ _ _) as [url1 headers1]. rewrite Hlong. cbn.
  split; [reflexivity |]. split; [eauto |]. reflexivity.
Qed.

Lemma getSignedUrl_in_range client request options headers url :
  option_field options expiresIn default_expiry <= max_expiry ->
  new_Headers (cr_headers request) = Ok headers ->
  new_URL (cr_url request) = Ok url ->
  exists calls, calls_of (getSignedUrl client request options) = CallGetCredentials :: calls.
Proof.
  intros Hok Hh Hu. apply Z.ltb_ge in Hok.
  unfold getSignedUrl, calls_of, outcome, bind, lift, throw, await.
  rewrite Hh, Hu. cbn.
  destruct (hoist _ _ _ _) as [url1 headers1]. rewrite Hok.
  destruct (auth_getCredentials client) as [credentials | e]; cbn; [| eexists; reflexivity].
  repeat match goal with
         | |- context [match ?r with Ok _ => _ | Err _ => _ end] =>
             destruct r; cbn
         end; eexists; reflexivity.
Qed.

Lemma option_endpoint (options : option RequestPresigningArguments) :
  match options with Some o => signingEndpoint o | None => None end =
  options ≫= signingEndpoint.
Proof. destruct options; reflexivity. Qed.

(** A call that returns a URL: what was signed, and what the URL is. *)
Lemma getSignedUrl_ok_inv client request options url :
  outcome (getSignedUrl client request options) = Ok url ->
  exists headers0 url0 credentials date signature,
    new_Headers (cr_headers request) = Ok headers0 /\
    new_URL (cr_url request) = Ok url0 /\
    option_field options expiresIn default_expiry <= max_expiry /\
    auth_getCredentials client = Ok credentials /\
    toISOBasicString (option_field options signingDate Date_now) = Ok date /\
    let url1 := fst (hoisted request options headers0 url0) in
    let headers := signed_headers request options headers0 url0 in
    let scope :=
      Str.join "/" [Str.slice0 8 date; option_field options signingRegion "auto"%string;
                    option_field options signingService "storage"%string;
                    "goog4_request"%string] in
    let signed :=
      sort_params
        (url_searchParams url1 ++
         [("X-Goog-Algorithm", "GOOG4-RSA-SHA256");
          ("X-Goog-Credential",
            default "undefined" (client_email credentials) +:+ "/" +:+ scope);
          ("X-Goog-Date", date);
          ("X-Goog-Expires", pretty (option_field options expiresIn default_expiry));
          ("X-Goog-SignedHeaders", Str.join ";" (Headers.keys headers))]%string) in
    let payload :=
      Str.join (String "010"%char EmptyString)
        ["GOOG4-RSA-SHA256"%string; date; scope;
         hashCanonicalRequest (cr_method request) (with_params url1 signed) headers
           (default "UNSIGNED-PAYLOAD"%string
              (Headers.get headers "X-Goog-Content-SHA256"))] in
    auth_sign client payload (options ≫= signingEndpoint) = Ok signature /\
    calls_of (getSignedUrl client request options) =
      [CallGetCredentials; CallSign payload (options ≫= signingEndpoint)] /\
    url = with_params url1 (signed ++ [("X-Goog-Signature"%string, base64_to_hex signature)]).
Proof.
  unfold getSignedUrl, outcome, calls_of, bind, lift, throw, await, ret.
  destruct (new_Headers (cr_headers request)) as [headers | e]; cbn; [| discriminate].
  destruct (new_URL (cr_url request)) as [url0 | e]; cbn; [| discriminate].
  unfold signed_headers.
  remember (hoisted request options headers url0) as hz eqn:Hhz.
  unfold hoisted in Hhz. rewrite <- Hhz. destruct hz as [url1 headers1].
  destruct (Z.ltb_spec max_expiry (option_field options expiresIn default_expiry))
    as [Hlong | Hok]; cbn; [discriminate |].
  destruct (auth_getCredentials client) as [credentials | e]; cbn; [| discriminate].
  unfold CredentialScope_toString. cbn [cs_date cs_location cs_service cs_requestType].
  destruct (toISOBasicString _) as [basic | e] eqn:Hbasic; cbn; [| discriminate].
  rewrite option_endpoint.
  destruct (auth_sign client _ _) as [signature | e] eqn:Hsign; cbn; [| discriminate].
  intros [= <-].
  exists headers, url0, credentials, basic, signature.
  split; [reflexivity |]. split; [reflexivity |]. split; [exact Hok |].
  split; [reflexivity |]. split; [reflexivity |].
  cbn zeta. unfold hoisted. rewrite <- Hhz. cbn [fst snd].
  unfold with_params, append_param in *.
  cbn [url_scheme url_host url_pathname url_searchParams] in *.
  rewrite <- !app_assoc in *. cbn [app] in *.
  split; [exact Hsign |]. split; reflexivity.
Qed.

(** A call that nothing stops does return a URL. *)
Lemma getSignedUrl_returns client request options headers url credentials now :
  new_Headers (cr_headers request) = Ok headers ->
  new_URL (cr_url request) = Ok url ->
  option_field options expiresIn default_expiry <= max_expiry ->
  auth_getCredentials client = Ok credentials ->
  option_field options signingDate Date_now = Some now ->
  (forall payload endpoint, exists signature, auth_sign client payload endpoint = Ok signature) ->
  exists signed, outcome (getSignedUrl client request options) = Ok signed.
Proof.
  intros Hh Hu Hok Hc Hnow Hsign. apply Z.ltb_ge in Hok.
  unfold getSignedUrl, outcome, bind, lift, throw, await, ret.
  rewrite Hh, Hu. destruct (hoist _ _ _ _) as [url1 headers1]. rewrite Hok, Hc.
  unfold CredentialScope_toString, toISOBasicString. cbn [cs_date]. rewrite Hnow.
  match goal with
  | |- context [auth_sign client ?p ?e] => destruct (Hsign p e) as [signature ->]
  end.
  cbn. eauto.
Qed.

Lemma getSignedUrl_expires client request options url :
  outcome (getSignedUrl client request options) = Ok url ->
  exists headers0 url0,
    new_Headers (cr_headers request) = Ok headers0 /\
    new_URL (cr_url request) = Ok url0 /\
    List.filter (is_param "X-Goog-Expires") (url_searchParams url) =
    List.filter (is_param "X-Goog-Expires")
      (url_searchParams (fst (hoisted request options headers0 url0))) ++
    [("X-Goog-Expires"%string, pretty (option_field options expiresIn default_expiry))].
Proof.
  intros Hurl.
  apply getSignedUrl_ok_inv in Hurl
    as (headers0 & url0 & credentials & date & signature & Hh & Hu & _ & _ & _ & _ & _ & ->).
  exists headers0, url0. split; [exact Hh |]. split; [exact Hu |].
  cbn [url_searchParams with_params].
  rewrite List.filter_app, filter_sort_params, !List.filter_app.
  cbn. rewrite !app_nil_r. reflexivity.
Qed.

(** C2.  Let [n] be the expiry of a call: the [expiresIn] of its options,
    or 900 when they give none.  When [n] is above 604800 the call fails
    and has called the client not once, neither [getCredentials] nor
    [sign]; its error is the [RangeError], for every request that
    [new Headers] and [new URL], the first two statements, accept.  When
    [n] is at most 604800, 604800 included, such a request passes the
    test: the call goes on to [client.getCredentials()], and when the
    client answers it returns a URL to which it has added the parameter
    [X-Goog-Expires] with the value [n], which is 900 for a call without
    [expiresIn].  A request that a constructor rejects ends the call with
    the [TypeError] of the constructor, whatever the expiry, and the client
    is not called either. *)
Theorem getSignedUrl_validates_expiry
    (client : GoogleAuth) (request : CanonicalRequest)
    (options : option RequestPresigningArguments) :
  let m := getSignedUrl client request options in
  (forall n,
      (exists o, options = Some o /\ expiresIn o = Some n) \/
      (n = 900 /\ (options = None \/ exists o, options = Some o /\ expiresIn o = None)) ->
      (604800 < n ->
       calls_of m = [] /\
       (exists e, outcome m = Err e) /\
       (forall headers url,
           new_Headers (cr_headers request) = Ok headers ->
           new_URL (cr_url request) = Ok url ->
           outcome m =
             Err (RangeError "The longest expiration value is 604800 seconds (7 days)"))) /\
      (n <= 604800 ->
       forall headers url,
         new_Headers (cr_headers request) = Ok headers ->
         new_URL (cr_url request) = Ok url ->
         (exists calls, calls_of m = CallGetCredentials :: calls) /\
         (forall credentials now,
             auth_getCredentials client = Ok credentials ->
             option_field options signingDate Date_now = Some now ->
             (forall payload endpoint, exists signature,
                   auth_sign client payload endpoint = Ok signature) ->
             exists signed,
               outcome m = Ok signed /\
               List.filter (is_param "X-Goog-Expires") (url_searchParams signed) =
               List.filter (is_param "X-Goog-Expires")
                 (url_searchParams (fst (hoisted request options headers url))) ++
               [("X-Goog-Expires"%string, pretty n)]))) /\
  (forall e,
      new_Headers (cr_headers request) = Err e \/
      (exists headers, new_Headers (cr_headers request) = Ok headers /\
                       new_URL (cr_url request) = Err e) ->
      m = ([], Err e) /\ exists message, e = TypeError message).
Proof.
  cbn zeta. split; [| apply getSignedUrl_rejected].
  intros n Hn.
  assert (Hexpiry : option_field options expiresIn default_expiry = n).
  { destruct Hn as [[o [-> Ho]] | [-> [-> | [o [-> Ho]]]]]; cbn; try rewrite Ho; reflexivity. }
  split.
  - intros Hlong. apply getSignedUrl_too_long. rewrite Hexpiry. exact Hlong.
  - intros Hok headers url Hh Hu.
    assert (Hin : option_field options expiresIn default_expiry <= max_expiry)
      by (rewrite Hexpiry; exact Hok).
    split; [exact (getSignedUrl_in_range _ _ _ _ _ Hin Hh Hu) |].
    intros credentials now Hc Hnow Hsign.
    destruct (getSignedUrl_returns _ _ _ _ _ _ _ Hh Hu Hin Hc Hnow Hsign) as [signed Hsigned].
    exists signed. split; [exact Hsigned |].
    apply getSignedUrl_expires in Hsigned as (headers0 & url0 & Hh0 & Hu0 & Hparams).
    rewrite Hh in Hh0. rewrite Hu in Hu0. injection Hh0 as <-. injection Hu0 as <-.
    rewrite Hparams, Hexpiry. reflexivity.
Qed.

End signer_theorems.

(** ** The GCS backend: [privateAssetUrl] *)

Section gcs_private_url.
Context `{Platform}.
Import GCS.

Lemma hoisted_private request (parsed : URL) :
  Signer.hoisted request (Some private_options) [] parsed =
  (parsed, [("host"%string, url_host parsed)]).
Proof.
  unfold Signer.hoisted. cbn. rewrite bool_decide_true by set_solver. reflexivity.
Qed.

Lemma signed_headers_private request (parsed : URL) :
  Signer.signed_headers request (Some private_options) [] parsed =
  [("host"%string, url_host parsed)].
Proof.
  unfold Signer.signed_headers. rewrite hoisted_private. cbn.
  rewrite bool_decide_false by set_solver. reflexivity.
Qed.

(** C9, as the code has it.  The URL that [privateAssetUrl] returns is
    signed by the client: the client was asked for its credentials and
    then, once, to sign the string made of the algorithm, the date, the
    scope and the hash of the canonical request, whose query string holds
    the parameters of the object URL together with [X-Goog-Algorithm],
    [X-Goog-Credential], [X-Goog-Date], [X-Goog-Expires], which is [600],
    and [X-Goog-SignedHeaders]; the signature is the last parameter.  The
    call passes [expiresIn: 600], so the URL has one [X-Goog-Expires]
    parameter more than the object URL, with the value [600], and that is
    its only one when the object URL has none, as it is for a key without
    a question mark.  When the client answers, the call does return a URL.
    The signer alone, without options, would have written [900]. *)
Theorem privateAssetUrl_expires_600
    (backend : GCSBackend) (bucketName key : string) (version : option string) :
  let m := privateAssetUrl backend bucketName key version in
  let text := object_url bucketName (withOptionalVersion key version) in
  (forall url,
      outcome m = Ok url ->
      exists parsed credentials date signature,
        URL_parse text = Some parsed /\
        auth_getCredentials (client backend) = Ok credentials /\
        Signer.toISOBasicString Date_now = Ok date /\
        let scope :=
          Str.join "/" [Str.slice0 8 date; "auto"; "storage"; "goog4_request"]%string in
        let signed :=
          sort_params
            (url_searchParams parsed ++
             [("X-Goog-Algorithm", "GOOG4-RSA-SHA256");
              ("X-Goog-Credential",
                default "undefined" (client_email credentials) +:+ "/" +:+ scope);
              ("X-Goog-Date", date);
              ("X-Goog-Expires", "600");
              ("X-Goog-SignedHeaders", "host")]%string) in
        let payload :=
          Str.join (String "010"%char EmptyString)
            ["GOOG4-RSA-SHA256"%string; date; scope;
             Signer.hashCanonicalRequest "GET" (with_params parsed signed)
               [("host"%string, url_host parsed)] "UNSIGNED-PAYLOAD"] in
        calls_of m = [CallGetCredentials; CallSign payload None] /\
        auth_sign (client backend) payload None = Ok signature /\
        url = with_params parsed
                (signed ++ [("X-Goog-Signature"%string, base64_to_hex signature)]) /\
        List.filter (is_param "X-Goog-Expires") (url_searchParams url) =
          List.filter (is_param "X-Goog-Expires") (url_searchParams parsed) ++
          [("X-Goog-Expires"%string, "600"%string)] /\
        (List.filter (is_param "X-Goog-Expires") (url_searchParams parsed) = [] ->
         List.filter (is_param "X-Goog-Expires") (url_searchParams url) =
           [("X-Goog-Expires"%string, "600"%string)])) /\
  (forall parsed credentials now,
      URL_parse text = Some parsed ->
      auth_getCredentials (client backend) = Ok credentials ->
      Date_now = Some now ->
      (forall payload endpoint, exists signature,
            auth_sign (client backend) payload endpoint = Ok signature) ->
      exists url, outcome m = Ok url) /\
  (forall url,
      outcome (Signer.getSignedUrl (client backend)
                 {| Signer.cr_method := "GET"; Signer.cr_url := text;
                    Signer.cr_data := None; Signer.cr_headers := [] |} None) = Ok url ->
      exists parsed,
        URL_parse text = Some parsed /\
        List.filter (is_param "X-Goog-Expires") (url_searchParams url) =
          List.filter (is_param "X-Goog-Expires") (url_searchParams parsed) ++
          [("X-Goog-Expires"%string, "900"%string)]).
Proof.
  cbn zeta. split; [| split].
  - intros url Hurl. unfold privateAssetUrl in Hurl.
    pose proof (getSignedUrl_expires _ _ _ _ Hurl) as (h0 & u0 & Hh0 & Hu0 & Hparams).
    apply getSignedUrl_ok_inv in Hurl
      as (headers0 & url0 & credentials & date & signature &
          Hh & Hu & _ & Hc & Hdate & Hsign & Hcalls & Heq).
    cbn [Signer.cr_headers Signer.cr_url Signer.cr_method] in *.
    injection Hh as <-. injection Hh0 as <-.
    unfold new_URL in Hu, Hu0.
    destruct (URL_parse _) as [parsed |] eqn:Hparse; [| discriminate].
    injection Hu as <-. injection Hu0 as <-.
    rewrite signed_headers_private, hoisted_private in *. cbn [fst] in *.
    exists parsed, credentials, date, signature.
    split; [reflexivity |]. split; [exact Hc |]. split; [exact Hdate |].
    cbn zeta. split; [exact Hcalls |]. split; [exact Hsign |]. split; [exact Heq |].
    split; [exact Hparams |]. intros Hnone. rewrite Hparams, Hnone. reflexivity.
  - intros parsed credentials now Hparse Hc Hnow Hsign.
    unfold privateAssetUrl.
    apply (getSignedUrl_returns _ _ _ [] parsed credentials now);
      [reflexivity | | | exact Hc | exact Hnow | exact Hsign].
    + unfold new_URL. cbn [Signer.cr_url]. rewrite Hparse. reflexivity.
    + vm_compute. discriminate.
  - intros url Hurl.
    apply getSignedUrl_expires in Hurl as (h0 & u0 & Hh0 & Hu0 & Hparams).
    cbn [Signer.cr_headers Signer.cr_url] in *. injection Hh0 as <-.
    unfold new_URL in Hu0.
    destruct (URL_parse _) as [parsed |] eqn:Hparse; [| discriminate].
    injection Hu0 as <-. exists parsed. split; [reflexivity |].
    rewrite Hparams. reflexivity.
Qed.

End gcs_private_url.

(** ** [deleteObjects]: bounds, progress and termination *)

Section delete_objects.
Import DeleteObjects.

Lemma mem_true (n : nat) (l : list nat) : mem n l = true <-> In n l.
Proof.
  unfold mem. rewrite existsb_exists. split.
  - intros [x [Hin Heq]]. apply Nat.eqb_eq in Heq. subst. exact Hin.
  - intros Hin. exists n. split; [exact Hin | apply Nat.eqb_refl].
Qed.

Lemma all_settled_nil (batch : list nat) (s : state) :
  all_settled batch s = true -> incl (unsettled s) batch -> unsettled s = [].
Proof.
  unfold all_settled. intros Hall Hincl.
  destruct (unsettled s) as [| n l] eqn:Hu; [reflexivity |]. exfalso.
  rewrite forallb_forall in Hall.
  specialize (Hall n (Hincl n (or_introl eq_refl))).
  apply negb_true_iff in Hall.
  assert (Hmem : mem n (n :: l) = true) by (apply mem_true; left; reflexivity).
  congruence.
Qed.

Lemma all_settled_of_nil (batch : list nat) (s : state) :
  unsettled s = [] -> all_settled batch s = true.
Proof.
  unfold all_settled. intros ->. apply forallb_forall. intros; reflexivity.
Qed.

Lemma unsettled_nil (s : state) : unsettled s = [] -> pending s = [] /\ active s = [].
Proof.
  unfold unsettled. intros Hu. apply map_eq_nil in Hu. apply app_eq_nil in Hu. exact Hu.
Qed.

Lemma catch_ignore_ok (outcome : result unit) : catch_ignore outcome = Ok tt.
Proof. destruct outcome; reflexivity. Qed.

Lemma length_unsettled (s : state) :
  length (unsettled s) = (length (pending s) + length (active s))%nat.
Proof. unfold unsettled. rewrite length_map, length_app. reflexivity. Qed.

Lemma incl_delete (A : Type) (i : nat) (l : list A) : incl (delete i l) l.
Proof.
  revert i. induction l as [| x l IH]; intros [| i]; cbn; try apply incl_refl.
  - apply incl_tl, incl_refl.
  - apply incl_cons; [left; reflexivity | apply incl_tl, IH].
Qed.

Lemma first_rejection_none (batch : list nat) (s : state) :
  rejected s = [] -> first_rejection batch s = None.
Proof. unfold first_rejection. intros ->. reflexivity. Qed.

(** What holds in every state that a run reaches. *)
Lemma inv_init (keys : list string) : inv (init keys).
Proof.
  unfold inv, init, tracked, unsettled, MAX_PARALLEL_LIMIT, MAX_QUEUE_SIZE; cbn.
  repeat split; try lia; try apply incl_refl; intros; discriminate.
Qed.

Lemma inv_step (ev : event) (s s' : state) : inv s -> step ev s = Some s' -> inv s'.
Proof.
  intros (Hact & Hrej & Hq & Ht & Hincl & Hlen & Hbatch & Hret) Hstep.
  unfold tracked in Ht, Hincl, Hlen. rewrite length_unsettled in Hlen.
  unfold MAX_PARALLEL_LIMIT, MAX_QUEUE_SIZE in *.
  destruct ev as [| | i outcome]; cbn [step] in Hstep.
  - unfold step_main in Hstep. destruct (main s) as [| batch | batch | r] eqn:Hmain.
    + destruct (todo s) as [| key rest].
      * injection Hstep as <-.
        unfold inv, tracked, MAX_PARALLEL_LIMIT, MAX_QUEUE_SIZE;
          rewrite length_unsettled; unfold unsettled; cbn.
        repeat split; auto; intros; discriminate.
      * unfold MAX_QUEUE_SIZE in Hstep.
        destruct (Nat.leb_spec 1000 (length (queue s))) as [Hfull | Hroom];
          injection Hstep as <-;
          unfold inv, tracked, MAX_PARALLEL_LIMIT, MAX_QUEUE_SIZE;
          rewrite length_unsettled; unfold unsettled; cbn.
        -- repeat split; auto; try lia; intros; discriminate.
        -- rewrite !length_app. cbn [length].
           repeat split; auto; try lia; try (intros; discriminate).
           intros n Hn. rewrite !map_app in Hn. cbn [map] in Hn.
           rewrite !in_app_iff in Hn. apply in_or_app.
           destruct Hn as [[Hn | Hn] | Hn].
           ++ left. apply Hincl. unfold unsettled. rewrite map_app.
              apply in_or_app. left. exact Hn.
           ++ right. exact Hn.
           ++ left. apply Hincl. unfold unsettled. rewrite map_app.
              apply in_or_app. right. exact Hn.
    + rewrite (first_rejection_none _ _ Hrej) in Hstep.
      destruct (all_settled batch s) eqn:Hall; [| discriminate].
      injection Hstep as <-. pose proof (all_settled_nil _ _ Hall Hincl) as Hnil.
      apply unsettled_nil in Hnil as [Hp Ha].
      unfold inv, tracked, MAX_PARALLEL_LIMIT, MAX_QUEUE_SIZE;
          rewrite length_unsettled; unfold unsettled; cbn.
      rewrite (Hbatch batch eq_refl), Hp, Ha. cbn.
      repeat split; auto; try lia; try (intros; discriminate). apply incl_nil_l.
    + rewrite (first_rejection_none _ _ Hrej) in Hstep.
      destruct (all_settled batch s) eqn:Hall; [| discriminate].
      injection Hstep as <-. pose proof (all_settled_nil _ _ Hall Hincl) as Hnil.
      apply unsettled_nil in Hnil as [Hp Ha].
      unfold inv, tracked, MAX_PARALLEL_LIMIT, MAX_QUEUE_SIZE;
          rewrite length_unsettled; unfold unsettled; cbn.
      rewrite Hp, Ha. cbn.
      repeat split; auto; try lia; try (intros; discriminate).
      * apply incl_nil_l.
      * intros r [= <-]. reflexivity.
    + discriminate.
  - unfold step_start in Hstep. destruct (pending s) as [| t rest] eqn:Hp; [discriminate |].
    unfold MAX_PARALLEL_LIMIT in Hstep.
    destruct (Nat.ltb_spec (length (active s)) 10) as [Hlt | Hge]; [| discriminate].
    injection Hstep as <-.
    unfold inv, tracked, MAX_PARALLEL_LIMIT, MAX_QUEUE_SIZE;
          rewrite length_unsettled; unfold unsettled; cbn.
    rewrite !length_app. cbn [length] in *.
    repeat split; auto; try lia.
    intros n Hn. apply Hincl. unfold unsettled. rewrite Hp.
    rewrite !map_app in *. cbn [map] in *. rewrite !in_app_iff in Hn. cbn in Hn.
    cbn. rewrite in_app_iff. tauto.
  - unfold step_settle in Hstep. destruct (active s !! i) as [t |] eqn:Hi; [| discriminate].
    injection Hstep as <-. rewrite catch_ignore_ok.
    assert (Hdel : length (delete i (active s)) = (length (active s) - 1)%nat).
    { apply length_delete. eauto. }
    apply lookup_lt_Some in Hi.
    unfold inv, tracked, MAX_PARALLEL_LIMIT, MAX_QUEUE_SIZE;
          rewrite length_unsettled; unfold unsettled; cbn.
    repeat split; auto; try lia.
    intros n Hn. apply Hincl. unfold unsettled. rewrite map_app in *.
    rewrite in_app_iff in *. destruct Hn as [Hn | Hn]; [left; exact Hn | right].
    apply in_map_iff in Hn as [x [<- Hx]]. apply in_map.
    exact (incl_delete _ _ _ _ Hx).
Qed.

Lemma inv_run (evs : list event) (s s' : state) : inv s -> run evs s = Some s' -> inv s'.
Proof.
  revert s. induction evs as [| ev evs IH]; intros s Hinv Hrun; cbn in Hrun.
  - injection Hrun as <-. exact Hinv.
  - destruct (step ev s) as [s1 |] eqn:Hstep; [| discriminate].
    exact (IH s1 (inv_step _ _ _ Hinv Hstep) Hrun).
Qed.

(** Every event makes the measure smaller. *)
Lemma measure_step (ev : event) (s s' : state) :
  inv s -> step ev s = Some s' -> (measure s' < measure s)%nat.
Proof.
  intros (Hact & Hrej & Hq & Ht & Hincl & Hlen & Hbatch & Hret) Hstep.
  destruct ev as [| | i outcome]; cbn [step] in Hstep.
  - unfold step_main in Hstep. destruct (main s) as [| batch | batch | r] eqn:Hmain.
    + destruct (todo s) as [| key rest] eqn:Htodo.
      * injection Hstep as <-. unfold measure, weight, set_main.
        cbn [todo pending active main queue length]. rewrite Hmain, Htodo.
        destruct (MAX_QUEUE_SIZE <=? length (queue s))%nat; cbn [length]; lia.
      * destruct (MAX_QUEUE_SIZE <=? length (queue s))%nat eqn:Hcmp;
          injection Hstep as <-; unfold measure, weight;
          cbn [todo pending active main queue]; rewrite Hmain, Htodo, ?Hcmp.
        -- cbn [length]. lia.
        -- rewrite !length_app. cbn [length].
           destruct (MAX_QUEUE_SIZE <=? length (queue s) + 1)%nat; cbv iota; lia.
    + rewrite (first_rejection_none _ _ Hrej) in Hstep.
      destruct (all_settled batch s); [| discriminate].
      injection Hstep as <-. unfold measure, weight, set_main.
      cbn [todo pending active main queue]. rewrite Hmain.
      rewrite (Hbatch batch eq_refl). change (MAX_QUEUE_SIZE <=? length [])%nat with false.
      cbv iota. lia.
    + rewrite (first_rejection_none _ _ Hrej) in Hstep.
      destruct (all_settled batch s); [| discriminate].
      injection Hstep as <-. unfold measure, weight, set_main.
      cbn [todo pending active main queue]. rewrite Hmain. lia.
    + discriminate.
  - unfold step_start in Hstep. destruct (pending s) as [| t rest] eqn:Hp; [discriminate |].
    destruct (length (active s) <? MAX_PARALLEL_LIMIT)%nat; [| discriminate].
    injection Hstep as <-. unfold measure, weight.
    cbn [todo pending active main queue]. rewrite Hp, length_app. cbn [length]. lia.
  - unfold step_settle in Hstep. destruct (active s !! i) as [t |] eqn:Hi; [| discriminate].
    injection Hstep as <-. unfold measure, weight.
    cbn [todo pending active main queue].
    rewrite length_delete by eauto. apply lookup_lt_Some in Hi. lia.
Qed.

Lemma measure_run (evs : list event) (s s' : state) :
  inv s -> run evs s = Some s' -> (length evs + measure s' <= measure s)%nat.
Proof.
  revert s. induction evs as [| ev evs IH]; intros s Hinv Hrun; cbn in Hrun.
  - injection Hrun as <-. cbn. lia.
  - destruct (step ev s) as [s1 |] eqn:Hstep; [| discriminate].
    pose proof (measure_step _ _ _ Hinv Hstep).
    pose proof (IH s1 (inv_step _ _ _ Hinv Hstep) Hrun). cbn [length]. lia.
Qed.

(** A state in which [deleteObjects] has not returned has an event to take. *)
Lemma progress (s : state) :
  inv s -> (forall r, main s <> Returned r) -> exists ev s', step ev s = Some s'.
Proof.
  intros (Hact & Hrej & Hq & Ht & Hincl & Hlen & Hbatch & Hret) Hrun.
  destruct (active s) as [| t rest] eqn:Ha.
  - destruct (pending s) as [| t rest] eqn:Hp.
    + assert (Hnil : unsettled s = []) by (unfold unsettled; rewrite Ha, Hp; reflexivity).
      exists Main. cbn. unfold step_main.
      destruct (main s) as [| batch | batch | r] eqn:Hmain.
      * destruct (todo s); [eexists; reflexivity |].
        destruct (_ <=? _)%nat; eexists; reflexivity.
      * rewrite (first_rejection_none _ _ Hrej), (all_settled_of_nil _ _ Hnil).
        eexists; reflexivity.
      * rewrite (first_rejection_none _ _ Hrej), (all_settled_of_nil _ _ Hnil).
        eexists; reflexivity.
      * exfalso. exact (Hrun r eq_refl).
    + exists Start. cbn. unfold step_start. rewrite Hp, Ha. cbn. eexists; reflexivity.
  - exists (Settle 0 (Ok tt)). cbn. unfold step_settle. rewrite Ha. cbn.
    eexists; reflexivity.
Qed.

(** C5. In every state that a run of [deleteObjects] reaches, whatever the
    keys, the interleaving and the outcomes of the single deletions, at
    most 10 [deleteObject] requests are in flight, at most 1000 promises
    are held in [queue] and at most 1000 deletions wait or run; a run has
    at most [5 * length keys + 2] events; a state in which the call has not
    returned has an event to take; and when the call returns it returns
    normally, no promise having been rejected. *)
Theorem deleteObjects_bounded_and_completes
    (keys : list string) (evs : list event) (s : state) :
  run evs (init keys) = Some s ->
  (length (in_flight s) <= 10)%nat /\
  (length (queue s) <= 1000)%nat /\
  (length (pending s) + length (active s) <= 1000)%nat /\
  rejected s = [] /\
  (forall r, main s = Returned r -> r = Ok tt) /\
  (length evs <= 5 * length keys + 2)%nat /\
  ((forall r, main s <> Returned r) -> exists ev s', step ev s = Some s').
Proof.
  intros Hrun. pose proof (inv_run _ _ _ (inv_init keys) Hrun) as Hinv.
  pose proof (measure_run _ _ _ (inv_init keys) Hrun) as Hmeasure.
  pose proof (progress s Hinv) as Hprogress.
  destruct Hinv as (Hact & Hrej & Hq & Ht & Hincl & Hlen & Hbatch & Hret).
  rewrite length_unsettled in Hlen.
  unfold in_flight. rewrite length_map.
  unfold MAX_PARALLEL_LIMIT, MAX_QUEUE_SIZE in *.
  repeat split; try assumption; try lia.
  unfold measure, weight, init in Hmeasure. cbn in Hmeasure. lia.
Qed.

End delete_objects.

(** ** The tenant connection: [transaction] *)

Section tenant_transaction.
Import Tenant.
Variable cfg : Config.

Lemma is_transient_inv (e : DbError) :
  is_transient e = true ->
  exists code message,
    e = PgDatabaseError code message /\ code = "08P01"%string /\
    Str.includes "no more connections allowed" message = true.
Proof.
  destruct e as [code message | | | | | |]; cbn; try discriminate.
  intros Ht. apply andb_true_iff in Ht as [Hcode Hmsg].
  apply String.eqb_eq in Hcode. eauto.
Qed.

(** [retry_from], started when [n] attempts were made and [timeouts] delays
    are left: the attempts it makes, which of them are followed by another
    one, and where it stops. *)
Lemma retry_from_spec (attempt : Acquisition) (timeouts n : nat) (errors : list DbError) :
  let r := retry_from attempt timeouts n errors in
  (n < snd r <= n + timeouts + 1)%nat /\
  (forall m, (n <= m)%nat -> (S m < snd r)%nat ->
     exists e elapsed,
       attempt m = (Thrown e, elapsed) /\ is_transient e = true /\ elapsed < maxRetryTime) /\
  (forall m e elapsed, (n <= m < snd r)%nat ->
     attempt m = (Thrown e, elapsed) -> is_transient e = false ->
     snd r = S m /\ fst r = Thrown e) /\
  (forall m e elapsed, (n <= m < snd r)%nat ->
     attempt m = (Thrown e, elapsed) -> is_transient e = true ->
     elapsed < maxRetryTime -> (m < n + timeouts)%nat ->
     (S m < snd r)%nat).
Proof.
  assert (Hstop : forall k (res : outcome (option Transaction)) t,
             (forall e elapsed, acquire_failed attempt k e elapsed ->
                                is_transient e = false -> res = Thrown e) ->
             (forall e elapsed, acquire_failed attempt k e elapsed ->
                                is_transient e = true -> elapsed < maxRetryTime ->
                                (k < k + t)%nat -> False) ->
             (k < S k <= k + t + 1)%nat /\
             (forall m, (k <= m)%nat -> (S m < S k)%nat ->
                exists e elapsed,
                  attempt m = (Thrown e, elapsed) /\ is_transient e = true /\
                  elapsed < maxRetryTime) /\
             (forall m e elapsed, (k <= m < S k)%nat ->
                attempt m = (Thrown e, elapsed) -> is_transient e = false ->
                S k = S m /\ res = Thrown e) /\
             (forall m e elapsed, (k <= m < S k)%nat ->
                attempt m = (Thrown e, elapsed) -> is_transient e = true ->
                elapsed < maxRetryTime -> (m < k + t)%nat ->
                (S m < S k)%nat)).
  { intros k res t Hres Hno. split; [lia |]. split; [intros; lia |]. split.
    - intros m e elapsed Hm Hat Hnt. assert (m = k) by lia. subst m.
      split; [reflexivity |]. exact (Hres e elapsed Hat Hnt).
    - intros m e elapsed Hm Hat Ht Hel Hleft. assert (m = k) by lia. subst m.
      exfalso. exact (Hno e elapsed Hat Ht Hel Hleft). }
  revert n errors. induction timeouts as [| timeouts IH]; intros n errors; cbn zeta;
    cbn [retry_from]; destruct (attempt n) as [[tnx | e] elapsed] eqn:Hn; cbn [fst snd].
  - apply Hstop; unfold acquire_failed; intros; congruence.
  - destruct (is_transient e) eqn:He;
      [destruct (Z.leb_spec maxRetryTime elapsed) as [Hlate | Hin] |];
      cbn [fst snd]; apply Hstop; unfold acquire_failed; intros;
      try congruence; try lia.
  - apply Hstop; unfold acquire_failed; intros; congruence.
  - destruct (is_transient e) eqn:He.
    + destruct (Z.leb_spec maxRetryTime elapsed) as [Hlate | Hin]; cbn [fst snd].
      * apply Hstop; unfold acquire_failed; intros; try congruence.
        assert (elapsed0 = elapsed) by congruence. lia.
      * specialize (IH (S n) (errors ++ [e])). cbn zeta in IH.
        destruct IH as (Hcalls & Hretried & Hlast & Hagain).
        split; [lia |]. split; [| split].
        -- intros m Hm Hlt. destruct (Nat.eq_dec m n) as [-> | Hne].
           ++ exists e, elapsed. auto.
           ++ apply Hretried; lia.
        -- intros m e' elapsed' Hm Hat Hnt. destruct (Nat.eq_dec m n) as [-> | Hne].
           ++ congruence.
           ++ apply (Hlast m e' elapsed'); [lia | exact Hat | exact Hnt].
        -- intros m e' elapsed' Hm Hat Ht Hel Hleft.
           destruct (Nat.eq_dec m n) as [-> | Hne]; [lia |].
           apply (Hagain m e' elapsed'); [lia | exact Hat | exact Ht | exact Hel | lia].
    + cbn [fst snd]. apply Hstop; unfold acquire_failed; intros; congruence.
Qed.

Lemma transaction_calls acquire self instance :
  snd (transaction cfg acquire self instance) =
  snd (retry (acquire (default (pool self) instance))).
Proof.
  unfold transaction. destruct (retry _) as [[[tnx |] | e] calls]; cbn; [| reflexivity ..].
  destruct (prepare cfg self instance tnx); reflexivity.
Qed.

Lemma transaction_thrown acquire self instance e calls :
  retry (acquire (default (pool self) instance)) = (Thrown e, calls) ->
  fst (transaction cfg acquire self instance) = Thrown (surface e).
Proof. unfold transaction. intros ->. reflexivity. Qed.

(** C3. [transaction] calls [pool.transaction()] at least once and at most
    11 times (10 retries).  A call is followed by another one only when it
    failed with the [DatabaseError] of code [08P01] whose message contains
    "no more connections allowed", and the failure was handled less than
    3000 ms after the start; such a failure is followed by another call as
    long as fewer than 10 retries were made.  Any other error of a call
    ends the acquisition at that call and is thrown by [transaction], a
    [KnexTimeoutError] as [DatabaseTimeout]. *)
Theorem transaction_retries_only_transient
    (acquire : Knex -> Acquisition) (self : TenantConnection) (instance : option Knex) :
  let attempt := acquire (default (pool self) instance) in
  let r := transaction cfg acquire self instance in
  (1 <= snd r <= 11)%nat /\
  (forall n, (S n < snd r)%nat ->
     exists message elapsed,
       attempt n = (Thrown (PgDatabaseError "08P01" message), elapsed) /\
       Str.includes "no more connections allowed" message = true /\
       elapsed < 3000) /\
  (forall n message elapsed, (n < snd r)%nat -> (n < 10)%nat ->
     attempt n = (Thrown (PgDatabaseError "08P01" message), elapsed) ->
     Str.includes "no more connections allowed" message = true ->
     elapsed < 3000 ->
     (S n < snd r)%nat) /\
  (forall n e elapsed, (n < snd r)%nat ->
     attempt n = (Thrown e, elapsed) -> is_transient e = false ->
     snd r = S n /\ fst r = Thrown (surface e)) /\
  (forall n message elapsed, (n < snd r)%nat ->
     attempt n = (Thrown (KnexTimeoutError message), elapsed) ->
     snd r = S n /\
     fst r = Thrown (StorageDatabaseTimeout (KnexTimeoutError message))).
Proof.
  cbn zeta. rewrite transaction_calls. unfold retry.
  pose proof (retry_from_spec (acquire (default (pool self) instance)) retries 0 [])
    as (Hcalls & Hretried & Hstop & Hagain). cbn zeta in *.
  assert (Hnon : forall n e elapsed,
             (n < snd (retry_from (acquire (default (pool self) instance)) retries 0 []))%nat ->
             acquire (default (pool self) instance) n = (Thrown e, elapsed) ->
             is_transient e = false ->
             snd (retry_from (acquire (default (pool self) instance)) retries 0 []) = S n /\
             fst (transaction cfg acquire self instance) = Thrown (surface e)).
  { intros n e elapsed Hn Hat Hnt.
    destruct (Hstop n e elapsed) as [Hlast Hres]; [lia | exact Hat | exact Hnt |].
    split; [exact Hlast |].
    apply (transaction_thrown _ _ _ _ (S n)). unfold retry.
    destruct (retry_from _ _ _ _) as [res calls]. cbn in *. congruence. }
  unfold retries in *. split; [lia |]. split; [| split; [| split]].
  - intros n Hn. destruct (Hretried n) as (e & elapsed & Hat & Ht & Hel); [lia | lia |].
    apply is_transient_inv in Ht as (code & message & -> & -> & Hmsg).
    exists message, elapsed. auto.
  - intros n message elapsed Hn Hten Hat Hmsg Hel.
    apply (Hagain n (PgDatabaseError "08P01" message) elapsed);
      [lia | exact Hat | | exact Hel | lia].
    cbn. rewrite Hmsg. reflexivity.
  - exact Hnon.
  - intros n message elapsed Hn Hat.
    exact (Hnon n (KnexTimeoutError message) elapsed Hn Hat eq_refl).
Qed.

(** C4, as the code has it.  On an externally fronted pool, without an
    explicit instance, a transaction object that reports itself completed
    is never returned: [transaction] awaits its execution promise and
    throws the reason of its rejection (a [KnexTimeoutError] as
    [DatabaseTimeout]); the error "Transaction already completed" is thrown
    only when that promise is fulfilled. *)
Theorem transaction_completed_is_error
    (acquire : Knex -> Acquisition) (self : TenantConnection)
    (tnx : Transaction) (calls : nat) :
  external (options self) = true ->
  retry (acquire (pool self)) = (Resolved (Some tnx), calls) ->
  isCompleted tnx = true ->
  (exists e, fst (transaction cfg acquire self None) = Thrown e) /\
  (forall e, executionPromise tnx = Thrown e ->
             fst (transaction cfg acquire self None) = Thrown (surface e)) /\
  (executionPromise tnx = Resolved tt ->
   fst (transaction cfg acquire self None) =
   Thrown (StorageDatabaseError "Transaction already completed")).
Proof.
  intros Hext Hretry Hdone. unfold transaction. cbn [default from_option id].
  rewrite Hretry. unfold prepare. rewrite Hext, Hdone. cbn.
  destruct (executionPromise tnx) as [[] | e]; cbn; repeat split; eauto; try discriminate.
  intros e' [= <-]. reflexivity.
Qed.

End tenant_transaction.

(** ** The tenant connection: the cache of pools *)

Section tenant_create.
Import Tenant.
Variable cfg : Config.

Lemma purgeStale_keeps (now : Z) (w : World) (key : string) (p : Knex) (expiry : Z) :
  connections w !! key = Some (p, expiry) -> now < expiry ->
  connections (purgeStale now w) !! key = Some (p, expiry).
Proof.
  intros Hk Hlt. unfold purgeStale; cbn [connections].
  apply map_lookup_filter_Some. split; [exact Hk | exact Hlt].
Qed.

Lemma timers_keep (timers : list Z) (w : World) (key : string) (p : Knex) (expiry : Z) :
  connections w !! key = Some (p, expiry) ->
  Forall (fun t => t < expiry) timers ->
  connections (fold_left (fun w t => purgeStale t w) timers w) !! key = Some (p, expiry).
Proof.
  revert w. induction timers as [| t timers IH]; intros w Hk Hall; [exact Hk |].
  apply Forall_cons in Hall as [Ht Hall]. cbn [fold_left].
  apply IH; [apply purgeStale_keeps; assumption | exact Hall].
Qed.

Lemma create_cached (options : TenantConnectionOptions) (now : Z) (w : World)
    (p : Knex) (expiry : Z) :
  connections w !! dbUrl options = Some (p, expiry) ->
  fst (create cfg options now w) = Resolved (new_TenantConnection p options) /\
  connections (snd (create cfg options now w)) !! dbUrl options = Some (p, now + ttl cfg).
Proof.
  intros Hk. unfold create, cache_get. rewrite Hk. cbn.
  split; [reflexivity | apply lookup_insert_eq].
Qed.

Lemma create_caches (options : TenantConnectionOptions) (now : Z) (w : World)
    (connection : TenantConnection) :
  external options = false \/ isMultitenant cfg = false \/
  is_Some (connections w !! dbUrl options) ->
  fst (create cfg options now w) = Resolved connection ->
  connections (snd (create cfg options now w)) !! dbUrl options =
  Some (pool connection, now + ttl cfg).
Proof.
  intros Hcase. destruct (connections w !! dbUrl options) as [[p expiry] |] eqn:Hk.
  - destruct (create_cached options now w p expiry Hk) as [-> ->]. intros [= <-]. reflexivity.
  - assert (Hguard : negb (external options) || negb (isMultitenant cfg) = true).
    { destruct Hcase as [-> | [-> | [x Hx]]]; [reflexivity | | discriminate].
      destruct (external options); reflexivity. }
    unfold create, cache_get. rewrite Hk, Hguard.
    destruct (knex _); cbn [fst snd]; try discriminate.
    intros [= <-]. cbn. apply lookup_insert_eq.
Qed.

(** C6, as the code has it.  When the first of two [create] calls with the
    same connection string puts the pool of the connection it returns in
    the cache, or finds it there (it does unless the pool is externally
    fronted in a multitenant deployment), a second call made before the
    entry goes stale, whatever timers of the cache fire in between, returns
    a connection on the same pool, and the entry is stale one [ttl] after
    that second call. *)
Theorem create_reuses_cached_pool
    (options1 options2 : TenantConnectionOptions) (t1 t2 : Z) (timers : list Z) (w : World)
    (connection1 : TenantConnection) :
  dbUrl options1 = dbUrl options2 ->
  external options1 = false \/ isMultitenant cfg = false \/
  is_Some (connections w !! dbUrl options1) ->
  t1 <= t2 < t1 + ttl cfg ->
  Forall (fun t => t <= t2) timers ->
  let first := create cfg options1 t1 w in
  let between := fold_left (fun w t => purgeStale t w) timers (snd first) in
  let second := create cfg options2 t2 between in
  fst first = Resolved connection1 ->
  exists connection2,
    fst second = Resolved connection2 /\
    pool connection2 = pool connection1 /\
    options connection2 = options2 /\
    connections (snd second) !! dbUrl options2 = Some (pool connection1, t2 + ttl cfg).
Proof.
  intros Hurl Hcase Ht Htimers. cbn zeta. intros Hreturned.
  pose proof (create_caches options1 t1 w connection1 Hcase Hreturned) as Hfirst.
  apply (timers_keep timers) in Hfirst.
  2:{ eapply Forall_impl; [exact Htimers |]. cbn. intros; lia. }
  rewrite Hurl in Hfirst.
  destruct (create_cached options2 t2 _ _ _ Hfirst) as [Hsecond Hentry].
  eexists. split; [exact Hsecond |]. split; [reflexivity |]. split; [reflexivity | exact Hentry].
Qed.

End tenant_create.

(** ** The embedding at work *)

Example copy_onto_itself_sends_COPY :
  In ("X-Goog-Metadata-Directive"%string, Some "COPY"%string)
     (rq_headers (GCS.copy_request (H := Sample.platform) Sample.backend "photos"
                    "cat.png" None "cat.png" None None None)).
Proof. vm_compute. tauto. Qed.

Example copy_into_bucket_folder_sends_REPLACE :
  GCS.metadata_directive "photos" "cat.png" None "photos/cat.png" None = GCS.REPLACE.
Proof. reflexivity. Qed.

Example copy_elsewhere_sends_COPY :
  GCS.metadata_directive "photos" "cat.png" (Some "v1"%string) "dog.png" None = GCS.COPY.
Proof. reflexivity. Qed.

Example headers_are_merged_and_sorted :
  Headers.of_list [("ETag", "x"); ("Content-Type", "a"); ("content-type", "b")]%string =
  [("content-type", "a, b"); ("etag", "x")]%string.
Proof. reflexivity. Qed.

Example basic_date :
  Signer.toISOBasicString (H := Sample.platform) (Some 1704164645678) =
  Ok "20240102T030405Z"%string.
Proof. reflexivity. Qed.

Example private_url_parameters :
  url_searchParams <$>
    (match outcome (GCS.privateAssetUrl (H := Sample.platform) Sample.backend "photos"
                      "cat.png" None) with
     | Ok u => Some u
     | Err _ => None
     end) =
  Some [("X-Goog-Algorithm", "GOOG4-RSA-SHA256");
        ("X-Goog-Credential", "svc@example.iam/20240102/auto/storage/goog4_request");
        ("X-Goog-Date", "20240102T030405Z");
        ("X-Goog-Expires", "600");
        ("X-Goog-SignedHeaders", "host");
        ("X-Goog-Signature", "c2lnbmF0dXJl")]%string.
Proof. vm_compute. reflexivity. Qed.

Example default_expiry_is_signed :
  List.filter (is_param "X-Goog-Expires")
    (match outcome (Signer.getSignedUrl (H := Sample.platform) Sample.auth
                      Sample.good_request None) with
     | Ok u => url_searchParams u
     | Err _ => []
     end) = [("X-Goog-Expires", "900")]%string.
Proof. vm_compute. reflexivity. Qed.

Example seven_days_are_signed :
  calls_of (Signer.getSignedUrl (H := Sample.platform) Sample.auth Sample.good_request
              (Some {| Signer.signingDate := None; Signer.signingEndpoint := None;
                       Signer.signingService := None; Signer.signingRegion := None;
                       Signer.unsignableHeaders := None; Signer.signableHeaders := None;
                       Signer.expiresIn := Some 604800;
                       Signer.unhoistableHeaders := None |})) =
  [CallGetCredentials;
   CallSign (Str.join (String "010"%char EmptyString)
               ["GOOG4-RSA-SHA256"; "20240102T030405Z";
                "20240102/auto/storage/goog4_request"; "9f86d081884c7d65"]%string) None].
Proof. vm_compute. reflexivity. Qed.

Example search_path_without_extras :
  Tenant.searchPath (Sample.config true) = ["storage"; "public"; "extensions"]%string.
Proof. reflexivity. Qed.

Example eleven_calls_at_most :
  snd (Tenant.transaction (Sample.config false)
         (fun _ n => (Tenant.Thrown Sample.too_many, Z.of_nat n))
         Sample.connection None) = 11%nat.
Proof. vm_compute. reflexivity. Qed.

Example budget_ends_the_retries :
  Tenant.transaction (Sample.config false)
    (fun _ n => (Tenant.Thrown Sample.too_many, 1000 * Z.of_nat n + 1000))
    Sample.connection None =
  (Tenant.Thrown Sample.too_many, 3%nat).
Proof. vm_compute. reflexivity. Qed.

Example malformed_url_is_refused :
  Signer.getSignedUrl (H := Sample.platform) Sample.auth Sample.bad_request
    (Some Sample.too_long) = ([], Err (TypeError "Invalid URL")).
Proof. reflexivity. Qed.

Example folded_value_is_refused :
  new_Headers (Signer.cr_headers Sample.folded_request) =
  Err (TypeError "Invalid header value").
Proof. reflexivity. Qed.

Example values_are_trimmed :
  new_Headers [("Content-Type", "  text/plain "); ("X-Empty", " ")]%string =
  Ok [("content-type", "text/plain"); ("x-empty", "")]%string.
Proof. reflexivity. Qed.

Example blank_content_type_is_missing :
  GCS.mimetype <$>
    (match GCS.buildMetadata (H := Sample.platform)
             {| rs_status := 200; rs_headers := [("Content-Type", " ")]%string;
                rs_data := ""; rs_error := None |} with
     | Ok m => Some m
     | Err _ => None
     end) = Some "application/octet-stream"%string.
Proof. reflexivity. Qed.

Example numbered_key_under_a_prefix :
  GCS.list_entry (Some Sample.prefixed) Sample.numbered =
  Err (TypeError "object.Key.replace is not a function").
Proof. reflexivity. Qed.

Example numbered_key_without_prefix :
  GCS.list_entry None Sample.numbered =
  Ok {| GCS.lk_name := TagNumber 123; GCS.lk_size := 7 |}.
Proof. reflexivity. Qed.

Example negative_maximum_is_refused :
  Tenant.create (Sample.config true) Sample.negative_max 1000 Tenant.empty_world =
  (Tenant.Thrown (Tenant.OtherError "Tarn: opt.max must be an integer > 0"),
   Tenant.empty_world).
Proof. reflexivity. Qed.

(** ** The theorems on the sample inputs *)

Lemma getSignedUrl_validates_expiry_witness :
  (calls_of (Signer.getSignedUrl (H := Sample.platform) Sample.auth Sample.good_request
               (Some Sample.too_long)) = [] /\
   outcome (Signer.getSignedUrl (H := Sample.platform) Sample.auth Sample.good_request
              (Some Sample.too_long)) =
     Err (RangeError "The longest expiration value is 604800 seconds (7 days)")) /\
  (exists signed,
      outcome (Signer.getSignedUrl (H := Sample.platform) Sample.auth Sample.good_request
                 None) = Ok signed /\
      List.filter (is_param "X-Goog-Expires") (url_searchParams signed) =
        [("X-Goog-Expires", "900")]%string) /\
  (exists message,
      Signer.getSignedUrl (H := Sample.platform) Sample.auth Sample.folded_request
        (Some Sample.too_long) = ([], Err (TypeError message))).
Proof.
  split; [| split].
  - destruct (proj1 (proj1 (getSignedUrl_validates_expiry (H := Sample.platform) Sample.auth
                              Sample.good_request (Some Sample.too_long))
                       604801 (or_introl (ex_intro _ Sample.too_long (conj eq_refl eq_refl))))
                ltac:(reflexivity)) as (Hcalls & _ & Hrange).
    split; [exact Hcalls |]. exact (Hrange [] Sample.url eq_refl eq_refl).
  - destruct (proj2 (proj2 (proj1 (getSignedUrl_validates_expiry (H := Sample.platform)
                                     Sample.auth Sample.good_request None)
                              900 (or_intror (conj eq_refl (or_introl eq_refl))))
                       ltac:(discriminate) [] Sample.url eq_refl eq_refl)
                {| client_email := Some "svc@example.iam"%string |} 1704164645678
                eq_refl eq_refl
                (fun payload endpoint => ex_intro _ "c2lnbmF0dXJl"%string eq_refl))
      as (signed & Hsigned & Hparams).
    exists signed. split; [exact Hsigned |]. exact Hparams.
  - destruct (proj2 (getSignedUrl_validates_expiry (H := Sample.platform) Sample.auth
                       Sample.folded_request (Some Sample.too_long))
                (TypeError "Invalid header value") (or_introl eq_refl))
      as (Hrun & message & Hmessage).
    exists "Invalid header value"%string. exact Hrun.
Defined.

Lemma transaction_retries_only_transient_witness :
  (2 < snd (Tenant.transaction (Sample.config true) Sample.flaky Sample.connection None))%nat /\
  Sample.flaky Sample.knex 2%nat =
    (Tenant.Thrown (Tenant.KnexTimeoutError "Knex: Timeout acquiring a connection"), 3200) /\
  snd (Tenant.transaction (Sample.config true) Sample.flaky Sample.connection None) = 3%nat /\
  fst (Tenant.transaction (Sample.config true) Sample.flaky Sample.connection None) =
    Tenant.Thrown (Tenant.StorageDatabaseTimeout
                     (Tenant.KnexTimeoutError "Knex: Timeout acquiring a connection")).
Proof.
  assert (Hmade : (2 < snd (Tenant.transaction (Sample.config true) Sample.flaky
                              Sample.connection None))%nat) by (vm_compute; lia).
  split; [exact Hmade |]. split; [reflexivity |].
  exact (proj2 (proj2 (proj2 (proj2 (transaction_retries_only_transient
                                       (Sample.config true) Sample.flaky
                                       Sample.connection None))))
           2%nat _ 3200 Hmade eq_refl).
Defined.

Lemma transaction_completed_is_error_witness :
  Tenant.external (Tenant.options Sample.connection) = true /\
  Tenant.isCompleted Sample.completed = true /\
  fst (Tenant.transaction (Sample.config true) Sample.refused Sample.connection None) =
    Tenant.Thrown (Tenant.surface (Tenant.OtherError "connect ECONNREFUSED")).
Proof.
  split; [reflexivity |]. split; [reflexivity |].
  exact (proj1 (proj2 (transaction_completed_is_error (Sample.config true) Sample.refused
                         Sample.connection Sample.completed 1 eq_refl eq_refl eq_refl))
           _ eq_refl).
Defined.

(** C4, counterexample: the transaction object reports itself completed
    and its execution promise is rejected; [transaction] throws the reason
    of the rejection, not "Transaction already completed". *)
Lemma transaction_completed_counterexample :
  Tenant.external (Tenant.options Sample.connection) = true /\
  Tenant.retry (Sample.refused (Tenant.pool Sample.connection)) =
    (Tenant.Resolved (Some Sample.completed), 1%nat) /\
  Tenant.isCompleted Sample.completed = true /\
  fst (Tenant.transaction (Sample.config true) Sample.refused Sample.connection None) =
    Tenant.Thrown (Tenant.OtherError "connect ECONNREFUSED") /\
  fst (Tenant.transaction (Sample.config true) Sample.refused Sample.connection None) <>
    Tenant.Thrown (Tenant.StorageDatabaseError "Transaction already completed").
Proof.
  repeat split; try reflexivity. vm_compute. discriminate.
Qed.

Lemma deleteObjects_bounded_and_completes_witness :
  exists s,
    DeleteObjects.run Sample.events (DeleteObjects.init Sample.keys) = Some s /\
    DeleteObjects.main s = DeleteObjects.Returned (Ok tt) /\
    (length (DeleteObjects.in_flight s) <= 10)%nat.
Proof.
  eexists. split; [vm_compute; reflexivity |]. split; [reflexivity |].
  refine (proj1 (deleteObjects_bounded_and_completes Sample.keys Sample.events _ _)).
  vm_compute. reflexivity.
Defined.

Lemma create_reuses_cached_pool_witness :
  let first := Tenant.create (Sample.config true) (Sample.options None) 1000 Tenant.empty_world in
  let between :=
    fold_left (fun w t => Tenant.purgeStale t w) [2000; 30000] (snd first) in
  let second := Tenant.create (Sample.config true) (Sample.options None) 60999 between in
  1000 <= 60999 < 1000 + Tenant.ttl (Sample.config true) /\
  exists connection1 connection2,
    fst first = Tenant.Resolved connection1 /\
    fst second = Tenant.Resolved connection2 /\
    Tenant.pool connection2 = Tenant.pool connection1.
Proof.
  cbn zeta.
  assert (Ht : 1000 <= 60999 < 1000 + Tenant.ttl (Sample.config true))
    by (vm_compute; split; [discriminate | reflexivity]).
  split; [exact Ht |].
  assert (Htimers : Forall (fun t => t <= 60999) [2000; 30000])
    by (repeat constructor; vm_compute; discriminate).
  destruct (create_reuses_cached_pool (Sample.config true) (Sample.options None)
              (Sample.options None) 1000 60999 [2000; 30000] Tenant.empty_world
              _ eq_refl (or_introl eq_refl) Ht Htimers eq_refl)
    as (connection2 & Hsecond & Hpool & _).
  eexists. exists connection2. split; [reflexivity |]. split; [exact Hsecond | exact Hpool].
Defined.

(** C6, counterexample: in a multitenant deployment, two [create] calls for
    the same connection string of an externally fronted pool, one
    millisecond apart, return connections on two different pools. *)
Lemma create_external_counterexample :
  let first :=
    Tenant.create (Sample.config true) (Sample.options (Some true)) 1000 Tenant.empty_world in
  let second :=
    Tenant.create (Sample.config true) (Sample.options (Some true)) 1001 (snd first) in
  1000 <= 1001 < 1000 + Tenant.ttl (Sample.config true) /\
  exists connection1 connection2,
    fst first = Tenant.Resolved connection1 /\
    fst second = Tenant.Resolved connection2 /\
    Tenant.knex_id (Tenant.pool connection1) = 0%nat /\
    Tenant.knex_id (Tenant.pool connection2) = 1%nat /\
    Tenant.pool connection2 <> Tenant.pool connection1.
Proof.
  cbn zeta. split; [vm_compute; split; [discriminate | reflexivity] |].
  eexists. eexists. split; [reflexivity |]. split; [reflexivity |].
  split; [reflexivity |]. split; [reflexivity |].
  intros Heq. apply (f_equal Tenant.knex_id) in Heq. discriminate Heq.
Qed.

Lemma list_beforeDate_excludes_witness :
  GCS.list_beforeDate (Some Sample.list_options) = Some (Some 1704067200000) /\
  outcome (GCS.list (H := Sample.platform) Sample.backend "photos" (Some Sample.list_options)) =
    Ok {| GCS.lp_keys := [ {| GCS.lk_name := TagString "old.txt"; GCS.lk_size := 3 |} ];
          GCS.lp_nextToken := None |} /\
  GCS.list_keep (H := Sample.platform) (Some Sample.list_options)
    {| le_Key := TagString "new.txt";
       le_LastModified := Some "2024-01-02T00:00:00.000Z"%string;
       le_Size := 5 |} = false.
Proof.
  split; [reflexivity |]. split.
  - exact (proj1 (proj1 (list_beforeDate_excludes (H := Sample.platform) Sample.backend
                           "photos" (Some Sample.list_options) 1704067200000 eq_refl)
                    Sample.response
                    {| lbr_Contents := Some Sample.entries; lbr_NextContinuationToken := None |}
                    Sample.entries eq_refl eq_refl eq_refl eq_refl)).
  - refine (proj1 (proj2 (list_beforeDate_excludes (H := Sample.platform) Sample.backend
                            "photos" (Some Sample.list_options) 1704067200000 eq_refl)
                     {| le_Key := TagString "new.txt";
                        le_LastModified := Some "2024-01-02T00:00:00.000Z"%string;
                        le_Size := 5 |}
                     "2024-01-02T00:00:00.000Z"%string 1704153600000 eq_refl _ eq_refl) _).
    + discriminate.
    + vm_compute. discriminate.
Defined.

Lemma metadata_is_normalized_witness :
  GCS.carries Sample.response "Content-Type" = false /\
  exists m,
    GCS.buildMetadata (H := Sample.platform) Sample.response = Ok m /\
    GCS.mimetype m = "application/octet-stream"%string.
Proof.
  split; [reflexivity |]. eexists. split; [reflexivity |].
  exact (proj1 (proj1 (metadata_is_normalized (H := Sample.platform) Sample.backend
                         "photos" "cat.png" None) Sample.response _ eq_refl) eq_refl).
Defined.

Lemma privateAssetUrl_expires_600_witness :
  URL_parse (Platform := Sample.platform)
    (GCS.object_url "photos" (GCS.withOptionalVersion "cat.png" None)) = Some Sample.url /\
  exists url,
    outcome (GCS.privateAssetUrl (H := Sample.platform) Sample.backend "photos" "cat.png" None)
      = Ok url /\
    List.filter (is_param "X-Goog-Expires") (url_searchParams url) =
      [("X-Goog-Expires", "600")]%string.
Proof.
  split; [reflexivity |].
  destruct (proj1 (proj2 (privateAssetUrl_expires_600 (H := Sample.platform) Sample.backend
                            "photos" "cat.png" None))
              Sample.url {| client_email := Some "svc@example.iam"%string |} 1704164645678
              eq_refl eq_refl eq_refl
              (fun payload endpoint => ex_intro _ "c2lnbmF0dXJl"%string eq_refl))
    as [url Hurl].
  exists url. split; [exact Hurl |].
  destruct (proj1 (privateAssetUrl_expires_600 (H := Sample.platform) Sample.backend
                     "photos" "cat.png" None) url Hurl)
    as (parsed & credentials & date & signature & Hparse & _ & _ & _ & _ & _ & _ & Hone).
  apply Hone. injection Hparse as <-. reflexivity.
Defined.

(** C9, counterexample: the key [cat.png?X-Goog-Expires=5] is put into the
    object URL as it is, so the URL that [privateAssetUrl] returns has two
    [X-Goog-Expires] parameters, the [5] of the key before the [600] of the
    call. *)
Lemma privateAssetUrl_expires_counterexample :
  exists url,
    outcome (GCS.privateAssetUrl (H := Sample.query_platform) Sample.backend "photos"
               "cat.png?X-Goog-Expires=5" None) = Ok url /\
    List.filter (is_param "X-Goog-Expires") (url_searchParams url) =
      [("X-Goog-Expires", "5"); ("X-Goog-Expires", "600")]%string /\
    List.filter (is_param "X-Goog-Expires") (url_searchParams url) <>
      [("X-Goog-Expires", "600")]%string.
Proof.
  eexists. split; [vm_compute; reflexivity |]. split; [vm_compute; reflexivity |].
  vm_compute. discriminate.
Qed.

(** * Further properties of the code *)

(** ** base32: padding, length and foreign characters *)

Section base32_more.
Import base32.

Lemma strip_padding_app_replicate (l : list ascii) (p : nat) :
  strip_padding (l ++ replicate p padding) = strip_padding l.
Proof.
  induction l as [| c l IH]; [apply strip_padding_replicate |].
  cbn [app strip_padding]. rewrite IH. reflexivity.
Qed.

Lemma list_ascii_of_string_app (s1 s2 : string) :
  list_ascii_of_string (s1 +:+ s2) = list_ascii_of_string s1 ++ list_ascii_of_string s2.
Proof.
  induction s1 as [| c s1 IH]; [reflexivity |].
  change (c :: list_ascii_of_string (s1 +:+ s2) =
          c :: (list_ascii_of_string s1 ++ list_ascii_of_string s2)).
  rewrite IH. reflexivity.
Qed.

(** X1. [decode] does not look at the padding: whatever number of [=] ends
    the text, none, too few or too many, the bytes are the same. *)
Theorem base32_decode_ignores_padding (text : string) (p : nat) :
  decode (text +:+ string_of_list_ascii (replicate p padding)) = decode text.
Proof.
  unfold decode. rewrite list_ascii_of_string_app, list_ascii_of_string_of_list_ascii.
  rewrite strip_padding_app_replicate. reflexivity.
Qed.

Lemma or_assign_length result j v : length (or_assign result j v) = length result.
Proof. unfold or_assign. apply length_insert. Qed.

Lemma or_assign_bytes result j v : Forall is_byte result -> Forall is_byte (or_assign result j v).
Proof.
  intros Hr. unfold or_assign. apply Forall_insert; [exact Hr |].
  unfold is_byte. apply Z.mod_pos_bound. reflexivity.
Qed.

Lemma decode_body_length text st :
  length (dec_result (decode_body text st)) = length (dec_result st).
Proof.
  unfold decode_body.
  destruct (fromCharCode (nth (dec_i st) text zero) =? -1); [reflexivity |].
  destruct (dec_k st <? 3); apply or_assign_length.
Qed.

Lemma decode_body_bytes text st :
  Forall is_byte (dec_result st) -> Forall is_byte (dec_result (decode_body text st)).
Proof.
  intros Hr. unfold decode_body.
  destruct (fromCharCode (nth (dec_i st) text zero) =? -1); [exact Hr |].
  destruct (dec_k st <? 3); apply or_assign_bytes, Hr.
Qed.

Lemma decode_loop_shape fuel text st :
  length (dec_result (decode_loop fuel text st)) = length (dec_result st) /\
  (Forall is_byte (dec_result st) -> Forall is_byte (dec_result (decode_loop fuel text st))).
Proof.
  revert st. induction fuel as [| fuel IH]; intros st; [split; auto |].
  cbn [decode_loop]. destruct (dec_i st <? length text)%nat; [| split; auto].
  destruct (IH (decode_body text st)) as [IHlen IHbytes].
  rewrite decode_body_length in IHlen. split; [exact IHlen |].
  intros Hr. apply IHbytes, decode_body_bytes, Hr.
Qed.

Lemma strip_padding_length (l : list ascii) : (length (strip_padding l) <= length l)%nat.
Proof.
  induction l as [| c l IH]; [reflexivity |].
  cbn [strip_padding]. destruct (strip_padding l) as [| d rest].
  - destruct (Ascii.eqb c padding); cbn; lia.
  - cbn [length] in *. lia.
Qed.

Lemma length_list_ascii_of_string (s : string) :
  length (list_ascii_of_string s) = String.length s.
Proof. induction s as [| c s IH]; [reflexivity |]. cbn. rewrite IH. reflexivity. Qed.

(** X2. [decode] allocates [floor(5 n / 8)] bytes for the [n] characters that
    are left once the padding at the end is taken away, and returns a buffer
    of that length whatever the characters are: five bits a character, never
    more bytes than the text can hold, each of them a byte. *)
Theorem base32_decode_length (text : string) :
  length (decode text) =
    (length (strip_padding (list_ascii_of_string text)) * 5 / 8)%nat /\
  (8 * length (decode text) <= 5 * String.length text)%nat /\
  Forall is_byte (decode text).
Proof.
  unfold decode.
  destruct (decode_loop_shape (decode_fuel (strip_padding (list_ascii_of_string text)))
              (strip_padding (list_ascii_of_string text))
              (decode_init (strip_padding (list_ascii_of_string text)))) as [Hlen Hbytes].
  cbn [decode_init dec_result] in Hlen, Hbytes. rewrite length_replicate in Hlen.
  split; [exact Hlen |]. split.
  - rewrite Hlen. unfold decoded_length.
    pose proof (strip_padding_length (list_ascii_of_string text)) as Hs.
    rewrite length_list_ascii_of_string in Hs.
    pose proof (Nat.div_mod_eq (length (strip_padding (list_ascii_of_string text)) * 5) 8).
    lia.
  - apply Hbytes. apply Forall_replicate. unfold is_byte. lia.
Qed.

(** *** The loop summaries do not depend on the fuel that is left over *)

Lemma enc_quintets_fuel (fuel fuel' : nat) (bs : list Z) (k : Z) :
  -3 <= k <= 4 ->
  (2 * length bs <= fuel + (if (k <? 0)%Z then 1 else 0))%nat ->
  (2 * length bs <= fuel' + (if (k <? 0)%Z then 1 else 0))%nat ->
  enc_quintets fuel bs k = enc_quintets fuel' bs k.
Proof.
  revert fuel' bs k. induction fuel as [| fuel IH]; intros fuel' bs k Hk Hf Hf'.
  - destruct bs as [| b bs]; [rewrite !enc_quintets_nil; reflexivity |].
    cbn [length] in Hf. destruct (Z.ltb_spec k 0) as [Hneg | Hpos]; [| lia].
    destruct bs; cbn [length] in Hf; lia.
  - destruct bs as [| b bs]; [rewrite !enc_quintets_nil; reflexivity |].
    destruct fuel' as [| fuel'].
    { cbn [length] in Hf'. destruct (Z.ltb_spec k 0) as [Hneg | Hpos]; [| lia].
      destruct bs; cbn [length] in Hf'; lia. }
    cbn [enc_quintets length] in *.
    destruct (Z.leb_spec 5 (k + 5)) as [H5 | H5];
      destruct (Z.ltb_spec k 0) as [Hneg | Hpos]; try lia.
    + destruct (Z.ltb_spec (k + 5 - 8) 0) as [Hhold | Hadv]; f_equal.
      * apply IH; [lia | |]; cbn [length];
          destruct (Z.ltb_spec (k + 5 - 8) 0); lia.
      * apply IH; [lia | |]; destruct (Z.ltb_spec (k + 5 - 8) 0); lia.
    + destruct (Z.ltb_spec (k + 5) 0) as [Hhold | Hadv]; [lia |]. f_equal.
      apply IH; [lia | |]; destruct (Z.ltb_spec (k + 5) 0); lia.
Qed.

Lemma dec_quintets_empty (fuel : nat) (xs : list Z) (k : Z) : dec_quintets fuel xs k [] = [].
Proof.
  revert xs k. induction fuel as [| fuel IH]; intros [| x xs] k; try reflexivity.
  cbn [dec_quintets or_head]. destruct (k <? 3); apply IH.
Qed.

Lemma dec_quintets_fuel (fuel fuel' : nat) (xs : list Z) (k : Z) (rs : list Z) :
  (2 * length xs + (if (k <? 3)%Z then 0 else 1) <= fuel)%nat ->
  (2 * length xs + (if (k <? 3)%Z then 0 else 1) <= fuel')%nat ->
  k < 8 ->
  dec_quintets fuel xs k rs = dec_quintets fuel' xs k rs.
Proof.
  revert fuel' xs k rs. induction fuel as [| fuel IH]; intros fuel' xs k rs Hf Hf' Hk.
  - destruct xs as [| x xs]; [rewrite !dec_quintets_nil; reflexivity |].
    cbn [length] in Hf. lia.
  - destruct xs as [| x xs]; [rewrite !dec_quintets_nil; reflexivity |].
    destruct fuel' as [| fuel']; [cbn [length] in Hf'; lia |].
    cbn [dec_quintets length] in *.
    destruct (Z.ltb_spec k 3) as [Hlo | Hhi].
    + apply IH; [| | lia]; destruct (Z.ltb_spec (k + 5) 3); lia.
    + destruct (or_head rs (Z.shiftr x (k - 3))) as [| r rs'].
      * apply IH; [| | lia]; cbn [length]; destruct (Z.ltb_spec (k - 8) 3); lia.
      * f_equal. apply IH; [| | lia]; cbn [length]; destruct (Z.ltb_spec (k - 8) 3); lia.
Qed.

(** *** Five bytes are eight letters, whatever follows *)

Lemma enc_quintets_chunk (fuel : nat) (b0 b1 b2 b3 b4 : Z) (rest : list Z) :
  is_byte (default 0 (head rest)) ->
  enc_quintets (S (S (S (S (S (S (S (S fuel)))))))) (b0 :: b1 :: b2 :: b3 :: b4 :: rest) 0 =
  enc_quintets 8 [b0; b1; b2; b3; b4] 0 ++ enc_quintets fuel rest 0.
Proof.
  intros Hb5. do 8 enc_step.
  change 8%nat with (S (S (S (S (S (S (S (S O)))))))). do 8 enc_step.
  rewrite enc_quintets_nil. cbn [app head default from_option id].
  assert (Hhigh : forall b, is_byte b -> Z.shiftr b (8 - 0) = 0).
  { intros b Hb. rewrite Z.shiftr_div_pow2 by lia.
    apply Z.div_small. unfold is_byte in Hb. simpl. lia. }
  rewrite (Hhigh _ Hb5), (Hhigh 0) by (unfold is_byte; lia). reflexivity.
Qed.

Lemma enc_quintets_app (b1 b2 : list Z) :
  Forall is_byte b1 -> Forall is_byte b2 -> (length b1 mod 5 = 0)%nat ->
  forall f f1 f2,
    (2 * length (b1 ++ b2) <= f)%nat -> (2 * length b1 <= f1)%nat ->
    (2 * length b2 <= f2)%nat ->
    enc_quintets f (b1 ++ b2) 0 = enc_quintets f1 b1 0 ++ enc_quintets f2 b2 0.
Proof.
  induction b1 as [| a | a b | a b c | a b c d | a b c d e l IH] using list_ind5;
    intros Hb1 Hb2 Hmod f f1 f2 Hf Hf1 Hf2; try (vm_compute in Hmod; discriminate).
  - rewrite enc_quintets_nil. cbn [app] in *.
    apply enc_quintets_fuel; [lia | |]; change (0 <? 0) with false; cbv iota; lia.
  - assert (Hl : Forall is_byte l) by (do 5 (apply Forall_cons in Hb1 as [_ Hb1]); exact Hb1).
    assert (Hmodl : (length l mod 5 = 0)%nat).
    { cbn [length] in Hmod.
      replace (S (S (S (S (S (length l)))))) with (length l + 1 * 5)%nat in Hmod by lia.
      rewrite Nat.Div0.mod_add in Hmod. exact Hmod. }
    cbn [length app] in Hf, Hf1 |- *.
    replace f with (S (S (S (S (S (S (S (S (f - 8))))))))) by lia.
    replace f1 with (S (S (S (S (S (S (S (S (f1 - 8))))))))) by lia.
    rewrite (enc_quintets_chunk (f - 8) a b c d e (l ++ b2))
      by (apply head_is_byte, Forall_app; split; assumption).
    rewrite (enc_quintets_chunk (f1 - 8) a b c d e l) by (apply head_is_byte, Hl).
    rewrite (IH Hl Hb2 Hmodl (f - 8) (f1 - 8) f2)%nat by lia.
    rewrite app_assoc. reflexivity.
Qed.

(** X3. The encoding of a buffer whose first part is a whole number of 5-byte
    groups is the encoding of that part followed by the encoding of the
    rest: a long buffer can be encoded group by group. *)
Theorem base32_encode_chunks (b1 b2 : list Z) :
  Forall is_byte b1 -> Forall is_byte b2 -> (length b1 mod 5 = 0)%nat ->
  encode (b1 ++ b2) = encode b1 +:+ encode b2.
Proof.
  intros Hb1 Hb2 Hmod.
  assert (Hb : Forall is_byte (b1 ++ b2)) by (apply Forall_app; split; assumption).
  rewrite <- (string_of_list_ascii_of_string (encode (b1 ++ b2))).
  rewrite <- (string_of_list_ascii_of_string (encode b1 +:+ encode b2)).
  f_equal. rewrite list_ascii_of_string_app.
  pose proof (encode_letters b1 Hb1) as H1. pose proof (encode_letters b2 Hb2) as H2.
  pose proof (encode_letters _ Hb) as H12. cbn zeta in *.
  rewrite H1, H2, H12. clear H1 H2 H12.
  rewrite (enc_quintets_app b1 b2 Hb1 Hb2 Hmod _ (encode_fuel b1) (encode_fuel b2))
    by (unfold encode_fuel; lia).
  pose proof (letters_length b1 Hb1) as Hq1.
  assert (Hm : length b1 = (5 * (length b1 / 5))%nat).
  { pose proof (Nat.div_mod_eq (length b1) 5). lia. }
  set (m := (length b1 / 5)%nat) in *. clearbody m.
  assert (Hq1' : length (enc_quintets (encode_fuel b1) b1 0) = (8 * m)%nat).
  { rewrite Hq1, Hm. replace (8 * (5 * m) + 4)%nat with (4 + (8 * m) * 5)%nat by lia.
    rewrite Nat.div_add by lia. reflexivity. }
  assert (He1 : encoded_length (length b1) = (8 * m)%nat).
  { unfold encoded_length. rewrite Hm. replace (5 * m + 4)%nat with (4 + m * 5)%nat by lia.
    rewrite Nat.div_add by lia. cbn. lia. }
  assert (He12 : encoded_length (length (b1 ++ b2)) = (8 * m + encoded_length (length b2))%nat).
  { unfold encoded_length. rewrite length_app, Hm.
    replace (5 * m + length b2 + 4)%nat with (length b2 + 4 + m * 5)%nat by lia.
    rewrite Nat.div_add by lia. lia. }
  rewrite He1, He12, Hq1', map_app, length_app, Hq1'.
  replace (8 * m - 8 * m)%nat with 0%nat by lia.
  replace (8 * m + encoded_length (length b2) -
           (8 * m + length (enc_quintets (encode_fuel b2) b2 0)))%nat
    with (encoded_length (length b2) - length (enc_quintets (encode_fuel b2) b2 0))%nat by lia.
  cbn [replicate]. rewrite app_nil_r, <- app_assoc. reflexivity.
Qed.

Lemma base32_encode_chunks_witness :
  encode ([102; 111; 111; 98; 97] ++ [114]) = encode [102; 111; 111; 98; 97] +:+ encode [114].
Proof.
  apply base32_encode_chunks.
  - repeat constructor; unfold is_byte; lia.
  - repeat constructor; unfold is_byte; lia.
  - reflexivity.
Defined.

(** *** Characters outside the alphabet *)

Lemma take_or_head (m : nat) (rs : list Z) (v : Z) :
  take m (or_head rs v) = or_head (take m rs) v.
Proof. destruct m, rs; reflexivity. Qed.

Lemma take_dec_quintets (fuel : nat) (xs : list Z) (k : Z) (rs : list Z) (m : nat) :
  take m (dec_quintets fuel xs k rs) = dec_quintets fuel xs k (take m rs).
Proof.
  revert xs k rs m. induction fuel as [| fuel IH]; intros xs k rs m; [reflexivity |].
  destruct xs as [| x xs]; [reflexivity |]. cbn [dec_quintets].
  destruct (k <? 3).
  - rewrite IH, take_or_head. reflexivity.
  - rewrite <- take_or_head. destruct (or_head rs (Z.shiftr x (k - 3))) as [| r rs'].
    + rewrite take_nil, !dec_quintets_empty. apply take_nil.
    + destruct m as [| m]; cbn [take].
      * rewrite dec_quintets_empty. reflexivity.
      * rewrite IH. reflexivity.
Qed.

Lemma is_letter_padding : is_letter padding = false.
Proof. vm_compute. reflexivity. Qed.

Lemma filter_is_letter_cons (c : ascii) (l : list ascii) :
  List.filter is_letter (c :: l) =
  if is_letter c then c :: List.filter is_letter l else List.filter is_letter l.
Proof. reflexivity. Qed.

Lemma filter_is_letter_strip (l : list ascii) :
  List.filter is_letter (strip_padding l) = List.filter is_letter l.
Proof.
  induction l as [| c l IH]; [reflexivity |].
  rewrite (filter_is_letter_cons c l), <- IH.
  cbn [strip_padding]. destruct (strip_padding l) as [| d rest].
  - destruct (Ascii.eqb_spec c padding) as [Hc | Hc].
    + subst c. rewrite is_letter_padding. reflexivity.
    + rewrite filter_is_letter_cons. reflexivity.
  - rewrite (filter_is_letter_cons c). reflexivity.
Qed.

Lemma strip_padding_letters_only (l : list ascii) :
  strip_padding (List.filter is_letter l) = List.filter is_letter l.
Proof.
  induction l as [| c l IH]; [reflexivity |].
  cbn [List.filter]. destruct (is_letter c) eqn:Hc; [| exact IH].
  cbn [strip_padding]. rewrite IH. destruct (List.filter is_letter l); [| reflexivity].
  destruct (Ascii.eqb_spec c padding) as [-> | _]; [| reflexivity].
  rewrite is_letter_padding in Hc. discriminate.
Qed.

Lemma filter_is_letter_idem (l : list ascii) :
  List.filter is_letter (List.filter is_letter l) = List.filter is_letter l.
Proof.
  induction l as [| c l IH]; [reflexivity |].
  cbn [List.filter]. destruct (is_letter c) eqn:Hc; [| exact IH].
  cbn [List.filter]. rewrite Hc, IH. reflexivity.
Qed.

(** The loop of [decode] on any text: the characters that are not letters
    move [i] and nothing else. *)
Lemma decode_loop_letters (text : list ascii) :
  forall fuel st fuel',
    dec_k st < 8 ->
    (2 * (length text - dec_i st) + (if (dec_k st <? 3)%Z then 0 else 1) <= fuel)%nat ->
    (2 * length (List.filter is_letter (drop (dec_i st) text)) +
     (if (dec_k st <? 3)%Z then 0 else 1) <= fuel')%nat ->
    dec_result (decode_loop fuel text st) =
    take (dec_j st) (dec_result st) ++
    dec_quintets fuel' (map fromCharCode (List.filter is_letter (drop (dec_i st) text)))
      (dec_k st) (drop (dec_j st) (dec_result st)).
Proof.
  induction fuel as [| fuel IH]; intros st fuel' Hk Hf Hf'.
  - assert (Hi : (length text <= dec_i st)%nat) by (destruct (dec_k st <? 3); lia).
    rewrite drop_ge by lia. cbn [List.filter map decode_loop].
    rewrite dec_quintets_nil. symmetry. apply take_drop.
  - cbn [decode_loop]. destruct (Nat.ltb_spec (dec_i st) (length text)) as [Hlt | Hge].
    2:{ rewrite drop_ge by lia. cbn [List.filter map].
        rewrite dec_quintets_nil. symmetry. apply take_drop. }
    destruct (lookup_lt_is_Some_2 text (dec_i st) Hlt) as [c Hc].
    rewrite (drop_S _ _ _ Hc) in Hf' |- *. rewrite filter_is_letter_cons in Hf' |- *.
    unfold decode_body. rewrite (nth_lookup_Some _ _ _ c Hc).
    assert (Hl : is_letter c = negb (fromCharCode c =? -1)) by reflexivity.
    destruct (fromCharCode c =? -1) eqn:Hx; cbn [negb] in Hl; rewrite Hl in Hf' |- *.
    + rewrite (IH _ fuel'); cbn [dec_i dec_j dec_k dec_result]; try assumption; [reflexivity |].
      destruct (dec_k st <? 3); lia.
    + cbn [map length] in Hf' |- *.
      destruct fuel' as [| fuel'']; [lia |]. cbn [dec_quintets].
      destruct (Z.ltb_spec (dec_k st) 3) as [Hlo | Hhi].
      * rewrite (IH _ fuel''); cbn [dec_i dec_j dec_k dec_result].
        -- rewrite or_assign_take, or_assign_drop. reflexivity.
        -- lia.
        -- destruct (dec_k st + 5 <? 3); lia.
        -- destruct (dec_k st + 5 <? 3); lia.
      * rewrite (IH _ fuel''); cbn [dec_i dec_j dec_k dec_result].
        -- rewrite (drop_S _ _ _ Hc), filter_is_letter_cons, Hl. cbn [map].
           unfold or_assign at 2. rewrite drop_insert_lt by lia.
           destruct (dec_result st !! dec_j st) as [r |] eqn:Hr.
           ++ rewrite (drop_S _ _ _ Hr). cbn [or_head].
              erewrite take_S_r.
              2:{ unfold or_assign. apply list_lookup_insert_eq. eapply lookup_lt_Some, Hr. }
              rewrite or_assign_take, Hr, <- app_assoc. reflexivity.
           ++ apply lookup_ge_None in Hr.
              unfold or_assign. rewrite list_insert_ge by lia.
              rewrite (take_ge _ (S (dec_j st))), (take_ge _ (dec_j st)) by lia.
              rewrite (drop_ge _ (S (dec_j st))), (drop_ge _ (dec_j st)) by lia.
              cbn [or_head]. rewrite dec_quintets_empty. reflexivity.
        -- lia.
        -- destruct (Z.ltb_spec (dec_k st - 8) 3); lia.
        -- rewrite (drop_S _ _ _ Hc), filter_is_letter_cons, Hl.
           cbn [length]. destruct (Z.ltb_spec (dec_k st - 8) 3); lia.
Qed.

Lemma filter_length_le {A : Type} (f : A -> bool) (l : list A) :
  (length (List.filter f l) <= length l)%nat.
Proof. induction l as [| a l IH]; cbn; [lia |]. destruct (f a); cbn; lia. Qed.

(** What [decode] returns on any text, by the letters in it. *)
Lemma decode_by_letters (l : list ascii) (fuel : nat) :
  (2 * length (List.filter is_letter l) <= fuel)%nat ->
  dec_result (decode_loop (decode_fuel (strip_padding l)) (strip_padding l)
                (decode_init (strip_padding l))) =
  dec_quintets fuel (map fromCharCode (List.filter is_letter l)) 0
    (replicate (decoded_length (length (strip_padding l))) 0).
Proof.
  intros Hfuel.
  rewrite (decode_loop_letters _ _ _ fuel); cbn [decode_init dec_i dec_j dec_k dec_result].
  - rewrite drop_0, filter_is_letter_strip. reflexivity.
  - lia.
  - unfold decode_fuel. change (0 <? 3) with true. cbv iota. lia.
  - rewrite drop_0, filter_is_letter_strip. change (0 <? 3) with true. cbv iota. lia.
Qed.

(** X4. [decode] skips the characters that are not in the alphabet, lower-case
    letters and white space included: they carry no bits and only make the
    buffer longer.  The bytes of the letters alone are the first bytes of
    what [decode] returns for the whole text. *)
Theorem base32_decode_letters_prefix (text : string) :
  let letters := List.filter is_letter (list_ascii_of_string text) in
  decode (string_of_list_ascii letters) =
  take (length letters * 5 / 8) (decode text).
Proof.
  cbn zeta. unfold decode. rewrite list_ascii_of_string_of_list_ascii.
  set (l := list_ascii_of_string text).
  pose proof (decode_by_letters l (2 * length l)) as Hall.
  pose proof (decode_by_letters (List.filter is_letter l) (2 * length l)) as Hletters.
  pose proof (filter_length_le is_letter l) as Hle.
  rewrite Hall by lia. rewrite Hletters by (rewrite filter_is_letter_idem; lia).
  rewrite filter_is_letter_idem, strip_padding_letters_only.
  rewrite take_dec_quintets, take_replicate. f_equal. f_equal.
  unfold decoded_length.
  assert (Hlen : (length (List.filter is_letter l) <= length (strip_padding l))%nat).
  { rewrite <- (filter_is_letter_strip l). apply filter_length_le. }
  assert (Hdiv : (length (List.filter is_letter l) * 5 / 8 <= length (strip_padding l) * 5 / 8)%nat).
  { apply Nat.Div0.div_le_mono. lia. }
  lia.
Qed.

End base32_more.

(** ** The request signer: headers, calls and parameters *)

Section headers_names.

Lemma lower_char_idem (c : ascii) : Str.lower_char (Str.lower_char c) = Str.lower_char c.
Proof. destruct c as [[] [] [] [] [] [] [] []]; reflexivity. Qed.

Lemma lower_idem (s : string) : Str.lower (Str.lower s) = Str.lower s.
Proof.
  induction s as [| c s IH]; [reflexivity |].
  cbn [Str.lower]. rewrite lower_char_idem, IH. reflexivity.
Qed.

Lemma put_lower_names name value h :
  Str.lower name = name -> lower_names h -> lower_names (Headers.put name value h).
Proof.
  intros Hname. unfold lower_names. induction 1 as [| [n v] h Hn Hh IH]; cbn [Headers.put].
  - repeat constructor. exact Hname.
  - destruct (String.eqb n name); [constructor; [exact Hname | exact Hh] |].
    destruct (String.ltb name n).
    + constructor; [exact Hname |]. constructor; [exact Hn | exact Hh].
    + constructor; [exact Hn | exact IH].
Qed.

Lemma set_lower_names h name value : lower_names h -> lower_names (Headers.set h name value).
Proof. intros Hh. unfold Headers.set. apply put_lower_names; [apply lower_idem | exact Hh]. Qed.

Lemma append_lower_names h name value :
  lower_names h -> lower_names (Headers.append h name value).
Proof.
  intros Hh. unfold Headers.append. destruct (Headers.get h name); apply set_lower_names, Hh.
Qed.

Lemma of_list_lower_names (init : list (string * string)) : lower_names (Headers.of_list init).
Proof.
  unfold Headers.of_list.
  assert (Hgen : forall h, lower_names h ->
                   lower_names (fold_left (fun h p => Headers.append h (fst p) (snd p)) init h)).
  { induction init as [| p init IH]; intros h Hh; [exact Hh |].
    cbn [fold_left]. apply IH, append_lower_names, Hh. }
  apply Hgen. constructor.
Qed.

Lemma delete_lower_names h name : lower_names h -> lower_names (Headers.delete h name).
Proof.
  unfold lower_names, Headers.delete. intros Hh.
  apply List.Forall_forall. intros kv Hin. apply List.filter_In in Hin as [Hin _].
  revert kv Hin. apply List.Forall_forall. exact Hh.
Qed.

End headers_names.

Lemma filter_filter_andb {A : Type} (f g : A -> bool) (l : list A) :
  List.filter f (List.filter g l) = List.filter (fun a => f a && g a) l.
Proof.
  induction l as [| a l IH]; [reflexivity |].
  cbn [List.filter]. destruct (g a); cbn [List.filter].
  - destruct (f a); cbn [andb]; rewrite IH; reflexivity.
  - rewrite andb_false_r. exact IH.
Qed.

(** *** [searchParams.sort()] *)

Lemma insert_param_perm (p : string * string) (ps : list (string * string)) :
  Permutation (insert_param p ps) (p :: ps).
Proof.
  induction ps as [| q ps IH]; [reflexivity |].
  cbn [insert_param]. destruct (String.leb (fst p) (fst q)); [reflexivity |].
  rewrite IH. apply perm_swap.
Qed.

Lemma sort_params_perm (ps : list (string * string)) : Permutation (sort_params ps) ps.
Proof.
  induction ps as [| p ps IH]; [reflexivity |].
  cbn [sort_params fold_right]. fold (sort_params ps).
  rewrite insert_param_perm, IH. reflexivity.
Qed.

Lemma insert_param_hd (p q : string * string) (ps : list (string * string)) :
  by_name q p -> HdRel by_name q ps -> HdRel by_name q (insert_param p ps).
Proof.
  intros Hqp Hq. destruct ps as [| r ps]; cbn [insert_param]; [constructor; exact Hqp |].
  destruct (String.leb (fst p) (fst r)); constructor; [exact Hqp |].
  inversion Hq; assumption.
Qed.

Lemma insert_param_sorted (p : string * string) (ps : list (string * string)) :
  Sorted by_name ps -> Sorted by_name (insert_param p ps).
Proof.
  induction 1 as [| q ps Hps IH Hq]; cbn [insert_param]; [repeat constructor |].
  destruct (String.leb (fst p) (fst q)) eqn:Hle.
  - constructor; [constructor; assumption | constructor; exact Hle].
  - constructor; [exact IH |]. apply insert_param_hd; [| exact Hq].
    unfold by_name. destruct (String.leb_total (fst p) (fst q)) as [Hpq | Hqp];
      [congruence | exact Hqp].
Qed.

Lemma sort_params_sorted (ps : list (string * string)) : Sorted by_name (sort_params ps).
Proof.
  induction ps as [| p ps IH]; [constructor |].
  cbn [sort_params fold_right]. fold (sort_params ps). apply insert_param_sorted, IH.
Qed.

Section signer_more.
Context `{Platform}.
Import Signer.

Lemma delete_lower (h : Headers.t) (key : string) :
  Str.lower key = key ->
  Headers.delete h key = List.filter (fun p => negb (String.eqb (fst p) key)) h.
Proof. intros Hkey. unfold Headers.delete. rewrite Hkey. reflexivity. Qed.

Lemma keys_elem (kv : string * string) (h : Headers.t) :
  In kv h -> fst kv ∈ Headers.keys h.
Proof.
  intros Hin. unfold Headers.keys. apply (list_elem_of_fmap_2 fst).
  apply list_elem_of_In. exact Hin.
Qed.

Lemma with_params_self (url : URL) : with_params url (url_searchParams url ++ []) = url.
Proof. destruct url. unfold with_params. cbn. rewrite app_nil_r. reflexivity. Qed.

(** The loop that hoists headers, by what it leaves and what it moves. *)
Lemma hoist_spec (entries : list (string * string)) (kept : gset string) :
  lower_names entries ->
  forall (url : URL) (headers : Headers.t),
    hoist entries kept url headers =
    (with_params url
       (url_searchParams url ++
        List.filter (fun kv => negb (bool_decide (fst kv ∈ kept))) entries),
     List.filter
       (fun kv => bool_decide (fst kv ∈ kept) ||
                  negb (bool_decide (fst kv ∈ Headers.keys entries)))
       headers).
Proof.
  induction 1 as [| [key value] entries Hkey Hentries IH]; intros url headers.
  - cbn [hoist List.filter]. rewrite with_params_self. f_equal.
    symmetry. apply forallb_filter_id. apply forallb_forall. intros kv _.
    cbn [Headers.keys map].
    rewrite (bool_decide_false (fst kv ∈ [])) by apply not_elem_of_nil. apply orb_true_r.
  - cbn [hoist List.filter fst]. cbn [fst] in Hkey.
    destruct (bool_decide (key ∈ kept)) eqn:Hin; cbn [negb].
    + rewrite IH. f_equal. apply List.filter_ext. intros kv.
      destruct (bool_decide (fst kv ∈ kept)) eqn:Hkv; [reflexivity |]. cbn [orb]. f_equal.
      apply bool_decide_ext. cbn [Headers.keys map fst]. rewrite elem_of_cons.
      split; [auto |]. intros [Heq | Hel]; [| exact Hel].
      rewrite Heq, Hin in Hkv. discriminate.
    + rewrite IH. unfold with_params, append_param. cbn [url_scheme url_host url_pathname
        url_searchParams]. rewrite <- app_assoc. cbn [app]. f_equal.
      rewrite (delete_lower _ _ Hkey), filter_filter_andb. apply List.filter_ext. intros kv.
      cbn [Headers.keys map fst].
      destruct (String.eqb_spec (fst kv) key) as [Heq | Hne]; cbn [negb].
      * rewrite Heq, Hin. cbn [orb].
        rewrite (bool_decide_true (key ∈ key :: map fst entries)) by (left).
        rewrite andb_false_r. reflexivity.
      * rewrite andb_true_r. f_equal. f_equal. apply bool_decide_ext.
        rewrite elem_of_cons. split; [auto |]. intros [Heq | Hel]; [contradiction | exact Hel].
Qed.

(** X5. Headers move to the query string only on request.  [getSignedUrl]
    adds the [host] header when the request has none; then every header
    whose name is outside [unhoistableHeaders] is appended to the query
    string, in the order of the headers, and taken out of the headers.  When
    [unhoistableHeaders] is not given it is the set of all the header names,
    and nothing moves. *)
Theorem getSignedUrl_hoists_headers (request : CanonicalRequest)
    (options : option RequestPresigningArguments) (init : list (string * string))
    (url : URL) :
  let headers :=
    if Headers.has (Headers.of_list init) "Host" then Headers.of_list init
    else Headers.set (Headers.of_list init) "Host" (url_host url) in
  let kept := option_field options unhoistableHeaders (list_to_set (Headers.keys headers)) in
  hoisted request options (Headers.of_list init) url =
    (with_params url
       (url_searchParams url ++
        List.filter (fun kv => negb (bool_decide (fst kv ∈ kept))) headers),
     List.filter (fun kv => bool_decide (fst kv ∈ kept)) headers) /\
  ((options = None \/ exists o, options = Some o /\ unhoistableHeaders o = None) ->
   hoisted request options (Headers.of_list init) url = (url, headers)).
Proof.
  cbn zeta.
  set (headers := if Headers.has (Headers.of_list init) "Host" then Headers.of_list init
                  else Headers.set (Headers.of_list init) "Host" (url_host url)).
  assert (Hlower : lower_names headers).
  { unfold headers. destruct (Headers.has _ _);
      [apply of_list_lower_names | apply set_lower_names, of_list_lower_names]. }
  assert (Hspec : forall kept,
             hoist (Headers.entries headers) kept url headers =
             (with_params url
                (url_searchParams url ++
                 List.filter (fun kv => negb (bool_decide (fst kv ∈ kept))) headers),
              List.filter (fun kv => bool_decide (fst kv ∈ kept)) headers)).
  { intros kept. rewrite (hoist_spec _ kept Hlower). f_equal.
    apply List.filter_ext_in. intros kv Hin.
    rewrite (bool_decide_true (fst kv ∈ Headers.keys (Headers.entries headers))).
    - apply orb_false_r.
    - apply keys_elem. exact Hin. }
  split; [apply Hspec |].
  intros Habsent.
  assert (Hkept : option_field options unhoistableHeaders (list_to_set (Headers.keys headers))
                  = list_to_set (Headers.keys headers)).
  { destruct Habsent as [-> | [o [-> Ho]]]; cbn; [| rewrite Ho]; reflexivity. }
  unfold hoisted. fold headers. rewrite Hkept, Hspec.
  assert (Hall : forall kv, In kv headers ->
               bool_decide (fst kv ∈ (list_to_set (Headers.keys headers) : gset string)) = true).
  { intros kv Hin. apply bool_decide_eq_true. apply elem_of_list_to_set.
    apply keys_elem. exact Hin. }
  f_equal.
  - rewrite (List.filter_ext_in _ (fun _ => false)), List.filter_false;
      [apply with_params_self |].
    intros kv Hin. rewrite (Hall kv Hin). reflexivity.
  - apply forallb_filter_id. apply forallb_forall. exact Hall.
Qed.

Lemma hoist_same_origin entries kept url headers :
  url_scheme (fst (hoist entries kept url headers)) = url_scheme url /\
  url_host (fst (hoist entries kept url headers)) = url_host url /\
  url_pathname (fst (hoist entries kept url headers)) = url_pathname url.
Proof.
  revert url headers. induction entries as [| [key value] entries IH]; intros url headers;
    cbn [hoist]; [auto |].
  destruct (bool_decide (key ∈ kept)); [apply IH |].
  destruct (IH (append_param url key value) (Headers.delete headers key)) as (-> & -> & ->).
  auto.
Qed.

(** X6. [getSignedUrl] calls the client at most twice: [getCredentials()], then
    [sign()] with the endpoint of the options, never the other way round
    and never a second time.  When it returns a URL it made both calls, and
    the last parameter of the URL is the signature that the client gave,
    in hexadecimal.  When [getCredentials()] is rejected, nothing is signed
    and the call is rejected with the same error. *)
Theorem getSignedUrl_signs_once (client : GoogleAuth) (request : CanonicalRequest)
    (options : option RequestPresigningArguments) :
  let m := getSignedUrl client request options in
  let endpoint := options ≫= signingEndpoint in
  (calls_of m = [] \/ calls_of m = [CallGetCredentials] \/
   exists payload, calls_of m = [CallGetCredentials; CallSign payload endpoint]) /\
  (forall url, outcome m = Ok url ->
     exists payload signature signed,
       calls_of m = [CallGetCredentials; CallSign payload endpoint] /\
       auth_sign client payload endpoint = Ok signature /\
       url_searchParams url =
         signed ++ [("X-Goog-Signature"%string, base64_to_hex signature)]) /\
  (forall e, auth_getCredentials client = Err e ->
     calls_of m = [] \/ (calls_of m = [CallGetCredentials] /\ outcome m = Err e)).
Proof.
  cbn zeta. split; [| split].
  - assert (Hendpoint : match options with Some o => signingEndpoint o | None => None end
                        = options ≫= signingEndpoint) by (destruct options; reflexivity).
    unfold getSignedUrl, outcome, calls_of, bind, lift, throw, await, ret.
    destruct (new_Headers (cr_headers request)) as [headers | e]; cbn [fst]; [| auto].
    destruct (new_URL (cr_url request)) as [url0 | e]; cbn [fst app]; [| auto].
    destruct (hoist _ _ _ _) as [url1 headers1].
    destruct (max_expiry <? _); cbn [fst app]; [auto |].
    destruct (auth_getCredentials client) as [credentials | e]; cbn [fst app]; [| auto].
    destruct (CredentialScope_toString _) as [scope | e]; cbn [fst app]; [| auto].
    destruct (toISOBasicString _) as [basic | e]; cbn [fst app]; [| auto].
    rewrite Hendpoint.
    destruct (auth_sign client _ _) as [signature | e]; cbn [fst app]; eauto.
  - intros url Hurl.
    apply getSignedUrl_ok_inv in Hurl
      as (headers0 & url0 & credentials & date & signature &
          _ & _ & _ & _ & _ & Hsign & Hcalls & ->).
    eexists. exists signature. eexists. split; [exact Hcalls |]. split; [exact Hsign |].
    reflexivity.
  - intros e He.
    unfold getSignedUrl, outcome, calls_of, bind, lift, throw, await, ret.
    destruct (new_Headers (cr_headers request)) as [headers | e']; cbn [fst]; [| auto].
    destruct (new_URL (cr_url request)) as [url0 | e']; cbn [fst app]; [| auto].
    destruct (hoist _ _ _ _) as [url1 headers1].
    destruct (max_expiry <? _); cbn [fst app]; [auto |].
    rewrite He. cbn. auto.
Qed.

(** X7. The query string of a signed URL.  Before the signature is appended the
    parameters are sorted by name, and they are the parameters that the URL
    had after the hoisting of headers together with [X-Goog-Algorithm],
    [X-Goog-Credential], [X-Goog-Date], [X-Goog-Expires] and
    [X-Goog-SignedHeaders], nothing lost and nothing added.  Scheme, host
    and path are those of the request. *)
Theorem getSignedUrl_parameters (client : GoogleAuth) (request : CanonicalRequest)
    (options : option RequestPresigningArguments) (url : URL) :
  outcome (getSignedUrl client request options) = Ok url ->
  exists headers0 url0 credential date signedHeaders signature signed,
    new_Headers (cr_headers request) = Ok headers0 /\
    new_URL (cr_url request) = Ok url0 /\
    url_searchParams url = signed ++ [("X-Goog-Signature"%string, signature)] /\
    Sorted by_name signed /\
    Permutation signed
      (url_searchParams (fst (hoisted request options headers0 url0)) ++
       [("X-Goog-Algorithm", "GOOG4-RSA-SHA256");
        ("X-Goog-Credential", credential);
        ("X-Goog-Date", date);
        ("X-Goog-Expires", pretty (option_field options expiresIn default_expiry));
        ("X-Goog-SignedHeaders", signedHeaders)]%string) /\
    url_scheme url = url_scheme url0 /\
    url_host url = url_host url0 /\
    url_pathname url = url_pathname url0.
Proof.
  intros Hurl.
  apply getSignedUrl_ok_inv in Hurl
    as (headers0 & url0 & credentials & date & signature &
        Hh & Hu & _ & _ & _ & _ & _ & ->).
  exists headers0, url0. eexists. exists date. eexists. exists (base64_to_hex signature).
  eexists. split; [exact Hh |]. split; [exact Hu |]. split; [reflexivity |].
  split; [apply sort_params_sorted |]. split; [apply sort_params_perm |].
  unfold with_params, hoisted. cbn [url_scheme url_host url_pathname].
  apply hoist_same_origin.
Qed.

(** X8. A signing date that is not a valid date is found out late: the
    credentials of the client have been fetched when [toISOString] throws
    its [RangeError], and nothing is signed. *)
Theorem getSignedUrl_invalid_date (client : GoogleAuth) (request : CanonicalRequest)
    (options : option RequestPresigningArguments) (headers : Headers.t) (url : URL)
    (credentials : Credentials) :
  new_Headers (cr_headers request) = Ok headers ->
  new_URL (cr_url request) = Ok url ->
  option_field options expiresIn default_expiry <= max_expiry ->
  auth_getCredentials client = Ok credentials ->
  option_field options signingDate Date_now = None ->
  getSignedUrl client request options =
    ([CallGetCredentials], Err (RangeError "Invalid time value")).
Proof.
  intros Hh Hu Hok Hc Hdate. apply Z.ltb_ge in Hok.
  unfold getSignedUrl, bind, lift, throw, await, ret.
  rewrite Hh, Hu. destruct (hoist _ _ _ _) as [url1 headers1]. rewrite Hok, Hc.
  unfold CredentialScope_toString. cbn [cs_date]. rewrite Hdate. reflexivity.
Qed.

Lemma drop_unsignable_sub fuel index unsignable signable headers kv :
  In kv (drop_unsignable fuel index unsignable signable headers) -> In kv headers.
Proof.
  revert index headers. induction fuel as [| fuel IH]; intros index headers; [auto |].
  cbn [drop_unsignable]. destruct (Headers.keys headers !! index) as [key |]; [| auto].
  destruct (_ && _); intros Hin; apply IH in Hin; [| exact Hin].
  unfold Headers.delete in Hin. apply List.filter_In in Hin. tauto.
Qed.

Lemma drop_unsignable_keeps fuel index unsignable signable headers kv :
  lower_names headers -> In kv headers ->
  fst kv ∉ unsignable \/ fst kv ∈ signable ->
  In kv (drop_unsignable fuel index unsignable signable headers).
Proof.
  revert index headers. induction fuel as [| fuel IH]; intros index headers Hlower Hin Hkv;
    [exact Hin |].
  cbn [drop_unsignable]. destruct (Headers.keys headers !! index) as [key |] eqn:Hkey;
    [| exact Hin].
  destruct (bool_decide (key ∈ unsignable) && negb (bool_decide (key ∈ signable))) eqn:Hdrop;
    [| apply IH; assumption].
  apply andb_true_iff in Hdrop as [Hu Hs].
  apply bool_decide_eq_true in Hu. apply negb_true_iff, bool_decide_eq_false in Hs.
  assert (Hkeylower : Str.lower key = key).
  { unfold Headers.keys in Hkey.
    apply (list_lookup_fmap_Some_1 fst) in Hkey as [entry [-> Hentry]].
    unfold lower_names in Hlower. rewrite Forall_lookup in Hlower.
    exact (Hlower _ _ Hentry). }
  apply IH; [apply delete_lower_names, Hlower | | exact Hkv].
  rewrite (delete_lower _ _ Hkeylower). apply List.filter_In. split; [exact Hin |].
  apply negb_true_iff, String.eqb_neq. intros Heq. rewrite Heq in Hkv. tauto.
Qed.

Lemma delete_length (h : Headers.t) (key : string) :
  (length (Headers.delete h key) <= length h)%nat.
Proof. unfold Headers.delete. apply List.filter_length_le. Qed.

(** The loop over [headers.keys()] ends by itself: once the index has
    passed the last name, more iterations change nothing. *)
Lemma drop_unsignable_fuel fuel fuel' index unsignable signable headers :
  (length headers <= index + fuel)%nat -> (length headers <= index + fuel')%nat ->
  drop_unsignable fuel index unsignable signable headers =
  drop_unsignable fuel' index unsignable signable headers.
Proof.
  revert fuel' index headers. induction fuel as [| fuel IH]; intros fuel' index headers Hf Hf'.
  - destruct fuel' as [| fuel']; [reflexivity |]. cbn [drop_unsignable].
    rewrite (proj2 (lookup_ge_None _ _)); [reflexivity |].
    unfold Headers.keys. rewrite length_fmap. lia.
  - destruct fuel' as [| fuel'].
    + cbn [drop_unsignable]. rewrite (proj2 (lookup_ge_None _ _)); [reflexivity |].
      unfold Headers.keys. rewrite length_fmap. lia.
    + cbn [drop_unsignable]. destruct (Headers.keys headers !! index) as [key |]; [| reflexivity].
      pose proof (delete_length headers key).
      destruct (_ && _); apply IH; lia.
Qed.

(** X9. The loop that takes the unsignable headers away only ever removes
    headers, and it never removes a header whose name is outside
    [unsignableHeaders] or inside [signableHeaders]: a name given in both
    sets is signed.  Without [unsignableHeaders] every header is signed.
    The iterations that [getSignedUrl] is given, one more than there are
    headers, are enough for the loop to end. *)
Theorem drop_unsignable_keeps_signable (fuel index : nat)
    (unsignable signable : gset string) (headers : Headers.t) :
  lower_names headers ->
  (forall kv,
      In kv (drop_unsignable fuel index unsignable signable headers) -> In kv headers) /\
  (forall kv,
      In kv headers -> fst kv ∉ unsignable \/ fst kv ∈ signable ->
      In kv (drop_unsignable fuel index unsignable signable headers)) /\
  drop_unsignable fuel index ∅ signable headers = headers /\
  (forall more,
      drop_unsignable (S (length headers) + more) 0 unsignable signable headers =
      drop_unsignable (S (length headers)) 0 unsignable signable headers).
Proof.
  intros Hlower. split; [| split; [| split]].
  - intros kv. apply drop_unsignable_sub.
  - intros kv Hin Hkv. apply drop_unsignable_keeps; assumption.
  - clear Hlower. revert index. induction fuel as [| fuel IH]; intros index; [reflexivity |].
    cbn [drop_unsignable]. destruct (Headers.keys headers !! index) as [key |]; [| reflexivity].
    rewrite (bool_decide_false (key ∈ (∅ : gset string))) by apply not_elem_of_empty.
    cbn [andb]. apply IH.
  - intros more. apply drop_unsignable_fuel; lia.
Qed.

Lemma delete_cons_other (x : string * string) (l : Headers.t) (key : string) :
  Str.lower key = key -> fst x <> key ->
  Headers.delete (x :: l) key = x :: Headers.delete l key.
Proof.
  intros Hkey Hne. rewrite !(delete_lower _ _ Hkey). cbn [List.filter].
  apply String.eqb_neq in Hne. rewrite Hne. reflexivity.
Qed.

Lemma delete_keys_sub (l : Headers.t) (key name : string) :
  name ∈ Headers.keys (Headers.delete l key) -> name ∈ Headers.keys l.
Proof.
  unfold Headers.keys, Headers.delete. intros Hin.
  apply list_elem_of_fmap_1 in Hin as [kv [-> Hkv]].
  apply list_elem_of_In, List.filter_In in Hkv as [Hkv _].
  apply (list_elem_of_fmap_2 fst), list_elem_of_In. exact Hkv.
Qed.

(** An iteration that has passed a header does not come back to it. *)
Lemma drop_unsignable_past (fuel index : nat) (unsignable signable : gset string)
    (x : string * string) (l : Headers.t) :
  lower_names l -> fst x ∉ Headers.keys l ->
  drop_unsignable fuel (S index) unsignable signable (x :: l) =
  x :: drop_unsignable fuel index unsignable signable l.
Proof.
  revert index l. induction fuel as [| fuel IH]; intros index l Hlower Hfresh; [reflexivity |].
  cbn [drop_unsignable]. cbn [Headers.keys map]. change ((?a :: ?r) !! S ?i) with (r !! i).
  fold (Headers.keys l).
  destruct (Headers.keys l !! index) as [key |] eqn:Hkey; [| reflexivity].
  assert (Hin : key ∈ Headers.keys l) by (eapply list_elem_of_lookup_2; exact Hkey).
  assert (Hkeylower : Str.lower key = key).
  { unfold Headers.keys in Hkey.
    apply (list_lookup_fmap_Some_1 fst) in Hkey as [entry [-> Hentry]].
    unfold lower_names in Hlower. rewrite Forall_lookup in Hlower.
    exact (Hlower _ _ Hentry). }
  destruct (_ && _).
  - rewrite delete_cons_other; [| exact Hkeylower | intros Heq; apply Hfresh; congruence].
    apply IH; [apply delete_lower_names, Hlower |].
    intros Hx. apply Hfresh. eapply delete_keys_sub, Hx.
  - apply IH; assumption.
Qed.

(** X10. Deleting while iterating.  The loop over [headers.keys()] deletes from
    the object it iterates over, and the iterator goes by position: when it
    removes a header, the header that follows takes its place and is never
    looked at.  So the header after an unsignable header stays and is
    signed, be it unsignable itself. *)
Theorem drop_unsignable_skips_next (unsignable signable : gset string)
    (k1 v1 k2 v2 : string) (rest : Headers.t) :
  lower_names ((k1, v1) :: (k2, v2) :: rest) ->
  NoDup (Headers.keys ((k1, v1) :: (k2, v2) :: rest)) ->
  k1 ∈ unsignable -> k1 ∉ signable ->
  exists rest',
    drop_unsignable (S (length ((k1, v1) :: (k2, v2) :: rest))) 0 unsignable signable
      ((k1, v1) :: (k2, v2) :: rest) = (k2, v2) :: rest'.
Proof.
  intros Hlower Hnodup Hu Hs. cbn [drop_unsignable Headers.keys map fst].
  change (((k1 :: ?r) : list string) !! 0%nat) with (Some k1). cbv iota beta.
  rewrite (bool_decide_true _ Hu), (bool_decide_false _ Hs). cbn [negb andb].
  apply Forall_cons in Hlower as [Hk1 Hlower]. cbn [fst] in Hk1.
  apply NoDup_cons in Hnodup as [Hfresh1 Hnodup].
  apply NoDup_cons in Hnodup as [Hfresh2 Hnodup].
  assert (Hne : k1 <> k2) by (intros ->; apply Hfresh1; left).
  rewrite (delete_lower _ _ Hk1). cbn [List.filter fst].
  rewrite String.eqb_refl. cbn [negb].
  apply not_eq_sym, String.eqb_neq in Hne. rewrite Hne. cbn [negb].
  rewrite drop_unsignable_past.
  - eexists. reflexivity.
  - fold (Headers.delete rest k1). rewrite <- (delete_lower _ _ Hk1).
    apply delete_lower_names. apply Forall_cons in Hlower as [_ Hlower]. exact Hlower.
  - cbn [fst]. intros Hin. apply Hfresh2.
    rewrite <- (delete_lower _ _ Hk1) in Hin. eapply delete_keys_sub, Hin.
Qed.

(** *** The basic ISO 8601 format *)

Lemma is_digit_plain (c : ascii) :
  Str.is_digit c = true ->
  Ascii.eqb c "."%char = false /\ Ascii.eqb c "-"%char = false /\ Ascii.eqb c ":"%char = false.
Proof.
  intros Hc. repeat split; apply Ascii.eqb_neq; intros ->; vm_compute in Hc; discriminate Hc.
Qed.

Lemma remove_dash_colon_app (a b : string) :
  Str.remove_dash_colon (a +:+ b) = Str.remove_dash_colon a +:+ Str.remove_dash_colon b.
Proof.
  induction a as [| c a IH]; [reflexivity |].
  change (String c a +:+ b) with (String c (a +:+ b)). cbn [Str.remove_dash_colon].
  rewrite IH. destruct (_ || _); reflexivity.
Qed.

Lemma remove_dash_colon_digits (d : string) :
  Str.all_digits d = true -> Str.remove_dash_colon d = d.
Proof.
  induction d as [| c d IH]; [reflexivity |]. cbn [Str.all_digits Str.remove_dash_colon].
  intros Hd. apply andb_true_iff in Hd as [Hc Hd].
  destruct (is_digit_plain c Hc) as (_ & -> & ->). cbn [orb]. rewrite (IH Hd). reflexivity.
Qed.

Lemma remove_fraction_cons (c : ascii) (s : string) :
  Ascii.eqb c "."%char = false ->
  Str.remove_fraction (String c s) = String c (Str.remove_fraction s).
Proof. intros Hc. cbn [Str.remove_fraction]. rewrite Hc. destruct s; reflexivity. Qed.

Lemma remove_fraction_digits (d rest : string) :
  Str.all_digits d = true ->
  Str.remove_fraction (d +:+ rest) = d +:+ Str.remove_fraction rest.
Proof.
  induction d as [| c d IH]; [reflexivity |]. cbn [Str.all_digits].
  intros Hd. apply andb_true_iff in Hd as [Hc Hd].
  change (String c d +:+ rest) with (String c (d +:+ rest)).
  rewrite remove_fraction_cons by apply (is_digit_plain c Hc). rewrite (IH Hd). reflexivity.
Qed.

Lemma drop_digits_then (d rest : string) :
  Str.all_digits d = true -> Str.drop_digits (d +:+ rest) = Str.drop_digits rest.
Proof.
  induction d as [| c d IH]; [reflexivity |]. cbn [Str.all_digits].
  intros Hd. apply andb_true_iff in Hd as [Hc Hd].
  change (String c d +:+ rest) with (String c (d +:+ rest)). cbn [Str.drop_digits].
  rewrite Hc. exact (IH Hd).
Qed.

Lemma string_append_assoc (a b c : string) : (a +:+ b) +:+ c = a +:+ (b +:+ c).
Proof.
  induction a as [| x a IH]; [reflexivity |].
  change (String x ((a +:+ b) +:+ c) = String x (a +:+ (b +:+ c))). rewrite IH. reflexivity.
Qed.

Lemma slice0_prefix (n : nat) (p rest : string) :
  String.length p = n -> Str.slice0 n (p +:+ rest) = p.
Proof.
  unfold Str.slice0. revert n. induction p as [| c p IH]; intros n Hn; cbn in Hn; subst n.
  - destruct rest; reflexivity.
  - change (String c p +:+ rest) with (String c (p +:+ rest)). cbn [String.substring String.length].
    rewrite IH by reflexivity. reflexivity.
Qed.

(** X11. With the format that [toISOString] has for the years 0 to 9999,
    [YYYY-MM-DDTHH:mm:ss.sssZ], [toISOBasicString] is the basic format
    [YYYYMMDDTHHmmssZ], without the milliseconds, and the credential scope
    begins with the eight digits of the day. *)
Theorem toISOBasicString_format (t : Z) (YYYY MM DD hh mm ss sss : string)
    (location service requestType : string) :
  toISOString t =
    YYYY +:+ "-" +:+ MM +:+ "-" +:+ DD +:+ "T" +:+ hh +:+ ":" +:+ mm +:+ ":" +:+ ss +:+
    "." +:+ sss +:+ "Z" ->
  Str.all_digits YYYY = true -> Str.all_digits MM = true -> Str.all_digits DD = true ->
  Str.all_digits hh = true -> Str.all_digits mm = true -> Str.all_digits ss = true ->
  Str.all_digits sss = true -> sss <> ""%string ->
  String.length YYYY = 4%nat -> String.length MM = 2%nat -> String.length DD = 2%nat ->
  toISOBasicString (Some t) =
    Ok (YYYY +:+ MM +:+ DD +:+ "T" +:+ hh +:+ mm +:+ ss +:+ "Z") /\
  CredentialScope_toString
    {| cs_date := Some t; cs_location := location; cs_service := service;
       cs_requestType := requestType |} =
    Ok (YYYY +:+ MM +:+ DD +:+ "/" +:+ location +:+ "/" +:+ service +:+ "/" +:+ requestType).
Proof.
  intros Hiso HY HM HD Hh Hm Hs Hf Hne LY LM LD.
  assert (Hbasic : toISOBasicString (Some t) =
                   Ok (YYYY +:+ MM +:+ DD +:+ "T" +:+ hh +:+ mm +:+ ss +:+ "Z")).
  { unfold toISOBasicString. rewrite Hiso. f_equal.
    rewrite (remove_fraction_digits YYYY) by exact HY.
    change ("-" +:+ ?s) with (String "-" s). rewrite remove_fraction_cons by reflexivity.
    rewrite (remove_fraction_digits MM) by exact HM.
    change ("-" +:+ ?s) with (String "-" s). rewrite remove_fraction_cons by reflexivity.
    rewrite (remove_fraction_digits DD) by exact HD.
    change ("T" +:+ ?s) with (String "T" s). rewrite remove_fraction_cons by reflexivity.
    rewrite (remove_fraction_digits hh) by exact Hh.
    change (":" +:+ ?s) with (String ":" s). rewrite remove_fraction_cons by reflexivity.
    rewrite (remove_fraction_digits mm) by exact Hm.
    change (":" +:+ ?s) with (String ":" s). rewrite remove_fraction_cons by reflexivity.
    rewrite (remove_fraction_digits ss) by exact Hs.
    assert (Hfrac : Str.remove_fraction ("." +:+ sss +:+ "Z") = "Z"%string).
    { destruct sss as [| c sss]; [contradiction |]. cbn [Str.all_digits] in Hf.
      apply andb_true_iff in Hf as [Hc Hf].
      change ("." +:+ String c sss +:+ "Z") with (String "." (String c (sss +:+ "Z"))).
      cbn [Str.remove_fraction]. rewrite Hc. cbn [Ascii.eqb andb Bool.eqb].
      change (Str.drop_digits (String c (sss +:+ "Z")) = "Z"%string).
      cbn [Str.drop_digits]. rewrite Hc. rewrite (drop_digits_then sss) by exact Hf.
      reflexivity. }
    rewrite Hfrac.
    assert (Hdash : forall s, Str.remove_dash_colon (String "-" s) = Str.remove_dash_colon s)
      by reflexivity.
    assert (Hcolon : forall s, Str.remove_dash_colon (String ":" s) = Str.remove_dash_colon s)
      by reflexivity.
    assert (HT : forall s, Str.remove_dash_colon (String "T" s)
                           = String "T" (Str.remove_dash_colon s)) by reflexivity.
    rewrite (remove_dash_colon_app YYYY), Hdash, (remove_dash_colon_app MM), Hdash,
      (remove_dash_colon_app DD), HT, (remove_dash_colon_app hh), Hcolon,
      (remove_dash_colon_app mm), Hcolon, (remove_dash_colon_app ss).
    rewrite !remove_dash_colon_digits by assumption. reflexivity. }
  split; [exact Hbasic |].
  unfold CredentialScope_toString. cbn [cs_date cs_location cs_service cs_requestType].
  rewrite Hbasic.
  replace (YYYY +:+ MM +:+ DD +:+ "T" +:+ hh +:+ mm +:+ ss +:+ "Z")
    with ((YYYY +:+ MM +:+ DD) +:+ "T" +:+ hh +:+ mm +:+ ss +:+ "Z").
  2:{ rewrite !string_append_assoc. reflexivity. }
  rewrite slice0_prefix.
  2:{ rewrite !string_length_append. lia. }
  f_equal. unfold Str.join. cbn [String.concat].
  rewrite !string_append_assoc. reflexivity.
Qed.

End signer_more.

(** ** The GCS backend: listings, metadata and uploads *)

Section strings_replace.

Lemma prefix_append (p s : string) : String.prefix p (p +:+ s) = true.
Proof.
  induction p as [| c p IH]; [destruct s; reflexivity |].
  change (String c p +:+ s) with (String c (p +:+ s)). cbn [String.prefix].
  destruct (ascii_dec c c) as [_ | Hne]; [exact IH | contradiction].
Qed.

Lemma substring_all (s : string) (n : nat) :
  (String.length s <= n)%nat -> String.substring 0 n s = s.
Proof.
  revert n. induction s as [| c s IH]; intros n Hn; [destruct n; reflexivity |].
  destruct n as [| n]; [cbn in Hn; lia |]. cbn [String.substring].
  rewrite IH by (cbn in Hn; lia). reflexivity.
Qed.

Lemma substring_append (p s : string) (n : nat) :
  String.substring (String.length p) n (p +:+ s) = String.substring 0 n s.
Proof.
  induction p as [| c p IH]; [reflexivity |].
  change (String c p +:+ s) with (String c (p +:+ s)). cbn [String.length String.substring].
  exact IH.
Qed.

Lemma replace_first_unfold (pattern replacement s : string) :
  Str.replace_first pattern replacement s =
  if String.prefix pattern s
  then replacement +:+ String.substring (String.length pattern) (String.length s) s
  else match s with
       | EmptyString => EmptyString
       | String c s' => String c (Str.replace_first pattern replacement s')
       end.
Proof. destruct s; reflexivity. Qed.

(** [(p + s).replace(p, '')] is [s]. *)
Lemma replace_first_prefix (p s : string) : Str.replace_first p "" (p +:+ s) = s.
Proof.
  rewrite replace_first_unfold, prefix_append, substring_append.
  change ("" +:+ ?x) with x. apply substring_all.
  rewrite string_length_append. lia.
Qed.

Lemma includes_unfold (needle s : string) :
  Str.includes needle s =
  String.prefix needle s ||
  match s with
  | EmptyString => false
  | String _ s' => Str.includes needle s'
  end.
Proof. destruct s; reflexivity. Qed.

(** Without a slash, [s.replace('/', '')] is [s]. *)
Lemma replace_first_absent (s : string) :
  Str.includes "/" s = false -> Str.replace_first "/" "" s = s.
Proof.
  induction s as [| c s IH]; [reflexivity |].
  rewrite includes_unfold, replace_first_unfold. intros Hs.
  apply orb_false_iff in Hs as [-> Hs]. rewrite (IH Hs). reflexivity.
Qed.

(** [s.replace('/', '')] takes the first slash away and no other. *)
Lemma replace_first_slash (segment tail : string) :
  Str.includes "/" segment = false ->
  Str.replace_first "/" "" (segment +:+ "/" +:+ tail) = segment +:+ tail.
Proof.
  induction segment as [| c segment IH].
  - intros _. change ("" +:+ "/" +:+ tail) with ("/" +:+ tail).
    apply (replace_first_prefix "/" tail).
  - rewrite includes_unfold. intros Hs. apply orb_false_iff in Hs as [Hc Hs].
    change (String c segment +:+ "/" +:+ tail) with (String c (segment +:+ "/" +:+ tail)).
    rewrite replace_first_unfold.
    assert (Hp : String.prefix "/" (String c (segment +:+ "/" +:+ tail)) = false).
    { cbn [String.prefix] in Hc |- *. destruct (ascii_dec "/" c); [| reflexivity].
      destruct segment; discriminate Hc. }
    rewrite Hp, (IH Hs). reflexivity.
Qed.

End strings_replace.

Section gcs_more.
Context `{Platform}.
Import GCS.

Lemma map_entries_fails {A B : Type} (f : A -> result B) (entries : Datatypes.list A)
    (P : Error -> Prop) (a : A) :
  (forall a' e, f a' = Err e -> P e) ->
  In a entries -> (exists e, f a = Err e) ->
  exists e, map_entries f entries = Err e /\ P e.
Proof.
  intros Hall Hin [e0 Ha]. induction entries as [| a' entries IH]; [destruct Hin |].
  cbn [map_entries]. destruct (f a') as [b | e] eqn:Ha'; [| eauto].
  destruct Hin as [-> | Hin]; [congruence |].
  destruct (IH Hin) as (e & -> & He). eauto.
Qed.

(** X12. With a prefix, the name of a listed object is its key with the first
    occurrence of the prefix taken away and then the first slash.  For a
    key that starts with the prefix, the slash that goes is the first one
    after the prefix, wherever it is: under the prefix [folder] the key
    [folder/a.txt] is named [a.txt], and under the prefix [folder/] the key
    [folder/a/b.txt] is named [ab.txt].  A remainder without a slash is the
    name as it is.  The size is the size of the object.  That is for a key
    that the parser returns as a string: a key that reads as a number or as
    a boolean has no [replace], and one such entry among those that the
    date filter keeps makes the whole listing fail with a [TypeError], after
    its one request. *)
Theorem list_strips_prefix (options : option ListOptions) (prefix : string)
    (object : ListEntry) :
  list_prefix options = Some prefix ->
  (forall segment tail,
      le_Key object = TagString (prefix +:+ segment +:+ "/" +:+ tail) ->
      Str.includes "/" segment = false ->
      list_entry options object =
        Ok {| lk_name := TagString (segment +:+ tail); lk_size := le_Size object |}) /\
  (forall rest,
      le_Key object = TagString (prefix +:+ rest) ->
      Str.includes "/" rest = false ->
      list_entry options object =
        Ok {| lk_name := TagString rest; lk_size := le_Size object |}) /\
  ((forall key, le_Key object <> TagString key) ->
   (exists message, list_entry options object = Err (TypeError message)) /\
   forall backend bucketName response data contents,
     auth_request (client backend) (list_request backend bucketName options) = Ok response ->
     rs_error response = None ->
     parse_ListBucketResult (rs_data response) = Some data ->
     lbr_Contents data = Some contents ->
     In object (List.filter (list_keep options) contents) ->
     exists message,
       list backend bucketName options =
         ([CallRequest (list_request backend bucketName options)],
          Err (TypeError message))).
Proof.
  intros Hprefix. split; [| split].
  - intros segment tail Hkey Hsegment. unfold list_entry. rewrite Hprefix, Hkey.
    rewrite replace_first_prefix, (replace_first_slash _ _ Hsegment). reflexivity.
  - intros rest Hkey Hrest. unfold list_entry. rewrite Hprefix, Hkey.
    rewrite replace_first_prefix, (replace_first_absent _ Hrest). reflexivity.
  - intros Hother.
    assert (Hfails : exists message, list_entry options object = Err (TypeError message)).
    { unfold list_entry. rewrite Hprefix.
      destruct (le_Key object) as [key | n | b]; [| eauto ..].
      exfalso. exact (Hother key eq_refl). }
    split; [exact Hfails |].
    intros backend bucketName response data contents Hr He Hp Hc Hin.
    rewrite (list_page _ _ _ _ _ _ Hr He Hp Hc).
    destruct (map_entries_fails (list_entry options)
                (List.filter (list_keep options) contents)
                (fun e => exists message, e = TypeError message) object)
      as (e & -> & message & ->).
    + intros object' e. unfold list_entry. rewrite Hprefix.
      destruct (le_Key object'); intros [= <-]; eauto.
    + exact Hin.
    + destruct Hfails as [message Hm]. eauto.
    + eauto.
Qed.

Lemma list_keep_all (options : option ListOptions) (contents : Datatypes.list ListEntry) :
  list_beforeDate options = None ->
  List.filter (list_keep options) contents = contents.
Proof.
  intros Hnone. apply forallb_filter_id, forallb_forall. intros object _.
  unfold list_keep. rewrite Hnone. destruct (le_LastModified object); reflexivity.
Qed.

(** X13. Without [beforeDate] a listing returns one key for every entry of the
    document, in the order of the document, and without a prefix either
    the keys are the entries as they are; with or without [beforeDate], an
    entry that has no modification time is never filtered out. *)
Theorem list_keeps_undated (backend : GCSBackend) (bucketName : string)
    (options : option ListOptions) :
  (list_beforeDate options = None ->
   forall response data contents,
     auth_request (client backend) (list_request backend bucketName options) = Ok response ->
     rs_error response = None ->
     parse_ListBucketResult (rs_data response) = Some data ->
     lbr_Contents data = Some contents ->
     outcome (list backend bucketName options) =
       match map_entries (list_entry options) contents with
       | Ok keys => Ok {| lp_keys := keys; lp_nextToken := lbr_NextContinuationToken data |}
       | Err e => Err e
       end /\
     (forall page,
         outcome (list backend bucketName options) = Ok page ->
         Forall2 (fun object key => list_entry options object = Ok key)
           contents (lp_keys page)) /\
     (list_prefix options = None ->
      outcome (list backend bucketName options) =
        Ok {| lp_keys :=
                map (fun object => {| lk_name := le_Key object; lk_size := le_Size object |})
                  contents;
              lp_nextToken := lbr_NextContinuationToken data |})) /\
  (forall object,
      le_LastModified object = None \/ le_LastModified object = Some ""%string ->
      list_keep options object = true).
Proof.
  split.
  - intros Hnone response data contents Hr He Hp Hc.
    rewrite (list_page _ _ _ _ _ _ Hr He Hp Hc), (list_keep_all _ _ Hnone).
    unfold outcome. cbn [snd]. split; [reflexivity |]. split.
    + intros page. destruct (map_entries _ _) as [keys | e] eqn:Hkeys; [| discriminate].
      intros [= <-]. apply map_entries_ok. exact Hkeys.
    + intros Hprefix.
      assert (Hkeys : map_entries (list_entry options) contents =
                      Ok (map (fun object => {| lk_name := le_Key object;
                                                lk_size := le_Size object |}) contents)).
      { apply map_entries_ok. clear Hc. induction contents as [| object contents IH];
          constructor; [| exact IH].
        unfold list_entry. rewrite Hprefix. reflexivity. }
      rewrite Hkeys. reflexivity.
  - intros object [Hm | Hm]; unfold list_keep; rewrite Hm; [reflexivity |].
    destruct (list_beforeDate options); reflexivity.
Qed.

(** X14. Dates that are not dates.  When [beforeDate] is given, an entry whose
    modification time does not parse is left out of the listing, and when
    [beforeDate] itself is an invalid date every entry that has a
    modification time is left out: a comparison with [NaN] is false. *)
Theorem list_invalid_dates (options : option ListOptions) (object : ListEntry)
    (modified : string) :
  le_LastModified object = Some modified -> modified <> ""%string ->
  (list_beforeDate options = Some None -> list_keep options object = false) /\
  (forall beforeDate,
      list_beforeDate options = Some beforeDate -> Date_parse modified = None ->
      list_keep options object = false).
Proof.
  intros Hm Hne. apply String.eqb_neq in Hne. unfold list_keep. rewrite Hm. split.
  - intros ->. rewrite Hne. destruct (Date_parse modified); reflexivity.
  - intros beforeDate -> ->. rewrite Hne. reflexivity.
Qed.

(** X15. The listing of an empty bucket.  A document without [Contents] gives
    no keys, with the continuation token of the document; a document
    without [ListBucketResult] makes [list] fail with a [TypeError].  In
    both cases one request was sent. *)
Theorem list_without_contents (backend : GCSBackend) (bucketName : string)
    (options : option ListOptions) (response : Response) :
  auth_request (client backend) (list_request backend bucketName options) = Ok response ->
  rs_error response = None ->
  (forall data,
      parse_ListBucketResult (rs_data response) = Some data ->
      lbr_Contents data = None ->
      list backend bucketName options =
        ([CallRequest (list_request backend bucketName options)],
         Ok {| lp_keys := []; lp_nextToken := lbr_NextContinuationToken data |})) /\
  (parse_ListBucketResult (rs_data response) = None ->
   calls_of (list backend bucketName options) =
     [CallRequest (list_request backend bucketName options)] /\
   exists message, outcome (list backend bucketName options) = Err (TypeError message)).
Proof.
  intros Hr He. split.
  - intros data Hp Hc. unfold list. rewrite (send_ok _ _ _ Hr He). unfold bind, lift, ret.
    rewrite Hp, Hc. reflexivity.
  - intros Hp. unfold list. rewrite (send_ok _ _ _ Hr He). unfold bind, calls_of, outcome.
    rewrite Hp. cbn. eauto.
Qed.

(** *** Metadata *)

Lemma append_renamed (h : Headers.t) (name name' value : string) :
  Str.lower name' = Str.lower name ->
  Headers.append h name' value = Headers.append h name value.
Proof.
  intros Hname. unfold Headers.append, Headers.get, Headers.set. rewrite Hname. reflexivity.
Qed.

Lemma of_list_renamed (rename : string -> string) (init : Datatypes.list (string * string)) :
  (forall name, Str.lower (rename name) = Str.lower name) ->
  Headers.of_list (map (fun kv => (rename (fst kv), snd kv)) init) = Headers.of_list init.
Proof.
  intros Hrename. unfold Headers.of_list. generalize ([] : Headers.t).
  induction init as [| [name value] init IH]; intros h; [reflexivity |].
  cbn [map fold_left fst snd]. rewrite (append_renamed h name (rename name) value (Hrename name)).
  apply IH.
Qed.

(** A name is a header name in whatever case its letters are. *)
Lemma is_token_char_lower (c : ascii) :
  Headers.is_token_char (Str.lower_char c) = Headers.is_token_char c.
Proof. destruct c as [[] [] [] [] [] [] [] []]; reflexivity. Qed.

Lemma name_ok_lower (name : string) : Headers.name_ok (Str.lower name) = Headers.name_ok name.
Proof.
  unfold Headers.name_ok. f_equal.
  - destruct name; reflexivity.
  - induction name as [| c name IH]; [reflexivity |].
    cbn [Str.lower Headers.all_token]. rewrite is_token_char_lower, IH. reflexivity.
Qed.

Lemma acceptable_renamed (rename : string -> string)
    (init : Datatypes.list (string * string)) :
  (forall name, Str.lower (rename name) = Str.lower name) ->
  acceptable (map (fun kv => (rename (fst kv), snd kv)) init) = acceptable init.
Proof.
  intros Hrename. unfold acceptable. induction init as [| [name value] init IH];
    [reflexivity |].
  cbn [map forallb fst snd]. rewrite IH. f_equal. f_equal.
  rewrite <- (name_ok_lower (rename name)), Hrename. apply name_ok_lower.
Qed.

Lemma new_Headers_renamed (rename : string -> string)
    (init : Datatypes.list (string * string)) :
  (forall name, Str.lower (rename name) = Str.lower name) ->
  new_Headers (map (fun kv => (rename (fst kv), snd kv)) init) = new_Headers init.
Proof.
  intros Hrename. destruct (acceptable init) eqn:Hok.
  - rewrite (new_Headers_accepts init Hok), new_Headers_accepts
      by (rewrite (acceptable_renamed _ _ Hrename); exact Hok).
    f_equal.
    assert (Hentries :
              normalized_entries (map (fun kv => (rename (fst kv), snd kv)) init) =
              map (fun kv => (rename (fst kv), snd kv)) (normalized_entries init))
      by (unfold normalized_entries; rewrite !map_map; reflexivity).
    rewrite Hentries. apply of_list_renamed. exact Hrename.
  - unfold new_Headers. generalize ([] : Headers.t).
    induction init as [| [name value] init IH]; intros h; [discriminate |].
    cbn [acceptable forallb fst snd] in Hok. cbn [map Headers.fill fst snd].
    rewrite <- (name_ok_lower (rename name)), Hrename, name_ok_lower.
    destruct (Headers.name_ok name); cbn [negb]; [| reflexivity].
    destruct (Headers.value_ok (Headers.normalize value)); cbn [negb]; [| reflexivity].
    rewrite (append_renamed h name (rename name) _ (Hrename name)).
    apply IH. exact Hok.
Qed.

(** X16. The metadata of a response does not depend on the letter case in which
    the response spells the names of its headers, nor does the refusal of
    its headers. *)
Theorem buildMetadata_ignores_name_case (response : Response) (rename : string -> string) :
  (forall name, Str.lower (rename name) = Str.lower name) ->
  buildMetadata
    {| rs_status := rs_status response;
       rs_headers := map (fun kv => (rename (fst kv), snd kv)) (rs_headers response);
       rs_data := rs_data response;
       rs_error := rs_error response |} =
  buildMetadata response.
Proof.
  intros Hrename. unfold buildMetadata. cbn [rs_status rs_headers].
  rewrite (new_Headers_renamed rename _ Hrename). reflexivity.
Qed.

Lemma or_string_not_empty (value : option string) (fallback : string) :
  fallback <> ""%string -> or_string value fallback <> ""%string.
Proof.
  intros Hf. unfold or_string. destruct value as [s |]; [| exact Hf].
  destruct (String.eqb_spec s ""); assumption.
Qed.

Lemma buildMetadata_filled (response : Response) (m : ObjectMetadata) :
  buildMetadata response = Ok m ->
  mimetype m <> ""%string /\
  cacheControl m <> ""%string /\
  size m = contentLength m /\
  httpStatusCode m = rs_status response.
Proof.
  intros Hm. apply buildMetadata_ok in Hm as [_ ->].
  unfold metadata_of. cbn [mimetype cacheControl size contentLength httpStatusCode].
  repeat split; apply or_string_not_empty; discriminate.
Qed.

(** X17. Whatever the backend answers, the metadata that [getObject],
    [headObject], [uploadObject] and [copyObject] return has a mimetype and
    a cache control that are not empty: an empty header counts as a missing
    one.  [size] and [contentLength] are the same number, and the status
    that [getObject] returns beside the metadata is the status in it. *)
Theorem metadata_is_filled (backend : GCSBackend) (bucketName key : string)
    (version : option string) :
  (forall headers r,
      outcome (getObject backend bucketName key version headers) = Ok r ->
      mimetype (or_metadata r) <> ""%string /\ cacheControl (or_metadata r) <> ""%string /\
      size (or_metadata r) = contentLength (or_metadata r) /\
      httpStatusCode (or_metadata r) = or_httpStatusCode r) /\
  (forall m,
      outcome (headObject backend bucketName key version) = Ok m ->
      mimetype m <> ""%string /\ cacheControl m <> ""%string /\ size m = contentLength m) /\
  (forall body contentType cacheControl' m,
      outcome (uploadObject backend bucketName key version body contentType cacheControl')
        = Ok m ->
      mimetype m <> ""%string /\ cacheControl m <> ""%string /\ size m = contentLength m) /\
  (forall destination destinationVersion metadata conditions m,
      outcome (copyObject backend bucketName key version destination destinationVersion
                 metadata conditions) = Ok m ->
      mimetype m <> ""%string /\ cacheControl m <> ""%string /\ size m = contentLength m).
Proof.
  split; [| split; [| split]].
  - intros headers r. unfold getObject, bind, lift, ret, outcome.
    destruct (send backend _) as [calls [response | e]]; cbn; [| discriminate].
    destruct (buildMetadata response) as [m | e] eqn:Hm; cbn; [| discriminate].
    intros [= <-]. cbn [or_metadata or_httpStatusCode].
    apply (buildMetadata_filled response m Hm).
  - intros m Hm. apply headObject_normalized in Hm as [response [_ Hm]].
    pose proof (buildMetadata_filled response m Hm). tauto.
  - intros body contentType cacheControl' m. unfold uploadObject, bind, outcome.
    destruct (send backend _) as [calls [response | e]]; cbn; [| discriminate].
    destruct (headObject backend bucketName key version) as [calls' [m' | e]] eqn:Hh;
      cbn; [| discriminate].
    intros [= <-].
    assert (Hm : outcome (headObject backend bucketName key version) = Ok m')
      by (unfold outcome; rewrite Hh; reflexivity).
    apply headObject_normalized in Hm as [response' [_ Hm]].
    pose proof (buildMetadata_filled response' m' Hm). tauto.
  - intros destination destinationVersion metadata conditions m.
    unfold copyObject, bind, lift, outcome.
    destruct (send backend _) as [calls [response | e]]; cbn; [| discriminate].
    intros Hm. pose proof (buildMetadata_filled response m Hm). tauto.
Qed.

(** X18. [uploadObject] sends the [PUT] and then asks for the metadata with a
    [HEAD]: the metadata it returns is that of the answer to the [HEAD], not
    what the caller passed.  When the [PUT] fails no [HEAD] is sent. *)
Theorem uploadObject_put_then_head (backend : GCSBackend) (bucketName key : string)
    (version : option string) (body contentType cacheControl : string) :
  let put :=
    {| rq_method := "PUT";
       rq_url := object_url bucketName (withOptionalVersion key version);
       rq_headers := [("Cache-Control"%string, Some cacheControl);
                      ("Content-Type"%string, Some contentType)];
       rq_responseType := None; rq_data := Some body; rq_retry := retry backend |} in
  let head := head_request backend bucketName key version in
  let upload := uploadObject backend bucketName key version body contentType cacheControl in
  (forall m,
      outcome upload = Ok m ->
      calls_of upload = [CallRequest put; CallRequest head] /\
      exists response,
        auth_request (client backend) head = Ok response /\ buildMetadata response = Ok m) /\
  (forall e,
      outcome (send backend put) = Err e ->
      upload = ([CallRequest put], Err e)).
Proof.
  cbn zeta. split.
  - intros m. unfold uploadObject, headObject, send, await, bind, lift, outcome, calls_of, ret.
    destruct (auth_request (client backend) _) as [response | e]; cbn; [| discriminate].
    destruct (rs_error response); cbn; [discriminate |].
    destruct (auth_request (client backend) (head_request _ _ _ _)) as [response' | e] eqn:Hh;
      cbn; [| discriminate].
    destruct (rs_error response'); cbn; [discriminate |].
    destruct (buildMetadata response') as [m' | e] eqn:Hm; cbn; [| discriminate].
    intros [= <-]. split; [reflexivity |]. exists response'. split; [reflexivity | exact Hm].
  - intros e. unfold uploadObject, send, await, bind, outcome, ret.
    destruct (auth_request (client backend) _) as [response | e']; cbn.
    + destruct (rs_error response); cbn; [| discriminate]. intros [= ->]. reflexivity.
    + intros [= ->]. reflexivity.
Qed.

Lemma send_fails (backend : GCSBackend) (request : Request) (e : Error) :
  auth_request (client backend) request = Err e \/
  (exists response,
      auth_request (client backend) request = Ok response /\ rs_error response = Some e) ->
  send backend request = ([CallRequest request], Err e).
Proof.
  unfold send, await, bind. intros [-> | (response & -> & ->)]; reflexivity.
Qed.

(** X19. An error of the backend ends an operation at once and reaches the
    caller as it is, whether the request is rejected or the answer carries
    an error in its body, with whatever status: [list], [getObject],
    [headObject], [uploadObject], [deleteObject] and [copyObject] have then
    sent one request and are rejected with that error.  In particular
    [uploadObject] does not ask for the metadata of an object that it could
    not store. *)
Theorem operations_surface_backend_errors (backend : GCSBackend) (bucketName key : string)
    (version : option string) (e : Error) :
  (forall request,
      auth_request (client backend) request = Err e \/
      exists response,
        auth_request (client backend) request = Ok response /\ rs_error response = Some e) ->
  (forall options,
      list backend bucketName options =
        ([CallRequest (list_request backend bucketName options)], Err e)) /\
  (forall headers,
      exists request,
        getObject backend bucketName key version headers = ([CallRequest request], Err e)) /\
  headObject backend bucketName key version =
    ([CallRequest (head_request backend bucketName key version)], Err e) /\
  (forall body contentType cacheControl,
      exists request,
        uploadObject backend bucketName key version body contentType cacheControl =
          ([CallRequest request], Err e) /\ rq_method request = "PUT"%string) /\
  (exists request,
      deleteObject backend bucketName key version = ([CallRequest request], Err e)) /\
  (forall destination destinationVersion metadata conditions,
      copyObject backend bucketName key version destination destinationVersion metadata
        conditions =
        ([CallRequest (copy_request backend bucketName key version destination
                         destinationVersion metadata conditions)], Err e)).
Proof.
  intros Hfails.
  assert (Hsend : forall request, send backend request = ([CallRequest request], Err e)).
  { intros request. apply send_fails, Hfails. }
  repeat split.
  - intros options. unfold list. rewrite Hsend. reflexivity.
  - intros headers. unfold getObject. rewrite Hsend. eexists. reflexivity.
  - unfold headObject. rewrite Hsend. reflexivity.
  - intros body contentType cacheControl. unfold uploadObject. rewrite Hsend.
    eexists. split; reflexivity.
  - unfold deleteObject. rewrite Hsend. eexists. reflexivity.
  - intros destination destinationVersion metadata conditions. unfold copyObject.
    rewrite Hsend. reflexivity.
Qed.

End gcs_more.

(** ** Multipart uploads: copying a part *)

Section multipart_more.
Import Multipart.

(** X29. [uploadPartCopy] reads the source and then writes the part.  When the
    read is rejected nothing is written and nothing is aborted.  The answer
    to the read is not examined: whatever it carries, its data is the body
    of the [PUT] and its [Content-Length] header, under that exact name, is
    sent along.  When the write fails, by rejection or by an error in the
    body of the answer, the controller of the read is aborted with the
    reason and the reason is thrown; on success nothing is aborted. *)
Theorem uploadPartCopy_reads_then_writes
    (backend : Backend) (bucketName key version uploadId : string) (partNumber : Z)
    (sourceKey : string) (sourceVersion : option string) (sourceRange : option (Z * Z)) :
  let get := copy_get backend bucketName sourceKey sourceVersion sourceRange in
  let copy :=
    uploadPartCopy backend bucketName key version uploadId partNumber sourceKey
      sourceVersion sourceRange in
  (forall e, request backend get = Err e -> copy = ([Requested get], Err e)) /\
  (forall source,
      request backend get = Ok source ->
      let put := copy_put backend bucketName key version uploadId partNumber source in
      pr_body put = Some (rs_data source) /\
      In ("Content-Length"%string,
          HString <$> own_property "Content-Length" (rs_headers source)) (pr_headers put) /\
      (forall reason,
          request backend put = Err reason \/
          (exists response,
              request backend put = Ok response /\ rs_error response = Some reason) ->
          copy = ([Requested get; Requested put; Aborted reason], Err reason)) /\
      (forall response,
          request backend put = Ok response -> rs_error response = None ->
          copy =
            ([Requested get; Requested put],
             Ok {| cp_eTag := own_property "ETag" (rs_headers response);
                   cp_lastModified := own_property "Last-Modified" (rs_headers response) |}))).
Proof.
  cbn zeta. unfold uploadPartCopy. split.
  - intros e ->. reflexivity.
  - intros source ->. split; [reflexivity |]. split; [left; reflexivity |]. split.
    + intros reason [-> | (response & -> & ->)]; reflexivity.
    + intros response -> ->. reflexivity.
Qed.

End multipart_more.

(** ** [deleteObjects]: one deletion for every key *)

Section delete_more.
Import DeleteObjects.

Lemma finished_init (keys : list string) : finished (init keys).
Proof. split; intros; discriminate. Qed.

Lemma finished_step (ev : event) (s s' : state) :
  inv s -> finished s -> step ev s = Some s' -> finished s'.
Proof.
  intros (Hact & Hrej & Hq & Ht & Hincl & Hlen & Hbatch & Hret) [Hall Hdone] Hstep.
  unfold tracked in Hincl.
  destruct ev as [| | i outcome]; cbn [step] in Hstep.
  - unfold step_main in Hstep. destruct (main s) as [| batch | batch | r] eqn:Hmain.
    + destruct (todo s) as [| key rest] eqn:Htodo.
      * injection Hstep as <-. split; cbn; [intros; exact Htodo | intros; discriminate].
      * destruct (MAX_QUEUE_SIZE <=? length (queue s))%nat; injection Hstep as <-;
          split; cbn; intros; discriminate.
    + rewrite (first_rejection_none _ _ Hrej) in Hstep.
      destruct (all_settled batch s); [| discriminate].
      injection Hstep as <-. split; cbn; intros; discriminate.
    + rewrite (first_rejection_none _ _ Hrej) in Hstep.
      destruct (all_settled batch s) eqn:Hsettled; [| discriminate].
      injection Hstep as <-.
      pose proof (all_settled_nil _ _ Hsettled Hincl) as Hnil.
      apply unsettled_nil in Hnil as [Hp Ha].
      split; cbn; [intros; discriminate |]. intros _ _. rewrite (Hall batch eq_refl). auto.
    + discriminate.
  - unfold step_start in Hstep. destruct (pending s) as [| t rest] eqn:Hp; [discriminate |].
    destruct (length (active s) <? MAX_PARALLEL_LIMIT)%nat; [| discriminate].
    injection Hstep as <-. split; cbn.
    + exact Hall.
    + intros r Hr. destruct (Hdone r Hr) as (_ & Hnone & _). discriminate.
  - unfold step_settle in Hstep. destruct (active s !! i) as [t |] eqn:Hi; [| discriminate].
    injection Hstep as <-. split; cbn.
    + exact Hall.
    + intros r Hr. destruct (Hdone r Hr) as (_ & _ & Hnone).
      rewrite Hnone in Hi. discriminate.
Qed.

Lemma finished_run (evs : list event) (s s' : state) :
  inv s -> finished s -> run evs s = Some s' -> finished s'.
Proof.
  revert s. induction evs as [| ev evs IH]; intros s Hinv Hfin Hrun; cbn in Hrun.
  - injection Hrun as <-. exact Hfin.
  - destruct (step ev s) as [s1 |] eqn:Hstep; [| discriminate].
    exact (IH s1 (inv_step _ _ _ Hinv Hstep) (finished_step _ _ _ Hinv Hfin Hstep) Hrun).
Qed.

(** The keys that were started, those that wait and those that the loop
    has not reached are the keys of the call, in their order. *)
Lemma starts_run (evs : list event) (s s' : state) :
  run evs s = Some s' ->
  starts evs s ++ map job_key (pending s') ++ todo s' = map job_key (pending s) ++ todo s.
Proof.
  revert s. induction evs as [| ev evs IH]; intros s Hrun; cbn [run starts] in *.
  - injection Hrun as <-. reflexivity.
  - destruct (step ev s) as [s1 |] eqn:Hstep; [| discriminate].
    specialize (IH s1 Hrun).
    destruct ev as [| | i outcome]; cbn [step] in Hstep.
    + rewrite IH. clear IH Hrun.
      unfold step_main in Hstep. destruct (main s) as [| batch | batch | r].
      * destruct (todo s) as [| key rest] eqn:Htodo.
        -- injection Hstep as <-. unfold set_main. cbn [pending todo]. rewrite Htodo.
           reflexivity.
        -- destruct (MAX_QUEUE_SIZE <=? length (queue s))%nat; injection Hstep as <-;
             cbn [pending todo]; [reflexivity |].
           rewrite map_app, <- app_assoc. reflexivity.
      * destruct (first_rejection batch s); [injection Hstep as <-; reflexivity |].
        destruct (all_settled batch s); [injection Hstep as <-; reflexivity | discriminate].
      * destruct (first_rejection batch s); [injection Hstep as <-; reflexivity |].
        destruct (all_settled batch s); [injection Hstep as <-; reflexivity | discriminate].
      * discriminate.
    + unfold step_start in Hstep. destruct (pending s) as [| t rest]; [discriminate |].
      destruct (length (active s) <? MAX_PARALLEL_LIMIT)%nat; [| discriminate].
      injection Hstep as <-. cbn [pending todo] in IH. cbn [map app]. rewrite <- IH.
      reflexivity.
    + assert (Hsame : pending s1 = pending s /\ todo s1 = todo s).
      { unfold step_settle in Hstep. destruct (active s !! i); [| discriminate].
        injection Hstep as <-. split; reflexivity. }
      destruct Hsame as [Hp Ht]. rewrite Hp, Ht in IH.
      destruct (pending s); exact IH.
Qed.

(** Every answer is the answer to a deletion that was started. *)
Lemma settles_run (evs : list event) (s s' : state) :
  run evs s = Some s' ->
  (length (active s') + settles evs = length (starts evs s) + length (active s))%nat.
Proof.
  revert s. induction evs as [| ev evs IH]; intros s Hrun; cbn [run starts] in *.
  - injection Hrun as <-. cbn. lia.
  - destruct (step ev s) as [s1 |] eqn:Hstep; [| discriminate].
    specialize (IH s1 Hrun). unfold settles in *. cbn [List.filter].
    destruct ev as [| | i outcome]; cbn [step] in Hstep.
    + assert (Hsame : active s1 = active s).
      { unfold step_main in Hstep. destruct (main s) as [| batch | batch | r].
        - destruct (todo s) as [| key rest]; [injection Hstep as <-; unfold set_main; cbn [pending todo active]; reflexivity |].
          destruct (MAX_QUEUE_SIZE <=? length (queue s))%nat; injection Hstep as <-;
            unfold set_main; cbn [active]; reflexivity.
        - destruct (first_rejection batch s); [injection Hstep as <-; unfold set_main; cbn [pending todo active]; reflexivity |].
          destruct (all_settled batch s); [injection Hstep as <-; unfold set_main; cbn [pending todo active]; reflexivity | discriminate].
        - destruct (first_rejection batch s); [injection Hstep as <-; unfold set_main; cbn [pending todo active]; reflexivity |].
          destruct (all_settled batch s); [injection Hstep as <-; unfold set_main; cbn [pending todo active]; reflexivity | discriminate].
        - discriminate. }
      rewrite Hsame in IH. exact IH.
    + unfold step_start in Hstep. destruct (pending s) as [| t rest]; [discriminate |].
      destruct (length (active s) <? MAX_PARALLEL_LIMIT)%nat; [| discriminate].
      injection Hstep as <-. cbn [active] in IH. rewrite length_app in IH.
      cbn [length] in *. lia.
    + unfold step_settle in Hstep. destruct (active s !! i) as [t |] eqn:Hi; [| discriminate].
      injection Hstep as <-. cbn [active] in IH.
      assert (Hdel : length (delete i (active s)) = (length (active s) - 1)%nat).
      { apply length_delete. eauto. }
      apply lookup_lt_Some in Hi. cbn [length].
      destruct (pending s); lia.
Qed.

(** X20. [deleteObjects] starts one [deleteObject] for every key, in the order
    of the keys, and none for anything else: at any moment of a run the
    keys already started, the keys of the jobs that wait in the limiter and
    the keys that the loop has not reached are the keys of the call.  The
    answers received and the deletions still in flight are the deletions
    started.  When the call returns, every key has been started and every
    deletion has been answered. *)
Theorem deleteObjects_deletes_each_key_once
    (keys : list string) (evs : list event) (s : state) :
  run evs (init keys) = Some s ->
  starts evs (init keys) ++ map job_key (pending s) ++ todo s = keys /\
  (length (active s) + settles evs = length (starts evs (init keys)))%nat /\
  (forall r, main s = Returned r ->
     starts evs (init keys) = keys /\ settles evs = length keys).
Proof.
  intros Hrun.
  pose proof (starts_run _ _ _ Hrun) as Hstarts. cbn [init pending todo map app] in Hstarts.
  pose proof (settles_run _ _ _ Hrun) as Hsettles. cbn [init active length] in Hsettles.
  pose proof (finished_run _ _ _ (inv_init keys) (finished_init keys) Hrun) as [_ Hdone].
  split; [exact Hstarts |]. split; [lia |].
  intros r Hr. destruct (Hdone r Hr) as (Ht & Hp & Ha).
  rewrite Ht, Hp in Hstarts. cbn [map app] in Hstarts. rewrite app_nil_r in Hstarts.
  rewrite Ha in Hsettles. cbn [length] in Hsettles.
  split; [exact Hstarts |]. rewrite Hstarts in Hsettles. lia.
Qed.

End delete_more.

(** ** The tenant connection: pools, disposal and the search path *)

Lemma includes_app_comma (a b : string) :
  Str.includes "," (a +:+ b) = Str.includes "," a || Str.includes "," b.
Proof.
  induction a as [| c a IH].
  - destruct b; reflexivity.
  - change (String c a +:+ b) with (String c (a +:+ b)).
    rewrite (includes_unfold "," (String c (a +:+ b))), (includes_unfold "," (String c a)).
    rewrite IH. cbn [String.prefix]. destruct (ascii_dec "," c).
    + destruct (a +:+ b), a; reflexivity.
    + reflexivity.
Qed.

Lemma string_of_list_ascii_app (l1 l2 : list ascii) :
  string_of_list_ascii (l1 ++ l2) = string_of_list_ascii l1 +:+ string_of_list_ascii l2.
Proof.
  induction l1 as [| c l1 IH]; [reflexivity |].
  cbn [app string_of_list_ascii]. rewrite IH. reflexivity.
Qed.

Lemma rev_string_no_comma (s : string) :
  Str.includes "," s = false -> Str.includes "," (Str.rev_string s) = false.
Proof.
  unfold Str.rev_string. induction s as [| c s IH]; [reflexivity |].
  rewrite includes_unfold. intros Hs. apply orb_false_iff in Hs as [Hc Hs].
  cbn [list_ascii_of_string rev]. rewrite string_of_list_ascii_app, includes_app_comma.
  rewrite (IH Hs). cbn [orb string_of_list_ascii].
  rewrite includes_unfold. cbn [String.prefix] in Hc |- *.
  destruct (ascii_dec "," c); [destruct s; discriminate Hc | reflexivity].
Qed.

Section tenant_more.
Import Tenant.
Variable cfg : Config.

Lemma well_keyed_empty : well_keyed empty_world.
Proof. intros key p expiry Hk. cbn in Hk. rewrite lookup_empty in Hk. discriminate. Qed.

Lemma well_keyed_purgeStale (now : Z) (w : World) : well_keyed w -> well_keyed (purgeStale now w).
Proof.
  intros Hw key p expiry Hk. unfold purgeStale in *. cbn [connections next_knex] in *.
  apply map_lookup_filter_Some in Hk as [Hk _].
  destruct (Hw key p expiry Hk) as (Hs & Hid & Hshare). split; [exact Hs |].
  split; [exact Hid |]. intros key' p' expiry' Hk' Heq.
  apply map_lookup_filter_Some in Hk' as [Hk' _]. exact (Hshare key' p' expiry' Hk' Heq).
Qed.

Lemma well_keyed_dispose (self : TenantConnection) (w : World) :
  well_keyed w -> well_keyed (dispose cfg self w).
Proof. intros Hw. unfold dispose. destruct (_ && _); exact Hw. Qed.

Lemma well_keyed_refresh (key : string) (p : Knex) (expiry expiry' : Z) (w : World) :
  well_keyed w -> connections w !! key = Some (p, expiry) ->
  well_keyed
    {| connections := <[key := (p, expiry')]> (connections w);
       next_knex := next_knex w; destroyed := destroyed w;
       active_pool_incs := active_pool_incs w |}.
Proof.
  intros Hw Hk key1 p1 expiry1 Hk1. cbn [connections next_knex] in *.
  assert (Hold : forall k q e,
             <[key := (p, expiry')]> (connections w) !! k = Some (q, e) ->
             exists e0, connections w !! k = Some (q, e0)).
  { intros k q e Hl. destruct (decide (k = key)) as [-> | Hne].
    - rewrite lookup_insert_eq in Hl. injection Hl as <- <-. eauto.
    - rewrite lookup_insert_ne in Hl by congruence. eauto. }
  destruct (Hold _ _ _ Hk1) as [e0 Hk0].
  destruct (Hw key1 p1 e0 Hk0) as (Hs & Hid & Hshare). split; [exact Hs |].
  split; [exact Hid |]. intros key' p' expiry2 Hk' Heq.
  destruct (Hold _ _ _ Hk') as [e0' Hk0']. exact (Hshare key' p' e0' Hk0' Heq).
Qed.

Lemma well_keyed_counted (w : World) (label : bool) :
  well_keyed w ->
  well_keyed
    {| connections := connections w; next_knex := S (next_knex w);
       destroyed := destroyed w; active_pool_incs := active_pool_incs w ++ [label] |}.
Proof.
  intros Hw key p expiry Hp. cbn [connections next_knex] in *.
  destruct (Hw _ _ _ Hp) as (Hs & Hid & Hshare).
  split; [exact Hs |]. split; [lia | exact Hshare].
Qed.

Lemma well_keyed_create (options : TenantConnectionOptions) (now : Z) (w : World) :
  well_keyed w ->
  well_keyed (snd (create cfg options now w)) /\
  forall connection,
    fst (create cfg options now w) = Resolved connection ->
    ps_connectionString (knex_settings (pool connection)) = dbUrl options /\
    (forall key p expiry,
        connections (snd (create cfg options now w)) !! key = Some (p, expiry) ->
        knex_id p = knex_id (pool connection) -> key = dbUrl options).
Proof.
  intros Hw. unfold create, cache_get.
  destruct (connections w !! dbUrl options) as [[p expiry] |] eqn:Hk; cbn [fst snd].
  - destruct (Hw _ _ _ Hk) as (Hs & Hid & Hshare).
    split; [exact (well_keyed_refresh _ _ _ _ _ Hw Hk) |].
    intros connection [= <-]. split; [exact Hs |].
    intros key q e Hq Heq. cbn [connections new_TenantConnection pool] in *.
    destruct (decide (key = dbUrl options)) as [-> | Hne]; [reflexivity |].
    rewrite lookup_insert_ne in Hq by congruence. exact (Hshare _ _ _ Hq Heq).
  - destruct (knex _); cbn [fst snd].
    + split; [exact Hw | discriminate].
    + split; [apply well_keyed_counted, Hw | discriminate].
    + destruct (negb (external options) || negb (isMultitenant cfg)); cbn [fst snd].
      * split.
        -- intros key p expiry Hp. unfold cache_set in *. cbn [connections next_knex] in *.
           destruct (decide (key = dbUrl options)) as [-> | Hne].
           ++ rewrite lookup_insert_eq in Hp. injection Hp as <- <-.
              cbn [knex_settings knex_id ps_connectionString].
              split; [reflexivity |]. split; [lia |].
              intros key' p' expiry' Hp' Heq.
              destruct (decide (key' = dbUrl options)) as [-> | Hne']; [reflexivity |].
              rewrite lookup_insert_ne in Hp' by congruence.
              destruct (Hw _ _ _ Hp') as (_ & Hid & _). cbn [knex_id] in Heq. lia.
           ++ rewrite lookup_insert_ne in Hp by congruence.
              destruct (Hw _ _ _ Hp) as (Hs & Hid & Hshare).
              split; [exact Hs |]. split; [lia |].
              intros key' p' expiry' Hp' Heq.
              destruct (decide (key' = dbUrl options)) as [-> | Hne'].
              ** rewrite lookup_insert_eq in Hp'. injection Hp' as <- <-.
                 cbn [knex_id] in Heq. lia.
              ** rewrite lookup_insert_ne in Hp' by congruence.
                 exact (Hshare _ _ _ Hp' Heq).
        -- intros connection [= <-]. split; [reflexivity |].
           intros key p expiry Hp Heq. unfold cache_set in Hp. cbn [connections] in Hp.
           destruct (decide (key = dbUrl options)) as [-> | Hne]; [reflexivity |].
           rewrite lookup_insert_ne in Hp by congruence.
           destruct (Hw _ _ _ Hp) as (_ & Hid & _).
           cbn [new_TenantConnection pool knex_id] in Heq. lia.
      * split; [apply well_keyed_counted, Hw |].
        intros connection [= <-]. split; [reflexivity |].
        intros key p expiry Hp Heq. cbn [connections] in Hp.
        destruct (Hw _ _ _ Hp) as (_ & Hid & _).
        cbn [new_TenantConnection pool knex_id] in Heq. lia.
Qed.

Lemma well_keyed_history (actions : list action) : well_keyed (history cfg actions).
Proof.
  unfold history.
  assert (Hgen : forall w, well_keyed w -> well_keyed (fold_left (perform cfg) actions w)).
  { induction actions as [| a actions IH]; intros w Hw; [exact Hw |].
    cbn [fold_left]. apply IH. destruct a as [options now | now | self]; cbn [perform].
    - apply well_keyed_create, Hw.
    - apply well_keyed_purgeStale, Hw.
    - apply well_keyed_dispose, Hw. }
  apply Hgen, well_keyed_empty.
Qed.

(** X21. Tenants do not share pools.  Whatever calls of [create] and [dispose]
    were made before and whatever timers of the cache fired, the pool of
    the connection that [create] returns connects to the connection string
    of the options, and no other connection string of the cache holds that
    pool. *)
Theorem create_connects_to_dbUrl (actions : list action)
    (options : TenantConnectionOptions) (now : Z) (connection : TenantConnection) :
  let created := create cfg options now (history cfg actions) in
  fst created = Resolved connection ->
  ps_connectionString (knex_settings (pool connection)) = dbUrl options /\
  (forall key p expiry,
      connections (snd created) !! key = Some (p, expiry) ->
      knex_id p = knex_id (pool connection) -> key = dbUrl options).
Proof.
  cbn zeta.
  destruct (well_keyed_create options now _ (well_keyed_history actions)) as (_ & Hs).
  exact (Hs connection).
Qed.

(** X22. [create] and [dispose] agree on who owns a pool.  A pool that [create]
    builds is either put in the cache, and then [dispose] leaves it alone,
    or it is not, and then [dispose] destroys it: the test of [dispose] is
    the negation of the test of [create].  A pool found in the cache is
    nevertheless destroyed by [dispose], while the cache still holds it,
    when the options of this call say that the pool is external in a
    multitenant deployment. *)
Theorem create_then_dispose (options : TenantConnectionOptions) (now : Z) (w : World)
    (connection : TenantConnection) :
  let created := create cfg options now w in
  let disposed := dispose cfg connection (snd created) in
  fst created = Resolved connection ->
  (connections w !! dbUrl options = None ->
   external options && isMultitenant cfg = false ->
   connections (snd created) !! dbUrl options = Some (pool connection, now + ttl cfg) /\
   disposed = snd created) /\
  (connections w !! dbUrl options = None ->
   external options && isMultitenant cfg = true ->
   connections (snd created) = connections w /\
   destroyed disposed = destroyed w ++ [knex_id (pool connection)]) /\
  (forall p expiry,
      connections w !! dbUrl options = Some (p, expiry) ->
      external options && isMultitenant cfg = true ->
      pool connection = p /\
      connections disposed !! dbUrl options = Some (p, now + ttl cfg) /\
      destroyed disposed = destroyed w ++ [knex_id p]).
Proof.
  cbn zeta. unfold dispose, create, cache_get. intros Hcreated. split; [| split].
  - intros Hmiss Htest. rewrite Hmiss in Hcreated |- *.
    assert (Hguard : negb (external options) || negb (isMultitenant cfg) = true).
    { destruct (external options), (isMultitenant cfg); try reflexivity; discriminate. }
    rewrite Hguard in Hcreated |- *.
    destruct (knex _); cbn [fst snd] in Hcreated |- *; try discriminate.
    injection Hcreated as <-. cbn [new_TenantConnection Tenant.options]. rewrite Htest.
    split; [| reflexivity]. unfold cache_set. cbn [connections pool]. apply lookup_insert_eq.
  - intros Hmiss Htest. rewrite Hmiss in Hcreated |- *.
    assert (Hguard : negb (external options) || negb (isMultitenant cfg) = false).
    { destruct (external options), (isMultitenant cfg); try reflexivity; discriminate. }
    rewrite Hguard in Hcreated |- *.
    destruct (knex _); cbn [fst snd] in Hcreated |- *; try discriminate.
    injection Hcreated as <-. cbn [new_TenantConnection Tenant.options]. rewrite Htest.
    split; reflexivity.
  - intros p expiry Hhit Htest. rewrite Hhit in Hcreated |- *.
    cbn [fst snd] in Hcreated |- *. injection Hcreated as <-.
    cbn [new_TenantConnection Tenant.options pool]. rewrite Htest.
    cbn [connections destroyed]. split; [reflexivity |]. split; [| reflexivity].
    apply lookup_insert_eq.
Qed.

Lemma fresh_pool_id (options : TenantConnectionOptions) (now : Z) (w : World)
    (connection : TenantConnection) :
  connections w !! dbUrl options = None ->
  fst (create cfg options now w) = Resolved connection ->
  knex_id (pool connection) = next_knex w.
Proof.
  intros Hk. unfold create, cache_get. rewrite Hk.
  destruct (knex _); cbn [fst]; try discriminate.
  destruct (negb (external options) || negb (isMultitenant cfg)); intros [= <-]; reflexivity.
Qed.

(** The pool that [knex] is asked for, by its maximum. *)
Lemma knex_by_max (settings : PoolSettings) :
  ps_min settings = 0 ->
  (ps_max settings < 0 ->
   knex settings = KnexThrows (OtherError "Tarn: opt.max must be an integer > 0")) /\
  (ps_max settings = 0 -> knex settings = KnexWithoutPool) /\
  (knex settings = KnexWithPool ->
   1 <= ps_max settings /\ 0 < ps_acquireTimeoutMillis settings /\
   0 < ps_idleTimeoutMillis settings) /\
  (1 <= ps_max settings -> 0 < ps_acquireTimeoutMillis settings ->
   0 < ps_idleTimeoutMillis settings ->
   (forall r, ps_reapIntervalMillis settings = Some r -> 0 < r) ->
   knex settings = KnexWithPool).
Proof.
  intros Hmin. unfold knex, tarn_rejects, invalid_time. rewrite Hmin.
  change (0 <? 0) with false. cbn match.
  destruct (Z.eqb_spec (ps_max settings) 0) as [Hzero | Hnonzero];
    [repeat split; intros; first [lia | discriminate | reflexivity] |].
  destruct (Z.leb_spec (ps_max settings) 0) as [Hlow | Hhigh];
    [repeat split; intros; first [lia | discriminate | reflexivity] |].
  destruct (Z.ltb_spec (ps_max settings) 0) as [Hbelow | _]; [lia |].
  destruct (Z.leb_spec (ps_acquireTimeoutMillis settings) 0) as [Hacquire | Hacquire];
    [repeat split; intros; first [lia | discriminate | reflexivity] |].
  destruct (Z.leb_spec (ps_idleTimeoutMillis settings) 0) as [Hidle | Hidle];
    [repeat split; intros; first [lia | discriminate | reflexivity] |].
  destruct (ps_reapIntervalMillis settings) as [r |];
    [destruct (Z.leb_spec r 0) as [Hreap | Hreap] |];
    repeat split; intros; first [lia | discriminate | reflexivity | idtac].
  match goal with Hr : forall r, Some _ = Some r -> 0 < r |- _ => specialize (Hr _ eq_refl) end.
  lia.
Qed.

(** X23. [create] builds a pool only when the cache has none for the connection
    string, and then at most one.  When it returns a connection on a pool it
    has built, [DbActivePool.inc] was called once, with the label of the
    options.  It returns one when the maximum of the pool, which is
    [options.maxConnections || databaseMaxConnections], is at least 1 and
    the two timeouts of the configuration are positive.  With a negative
    maximum the constructor of the pool throws: [create] is rejected with
    its error, and has counted and cached nothing.  With the maximum 0,
    [knex] builds no pool: [DbActivePool.inc] is called all the same, and
    [create] is rejected when it reaches for the pool.  [create] never
    destroys a pool. *)
Theorem create_builds_one_pool (options : TenantConnectionOptions) (now : Z) (w : World) :
  let created := create cfg options now w in
  let max :=
    if maxConnections options =? 0 then databaseMaxConnections cfg
    else maxConnections options in
  destroyed (snd created) = destroyed w /\
  (is_Some (connections w !! dbUrl options) ->
   (exists connection, fst created = Resolved connection) /\
   next_knex (snd created) = next_knex w /\
   active_pool_incs (snd created) = active_pool_incs w) /\
  (connections w !! dbUrl options = None ->
   (forall connection,
       fst created = Resolved connection ->
       1 <= max /\
       knex_id (pool connection) = next_knex w /\
       next_knex (snd created) = S (next_knex w) /\
       active_pool_incs (snd created) = active_pool_incs w ++ [external options]) /\
   (1 <= max -> 0 < databaseConnectionTimeout cfg ->
    (external options = true \/ 0 < databaseFreePoolAfterInactivity cfg) ->
    exists connection, fst created = Resolved connection) /\
   (max < 0 ->
    created = (Thrown (OtherError "Tarn: opt.max must be an integer > 0"), w)) /\
   (max = 0 ->
    (exists e, fst created = Thrown e) /\
    connections (snd created) = connections w /\
    active_pool_incs (snd created) = active_pool_incs w ++ [external options])).
Proof.
  cbn zeta. unfold create, cache_get.
  destruct (connections w !! dbUrl options) as [[p expiry] |] eqn:Hk; cbn [fst snd].
  - split; [reflexivity |]. split; [eauto | discriminate].
  - match goal with
    | |- context [knex ?s] =>
        pose proof (knex_by_max s eq_refl) as (Hneg & Hzero & Hbuilt & Hbuilds);
        cbn [ps_max ps_acquireTimeoutMillis ps_idleTimeoutMillis ps_reapIntervalMillis]
          in Hneg, Hzero, Hbuilt, Hbuilds;
        destruct (knex s) eqn:Hknex
    end; cbn [fst snd].
    + split; [reflexivity |]. split; [intros [x Hx]; discriminate |]. intros _.
      split; [discriminate |]. split; [| split].
      * intros Hmax Hacquire Hidle. exfalso.
        assert (Hcontra : KnexThrows e = KnexWithPool); [| discriminate].
        apply Hbuilds; [exact Hmax | exact Hacquire | |].
        -- destruct (external options); [lia |]. destruct Hidle; [discriminate | assumption].
        -- destruct (external options); intros r [= <-]. lia.
      * intros Hmax. specialize (Hneg Hmax). injection Hneg as ->. destruct w; reflexivity.
      * intros Hmax. specialize (Hzero Hmax). discriminate.
    + split; [reflexivity |]. split; [intros [x Hx]; discriminate |]. intros _.
      split; [discriminate |]. split; [| split].
      * intros Hmax Hacquire Hidle. exfalso.
        assert (Hcontra : KnexWithoutPool = KnexWithPool); [| discriminate].
        apply Hbuilds; [exact Hmax | exact Hacquire | |].
        -- destruct (external options); [lia |]. destruct Hidle; [discriminate | assumption].
        -- destruct (external options); intros r [= <-]. lia.
      * intros Hmax. specialize (Hneg Hmax). discriminate.
      * intros _. split; [eauto |]. split; reflexivity.
    + destruct (Hbuilt eq_refl) as (Hmax & _ & _).
      destruct (negb (external options) || negb (isMultitenant cfg)); cbn [fst snd].
      * unfold cache_set. cbn [connections destroyed next_knex active_pool_incs]. rewrite Hk.
        split; [reflexivity |]. split; [intros [x Hx]; discriminate |]. intros _.
        split; [intros connection [= <-]; auto |]. split; [eauto |].
        split; [intros Hneg'; specialize (Hneg Hneg'); discriminate |].
        intros Hzero'. lia.
      * split; [reflexivity |]. split; [intros [x Hx]; discriminate |]. intros _.
        split; [intros connection [= <-]; auto |]. split; [eauto |].
        split; [intros Hneg'; specialize (Hneg Hneg'); discriminate |].
        intros Hzero'. lia.
Qed.

Lemma purgeStale_drops (now : Z) (w : World) (key : string) (p : Knex) (expiry : Z) :
  connections w !! key = Some (p, expiry) -> expiry <= now ->
  connections (purgeStale now w) !! key = None /\
  In (knex_id p) (destroyed (purgeStale now w)).
Proof.
  intros Hk Hstale. unfold purgeStale. cbn [connections destroyed]. split.
  - apply map_lookup_filter_None. right. intros x Hx. rewrite Hk in Hx.
    injection Hx as <-. cbn. lia.
  - apply in_or_app. right.
    apply (in_map (fun kv : string * (Knex * Z) => knex_id (fst (snd kv)))
                  _ (key, (p, expiry))).
    apply list_elem_of_In, elem_of_map_to_list, map_lookup_filter_Some.
    split; [exact Hk | exact Hstale].
Qed.

(** X24. A pool that is not used for [databaseFreePoolAfterInactivity]
    milliseconds goes: the timer of the cache that fires then takes it out of
    the cache and destroys it, and the next [create] for the connection
    string builds another pool. *)
Theorem idle_pool_is_destroyed (actions : list action)
    (options : TenantConnectionOptions) (t1 t t2 : Z) (connection1 : TenantConnection) :
  external options = false \/ isMultitenant cfg = false \/
  is_Some (connections (history cfg actions) !! dbUrl options) ->
  t1 + ttl cfg <= t ->
  let first := create cfg options t1 (history cfg actions) in
  let purged := purgeStale t (snd first) in
  let second := create cfg options t2 purged in
  fst first = Resolved connection1 ->
  connections purged !! dbUrl options = None /\
  In (knex_id (pool connection1)) (destroyed purged) /\
  (forall connection2,
      fst second = Resolved connection2 ->
      knex_id (pool connection2) = next_knex purged /\
      knex_id (pool connection2) <> knex_id (pool connection1)).
Proof.
  intros Hcase Hidle. cbn zeta. intros Hfirst.
  pose proof (create_caches cfg options t1 _ connection1 Hcase Hfirst) as Hcached.
  destruct (purgeStale_drops t _ _ _ _ Hcached Hidle) as [Hgone Hdestroyed].
  split; [exact Hgone |]. split; [exact Hdestroyed |].
  intros connection2 Hsecond.
  destruct (well_keyed_create options t1 _ (well_keyed_history actions)) as (Hw & _).
  destruct (Hw _ _ _ Hcached) as (_ & Hid & _).
  rewrite (fresh_pool_id options t2 _ connection2 Hgone Hsecond).
  split; [reflexivity |]. unfold purgeStale. cbn [next_knex]. lia.
Qed.

(** *** [transaction] *)

(** X25. On an externally fronted pool, without an explicit instance, a
    transaction that is not completed gets its search path set before it is
    returned, to the names of [searchPath] joined by a comma and a space.
    When that statement fails the transaction is rolled back and never
    returned: the caller gets the error of the statement, or, when the
    rollback fails too, the error of the rollback. *)
Theorem transaction_sets_search_path
    (acquire : Knex -> Acquisition) (self : TenantConnection)
    (tnx : Transaction) (calls : nat) :
  external (options self) = true ->
  retry (acquire (pool self)) = (Resolved (Some tnx), calls) ->
  isCompleted tnx = false ->
  (set_search_path tnx (Str.join ", " (searchPath cfg)) = Resolved tt ->
   transaction cfg acquire self None = (Resolved tnx, calls)) /\
  (forall e,
      set_search_path tnx (Str.join ", " (searchPath cfg)) = Thrown e ->
      rollback tnx = Resolved tt ->
      transaction cfg acquire self None = (Thrown (surface e), calls)) /\
  (forall e e',
      set_search_path tnx (Str.join ", " (searchPath cfg)) = Thrown e ->
      rollback tnx = Thrown e' ->
      transaction cfg acquire self None = (Thrown (surface e'), calls)).
Proof.
  intros Hext Hretry Hopen. unfold transaction. cbn [default from_option id].
  rewrite Hretry. unfold prepare. rewrite Hext, Hopen. cbn [negb andb bool_decide].
  rewrite (bool_decide_false (is_Some (None : option Knex))) by (intros [x Hx]; discriminate).
  cbn [negb andb]. split; [| split].
  - intros ->. reflexivity.
  - intros e -> ->. reflexivity.
  - intros e e' -> ->. reflexivity.
Qed.

(** *** The error of an acquisition that gave up *)

Lemma mainError_from_in (rest seen : list DbError) (best : option DbError) (bestCount : nat) :
  mainError_from seen rest best bestCount = best \/
  exists e, In e rest /\ mainError_from seen rest best bestCount = Some e.
Proof.
  revert seen best bestCount. induction rest as [| e rest IH]; intros seen best bestCount;
    cbn [mainError_from]; [left; reflexivity |].
  destruct (bestCount <=? S (count_message (error_message e) seen))%nat.
  - right. destruct (IH (seen ++ [e]) (Some e) (S (count_message (error_message e) seen)))
      as [-> | (e' & Hin & ->)].
    + exists e. split; [left; reflexivity | reflexivity].
    + exists e'. split; [right; exact Hin | reflexivity].
  - destruct (IH (seen ++ [e]) best bestCount) as [-> | (e' & Hin & ->)].
    + left. reflexivity.
    + right. exists e'. split; [right; exact Hin | reflexivity].
Qed.

Lemma mainError_in (e : DbError) (errors : list DbError) :
  In (mainError (e :: errors)) (e :: errors).
Proof.
  unfold mainError. cbn [mainError_from]. change (0 <=? _)%nat with true. cbv iota.
  destruct (mainError_from_in errors ([] ++ [e]) (Some e)
              (S (count_message (error_message e) []))) as [-> | (e' & Hin & ->)]; cbn.
  - left. reflexivity.
  - right. exact Hin.
Qed.

Lemma mainError_not_timeout (e : DbError) (errors : list DbError) :
  error_message e <> "RetryOperation timeout occurred"%string ->
  In (mainError (RetryTimeout :: e :: errors)) (e :: errors).
Proof.
  intros Hmsg. unfold mainError. cbn [mainError_from]. change (0 <=? _)%nat with true.
  cbv iota.
  assert (Hcount : count_message (error_message e) ([] ++ [RetryTimeout]) = 0%nat).
  { unfold count_message. cbn [app List.filter error_message].
    destruct (String.eqb_spec "RetryOperation timeout occurred" (error_message e)) as [Heq | _];
      [congruence | reflexivity]. }
  rewrite Hcount. cbn [count_message List.filter length].
  change (1 <=? 1)%nat with true. cbv iota.
  destruct (mainError_from_in errors (([] ++ [RetryTimeout]) ++ [e]) (Some e) 1)
    as [-> | (e' & Hin & ->)]; cbn.
  - left. reflexivity.
  - right. exact Hin.
Qed.

Lemma transient_message (e : DbError) :
  is_transient e = true -> error_message e <> "RetryOperation timeout occurred"%string.
Proof.
  intros Ht. destruct (is_transient_inv e Ht) as (code & message & -> & _ & Hmsg).
  cbn [error_message]. intros ->. vm_compute in Hmsg. discriminate.
Qed.

(** The error of a [retry] that gave up is one of the errors it threw
    back to the operation. *)
Lemma retry_from_gives_up (attempt : Acquisition) (timeouts n : nat) (errors : list DbError)
    (e : DbError) (elapsed : Z) :
  let r := retry_from attempt timeouts n errors in
  attempt (snd r - 1)%nat = (Thrown e, elapsed) -> is_transient e = true ->
  Forall (fun x => is_transient x = true /\
                   exists m t, (m < n)%nat /\ attempt m = (Thrown x, t)) errors ->
  exists e' m t,
    fst r = Thrown e' /\ is_transient e' = true /\
    (m < snd r)%nat /\ attempt m = (Thrown e', t).
Proof.
  cbn zeta. revert n errors. induction timeouts as [| timeouts IH]; intros n errors;
    cbn [retry_from]; destruct (attempt n) as [[tnx | e0] t0] eqn:Hn; cbn [fst snd].
  - replace (S n - 1)%nat with n by lia. rewrite Hn. discriminate.
  - destruct (is_transient e0) eqn:He0; [| cbn [fst snd]; replace (S n - 1)%nat with n by lia;
                                           rewrite Hn; intros [= <- <-]; congruence].
    intros _ _ Herrors.
    assert (Hall : Forall (fun x => is_transient x = true /\
                                    exists m t, (m < S n)%nat /\ attempt m = (Thrown x, t))
                     (errors ++ [e0])).
    { apply Forall_app. split.
      - eapply Forall_impl; [exact Herrors |]. cbn. intros x (Hx & m & t & Hm & Hat).
        split; [exact Hx |]. exists m, t. split; [lia | exact Hat].
      - repeat constructor; [exact He0 |]. exists n, t0. split; [lia | exact Hn]. }
    assert (Hne : exists x l, errors ++ [e0] = x :: l).
    { destruct errors; cbn; eauto. }
    destruct Hne as (x & l & Hxl). rewrite Hxl in *.
    assert (Hfound : forall e', In e' (x :: l) ->
                       exists m t, is_transient e' = true /\ (m < S n)%nat /\
                                   attempt m = (Thrown e', t)).
    { intros e' Hin. rewrite List.Forall_forall in Hall.
      destruct (Hall e' Hin) as (Ht & m & t & Hm & Hat). eauto. }
    destruct (maxRetryTime <=? t0); cbn [fst snd].
    + destruct (Hfound _ (mainError_not_timeout x l
                            (transient_message x (proj1 (Forall_inv Hall)))))
        as (m & t & Ht & Hm & Hat).
      eauto 10.
    + destruct (Hfound _ (mainError_in x l)) as (m & t & Ht & Hm & Hat). eauto 10.
  - replace (S n - 1)%nat with n by lia. rewrite Hn. discriminate.
  - destruct (is_transient e0) eqn:He0; [| cbn [fst snd]; replace (S n - 1)%nat with n by lia;
                                           rewrite Hn; intros [= <- <-]; congruence].
    assert (Hall : Forall (fun x => is_transient x = true /\
                                    exists m t, (m < S n)%nat /\ attempt m = (Thrown x, t))
                     (errors ++ [e0]) ->
                   Forall (fun x => is_transient x = true /\
                                    exists m t, (m < S n)%nat /\ attempt m = (Thrown x, t))
                     (errors ++ [e0])) by auto.
    destruct (maxRetryTime <=? t0) eqn:Hlate; cbn [fst snd].
    + intros _ _ Herrors.
      assert (Hall' : Forall (fun x => is_transient x = true /\
                                       exists m t, (m < S n)%nat /\ attempt m = (Thrown x, t))
                        (errors ++ [e0])).
      { apply Forall_app. split.
        - eapply Forall_impl; [exact Herrors |]. cbn. intros x (Hx & m & t & Hm & Hat).
          split; [exact Hx |]. exists m, t. split; [lia | exact Hat].
        - repeat constructor; [exact He0 |]. exists n, t0. split; [lia | exact Hn]. }
      assert (Hne : exists x l, errors ++ [e0] = x :: l) by (destruct errors; cbn; eauto).
      destruct Hne as (x & l & Hxl). rewrite Hxl in *.
      pose proof (mainError_not_timeout x l
                    (transient_message x (proj1 (Forall_inv Hall')))) as Hin.
      rewrite List.Forall_forall in Hall'.
      destruct (Hall' _ Hin) as (Ht & m & t & Hm & Hat). eauto 10.
    + intros Hlast He Herrors. apply (IH (S n) (errors ++ [e0]) Hlast He).
      apply Forall_app. split.
      * eapply Forall_impl; [exact Herrors |]. cbn. intros x (Hx & m & t & Hm & Hat).
        split; [exact Hx |]. exists m, t. split; [lia | exact Hat].
      * repeat constructor; [exact He0 |]. exists n, t0. split; [lia | exact Hn].
Qed.

(** X26. When the acquisition gives up, because the ten retries are used or
    because the three seconds are over, the last call failed with the
    transient error, and [transaction] throws one of the transient
    [DatabaseError]s that its calls received, with the code [08P01]: not the
    timeout error of the retry package and not a [DatabaseTimeout]. *)
Theorem transaction_gives_up_with_transient_error
    (acquire : Knex -> Acquisition) (self : TenantConnection) (instance : option Knex)
    (e : DbError) (elapsed : Z) :
  let attempt := acquire (default (pool self) instance) in
  let r := transaction cfg acquire self instance in
  attempt (snd r - 1)%nat = (Thrown e, elapsed) -> is_transient e = true ->
  exists message n t,
    fst r = Thrown (PgDatabaseError "08P01" message) /\
    Str.includes "no more connections allowed" message = true /\
    (n < snd r)%nat /\
    attempt n = (Thrown (PgDatabaseError "08P01" message), t).
Proof.
  cbn zeta. rewrite transaction_calls. unfold retry. intros Hlast He.
  destruct (retry_from_gives_up _ retries 0 [] e elapsed Hlast He ltac:(constructor))
    as (e' & m & t & Hres & Ht & Hm & Hat).
  destruct (is_transient_inv e' Ht) as (code & message & -> & -> & Hmsg).
  exists message, m, t. split; [| auto].
  change (PgDatabaseError "08P01" message) with (surface (PgDatabaseError "08P01" message)).
  apply (transaction_thrown cfg acquire self instance _
           (snd (retry_from (acquire (default (pool self) instance)) retries 0 []))).
  unfold retry. destruct (retry_from _ _ _ _) as [res calls]. cbn in *. congruence.
Qed.

(** *** The search path *)

Lemma split_comma_no_comma (acc s : string) :
  Str.includes "," acc = false ->
  Forall (fun name => Str.includes "," name = false) (split_comma acc s).
Proof.
  revert acc. induction s as [| c s IH]; intros acc Hacc; cbn [split_comma].
  - repeat constructor. apply rev_string_no_comma, Hacc.
  - destruct (Ascii.eqb_spec c ","%char) as [-> | Hc].
    + constructor; [apply rev_string_no_comma, Hacc | apply IH; reflexivity].
    + apply IH. rewrite includes_unfold, Hacc. cbn [String.prefix].
      destruct (ascii_dec "," c) as [<- | _]; [contradiction | reflexivity].
Qed.

(** X27. The search path begins with [storage], [public] and [extensions]; the
    names that follow come from [dbSearchPath], none of them is empty and
    none holds a comma.  With an empty [dbSearchPath] the three names are
    the whole search path. *)
Theorem searchPath_shape :
  (exists extra,
      searchPath cfg = ["storage"; "public"; "extensions"]%string ++ extra /\
      extra = List.filter (fun s => negb (String.eqb s ""))
                (split_comma EmptyString (dbSearchPath cfg))) /\
  Forall (fun name => name <> ""%string /\ Str.includes "," name = false) (searchPath cfg) /\
  (dbSearchPath cfg = ""%string ->
   searchPath cfg = ["storage"; "public"; "extensions"]%string).
Proof.
  split; [| split].
  - eexists. split; [| reflexivity]. unfold searchPath. rewrite List.filter_app. reflexivity.
  - unfold searchPath. apply List.Forall_forall. intros name Hin.
    apply List.filter_In in Hin as [Hin Hne]. split.
    + apply negb_true_iff, String.eqb_neq in Hne. exact Hne.
    + apply in_app_or in Hin as [Hin | Hin].
      * cbn in Hin. destruct Hin as [<- | [<- | [<- | []]]]; reflexivity.
      * pose proof (split_comma_no_comma EmptyString (dbSearchPath cfg) eq_refl) as Hall.
        rewrite List.Forall_forall in Hall. exact (Hall name Hin).
  - intros Hempty. unfold searchPath. rewrite Hempty. reflexivity.
Qed.

End tenant_more.

(** ** [createStorageBackend]: the configuration of the GCS client *)

Section backend_more.
Import Backend.
Variables storageS3Region storageS3Endpoint storageS3ForcePathStyle
  storageS3ClientTimeout : Value.

Lemma spread_lookup (a b : Object) (name : string) :
  spread a b !! name = match b !! name with Some v => Some v | None => a !! name end.
Proof.
  unfold spread. destruct (b !! name) as [v |] eqn:Hb.
  - apply lookup_union_Some_l. exact Hb.
  - apply lookup_union_r. exact Hb.
Qed.

Lemma property_default (config : option Object) (name : string) :
  default ∅ config !! name = property config name.
Proof. destruct config; [reflexivity | apply lookup_empty]. Qed.

Lemma property_spread (a : Object) (config : option Object) (name : string) :
  property (Some (spread a (default ∅ config))) name =
  match property config name with Some v => Some v | None => a !! name end.
Proof.
  unfold property at 1. cbn [mbind option_bind]. rewrite spread_lookup, property_default.
  reflexivity.
Qed.

Lemma authConfig_only (v : Value) :
  ({[ "authConfig"%string := v ]} : Object) !! "authClient"%string = None /\
  ({[ "authConfig"%string := v ]} : Object) !! "authConfig"%string = Some v.
Proof.
  split; [apply lookup_singleton_ne; discriminate | apply lookup_singleton_eq].
Qed.

(** X28. The scope [cloud-platform] that [createStorageBackend] provides for the
    GCS client is a default for the whole [authConfig], not for its
    [scopes]: the spread of [config] that follows the merged [authConfig]
    puts back the [authConfig] of the caller.  A caller that gives an
    [authConfig] gets a [GoogleAuth] built from exactly that object, so
    without scopes when the object has none; the default scope arrives only
    when the configuration has no [authConfig] at all.  A client given as
    [authClient] is used as it is. *)
Theorem createStorageBackend_gcs_authConfig (config : option Object) (backend : GCSBackend) :
  createStorageBackend storageS3Region storageS3Endpoint storageS3ForcePathStyle
    storageS3ClientTimeout gcs config = IsGCSBackend backend ->
  (forall authConfig,
      nullish (property config "authClient") = true ->
      property config "authConfig" = Some authConfig ->
      client backend = NewGoogleAuth (Some authConfig)) /\
  (nullish (property config "authClient") = true ->
   property config "authConfig" = None ->
   client backend =
     NewGoogleAuth (Some (VObject {[ "scopes"%string := cloud_platform ]}))) /\
  (forall authClient,
      property config "authClient" = Some authClient ->
      nullish (Some authClient) = false ->
      client backend = GivenClient authClient).
Proof.
  unfold createStorageBackend. intros [= <-]. unfold new_GCSBackend. cbn [client].
  rewrite !property_spread.
  destruct (authConfig_only
              (VObject (spread {[ "scopes"%string := cloud_platform ]}
                          (properties_of (property config "authConfig"))))) as [-> ->].
  split; [| split].
  - intros authConfig Hclient Hconfig. rewrite Hconfig.
    destruct (property config "authClient") as [v |]; rewrite Hclient; reflexivity.
  - intros Hclient Hconfig. rewrite Hconfig.
    unfold properties_of, spread. rewrite (left_id_L ∅ (∪)).
    destruct (property config "authClient") as [v |]; [rewrite Hclient |]; reflexivity.
  - intros authClient Hclient Hgiven. rewrite Hclient, Hgiven. reflexivity.
Qed.

End backend_more.

(** ** The further properties on the sample inputs *)

Lemma getSignedUrl_hoists_headers_witness :
  Signer.hoisted Sample.put_request None
    (Headers.of_list (Signer.cr_headers Sample.put_request)) Sample.url =
  (Sample.url,
   [("content-type", "image/png"); ("host", "photos.storage.googleapis.com");
    ("x-goog-meta-owner", "me")]%string).
Proof.
  exact (proj2 (getSignedUrl_hoists_headers Sample.put_request None
                  (Signer.cr_headers Sample.put_request) Sample.url)
           (or_introl eq_refl)).
Defined.

Lemma getSignedUrl_signs_once_witness :
  exists url payload,
    outcome (Signer.getSignedUrl (H := Sample.platform) Sample.auth Sample.good_request None)
      = Ok url /\
    calls_of (Signer.getSignedUrl (H := Sample.platform) Sample.auth Sample.good_request None)
      = [CallGetCredentials; CallSign payload None].
Proof.
  eexists. 
  destruct (proj1 (proj2 (getSignedUrl_signs_once (H := Sample.platform) Sample.auth
                            Sample.good_request None)) _ eq_refl)
    as (payload & signature & signed & Hcalls & _ & _).
  exists payload. split; [reflexivity | exact Hcalls].
Defined.

Lemma getSignedUrl_parameters_witness :
  exists url signed signature,
    outcome (Signer.getSignedUrl (H := Sample.platform) Sample.auth Sample.put_request None)
      = Ok url /\
    url_searchParams url = signed ++ [("X-Goog-Signature"%string, signature)] /\
    Sorted by_name signed.
Proof.
  eexists.
  destruct (getSignedUrl_parameters (H := Sample.platform) Sample.auth Sample.put_request None
              _ eq_refl)
    as (headers0 & url0 & credential & date & signedHeaders & signature & signed &
        _ & _ & Hparams & Hsorted & _).
  exists signed, signature. split; [reflexivity |]. split; [exact Hparams | exact Hsorted].
Defined.

Lemma getSignedUrl_invalid_date_witness :
  Signer.getSignedUrl (H := Sample.platform) Sample.auth Sample.good_request
    (Some (Sample.dated None)) =
  ([CallGetCredentials], Err (RangeError "Invalid time value")).
Proof.
  apply (getSignedUrl_invalid_date (H := Sample.platform) Sample.auth Sample.good_request
           (Some (Sample.dated None)) (Headers.of_list []) Sample.url
           {| client_email := Some "svc@example.iam"%string |}).
  - reflexivity.
  - reflexivity.
  - vm_compute. discriminate.
  - reflexivity.
  - reflexivity.
Defined.

Lemma drop_unsignable_keeps_signable_witness :
  In ("x-b", "2")%string
     (Signer.drop_unsignable 3 0 {[ "x-a"; "x-b" ]}%string {[ "x-b"%string ]} Sample.two_headers).
Proof.
  apply (proj1 (proj2 (drop_unsignable_keeps_signable 3 0 {[ "x-a"; "x-b" ]}%string
                         {[ "x-b"%string ]} Sample.two_headers
                         ltac:(repeat constructor)))).
  - right. left. reflexivity.
  - right. apply elem_of_singleton. reflexivity.
Defined.

Lemma drop_unsignable_skips_next_witness :
  exists rest,
    Signer.drop_unsignable 3 0 {[ "x-a"; "x-b" ]}%string ∅ Sample.two_headers
    = ("x-b", "2")%string :: rest.
Proof.
  apply (drop_unsignable_skips_next {[ "x-a"; "x-b" ]}%string ∅ "x-a" "1" "x-b" "2" []).
  - repeat constructor.
  - apply (bool_decide_unpack _). vm_compute. exact I.
  - apply (bool_decide_unpack _). vm_compute. exact I.
  - apply not_elem_of_empty.
Defined.

Lemma toISOBasicString_format_witness :
  Signer.toISOBasicString (H := Sample.platform) (Some 1704164645678) =
  Ok "20240102T030405Z"%string.
Proof.
  exact (proj1 (toISOBasicString_format (H := Sample.platform) 1704164645678
                  "2024" "01" "02" "03" "04" "05" "678" "auto" "storage" "goog4_request"
                  eq_refl eq_refl eq_refl eq_refl eq_refl eq_refl eq_refl eq_refl
                  ltac:(discriminate) eq_refl eq_refl eq_refl)).
Defined.

Lemma list_strips_prefix_witness :
  GCS.list_entry (Some Sample.prefixed)
    {| le_Key := TagString "folder/a/b.txt"; le_LastModified := None; le_Size := 7 |} =
  Ok {| GCS.lk_name := TagString "ab.txt"; GCS.lk_size := 7 |} /\
  exists message,
    GCS.list_entry (Some Sample.prefixed) Sample.numbered = Err (TypeError message).
Proof.
  split.
  - exact (proj1 (list_strips_prefix (H := Sample.platform) (Some Sample.prefixed) "folder/"
                    {| le_Key := TagString "folder/a/b.txt"; le_LastModified := None;
                       le_Size := 7 |}
                    eq_refl)
             "a"%string "b.txt"%string eq_refl eq_refl).
  - refine (proj1 (proj2 (proj2 (list_strips_prefix (H := Sample.platform)
                                   (Some Sample.prefixed) "folder/" Sample.numbered eq_refl))
                     _)).
    intros key. discriminate.
Defined.

Lemma list_keeps_undated_witness :
  outcome (GCS.list (H := Sample.platform) Sample.backend "photos" None) =
  Ok {| GCS.lp_keys := [ {| GCS.lk_name := TagString "old.txt"; GCS.lk_size := 3 |};
                         {| GCS.lk_name := TagString "new.txt"; GCS.lk_size := 5 |} ];
        GCS.lp_nextToken := None |}.
Proof.
  exact (proj2 (proj2 (proj1 (list_keeps_undated (H := Sample.platform) Sample.backend
                                "photos" None)
                         eq_refl Sample.response
                         {| lbr_Contents := Some Sample.entries;
                            lbr_NextContinuationToken := None |}
                         Sample.entries eq_refl eq_refl eq_refl eq_refl))
           eq_refl).
Defined.

Lemma list_invalid_dates_witness :
  GCS.list_keep (H := Sample.platform) (Some Sample.before_invalid)
    {| le_Key := TagString "old.txt";
       le_LastModified := Some "2023-12-31T00:00:00.000Z"%string;
       le_Size := 3 |} = false.
Proof.
  apply (proj1 (list_invalid_dates (H := Sample.platform) (Some Sample.before_invalid)
                  {| le_Key := TagString "old.txt";
                     le_LastModified := Some "2023-12-31T00:00:00.000Z"%string;
                     le_Size := 3 |}
                  "2023-12-31T00:00:00.000Z" eq_refl ltac:(discriminate))).
  reflexivity.
Defined.

Lemma list_without_contents_witness :
  GCS.list (H := Sample.bare_platform) Sample.bare_backend "photos" None =
  ([CallRequest (GCS.list_request (H := Sample.bare_platform) Sample.bare_backend "photos"
                   None)],
   Ok {| GCS.lp_keys := []; GCS.lp_nextToken := None |}).
Proof.
  exact (proj1 (list_without_contents (H := Sample.bare_platform) Sample.bare_backend "photos"
                  None Sample.bare_response eq_refl eq_refl)
           {| lbr_Contents := None; lbr_NextContinuationToken := None |} eq_refl eq_refl).
Defined.

Lemma buildMetadata_ignores_name_case_witness :
  GCS.buildMetadata (H := Sample.platform)
    {| rs_status := 200; rs_headers := [("etag"%string, "abc"%string)];
       rs_data := ""; rs_error := None |} =
  GCS.buildMetadata (H := Sample.platform) Sample.response.
Proof.
  refine (buildMetadata_ignores_name_case (H := Sample.platform) Sample.response
            (fun name => if String.eqb name "ETag" then "etag"%string else name) _).
  intros name. destruct (String.eqb_spec name "ETag") as [-> | _]; reflexivity.
Defined.

Lemma metadata_is_filled_witness :
  exists m,
    outcome (GCS.headObject (H := Sample.platform) Sample.backend "photos" "cat.png" None)
      = Ok m /\
    GCS.mimetype m <> ""%string.
Proof.
  eexists. split; [reflexivity |].
  exact (proj1 (proj1 (proj2 (metadata_is_filled (H := Sample.platform) Sample.backend
                                "photos" "cat.png" None)) _ eq_refl)).
Defined.

Lemma uploadObject_put_then_head_witness :
  exists m,
    outcome (GCS.uploadObject (H := Sample.platform) Sample.backend "photos" "cat.png" None
               "body" "image/png" "max-age=60") = Ok m /\
    length (calls_of (GCS.uploadObject (H := Sample.platform) Sample.backend "photos"
                        "cat.png" None "body" "image/png" "max-age=60")) = 2%nat.
Proof.
  eexists. split; [reflexivity |].
  rewrite (proj1 (proj1 (uploadObject_put_then_head (H := Sample.platform) Sample.backend
                           "photos" "cat.png" None "body" "image/png" "max-age=60")
                    _ eq_refl)).
  reflexivity.
Defined.

Lemma operations_surface_backend_errors_witness :
  GCS.headObject (H := Sample.platform) Sample.failing_backend "photos" "cat.png" None =
  ([CallRequest (GCS.head_request Sample.failing_backend "photos" "cat.png" None)],
   Err (Rejected "Service Unavailable")).
Proof.
  refine (proj1 (proj2 (proj2 (operations_surface_backend_errors (H := Sample.platform)
                                 Sample.failing_backend "photos" "cat.png" None
                                 (Rejected "Service Unavailable") _)))).
  intros request. right. exists Sample.unavailable. split; reflexivity.
Defined.

Lemma uploadPartCopy_reads_then_writes_witness :
  snd (Multipart.uploadPartCopy Sample.read_only "photos" "big.bin" "v2" "upload-1" 3
         "cat.png" None (Some (0, 3))) = Err (Rejected "403") /\
  exists get put,
    fst (Multipart.uploadPartCopy Sample.read_only "photos" "big.bin" "v2" "upload-1" 3
           "cat.png" None (Some (0, 3))) =
    [Multipart.Requested get; Multipart.Requested put; Multipart.Aborted (Rejected "403")].
Proof.
  pose proof (proj1 (proj2 (proj2 (proj2 (uploadPartCopy_reads_then_writes Sample.read_only
                                            "photos" "big.bin" "v2" "upload-1" 3 "cat.png" None
                                            (Some (0, 3))) _ eq_refl)))
                (Rejected "403") (or_introl eq_refl)) as Hcopy.
  rewrite Hcopy. split; [reflexivity |]. eexists. eexists. reflexivity.
Defined.

Lemma deleteObjects_deletes_each_key_once_witness :
  exists s,
    DeleteObjects.run Sample.events (DeleteObjects.init Sample.keys) = Some s /\
    DeleteObjects.main s = DeleteObjects.Returned (Ok tt) /\
    DeleteObjects.starts Sample.events (DeleteObjects.init Sample.keys) = Sample.keys.
Proof.
  assert (Hrun : exists s,
             DeleteObjects.run Sample.events (DeleteObjects.init Sample.keys) = Some s /\
             DeleteObjects.main s = DeleteObjects.Returned (Ok tt))
    by (eexists; split; vm_compute; reflexivity).
  destruct Hrun as (s & Hrun & Hmain). exists s. split; [exact Hrun |].
  split; [exact Hmain |].
  exact (proj1 (proj2 (proj2 (deleteObjects_deletes_each_key_once Sample.keys Sample.events
                                s Hrun)) (Ok tt) Hmain)).
Defined.

Lemma create_connects_to_dbUrl_witness :
  let created :=
    Tenant.create (Sample.config true) (Sample.options None) 2000
      (Tenant.history (Sample.config true)
         [Tenant.Create (Sample.options None) 1000; Tenant.Timer 1500]) in
  exists connection,
    fst created = Tenant.Resolved connection /\
    Tenant.ps_connectionString (Tenant.knex_settings (Tenant.pool connection)) =
    "postgres://db/tenant"%string.
Proof.
  cbn zeta. eexists. split; [reflexivity |].
  exact (proj1 (create_connects_to_dbUrl (Sample.config true)
                  [Tenant.Create (Sample.options None) 1000; Tenant.Timer 1500]
                  (Sample.options None) 2000 _ eq_refl)).
Defined.

Lemma create_then_dispose_witness :
  let created :=
    Tenant.create (Sample.config true) (Sample.options (Some true)) 1000 Tenant.empty_world in
  exists connection,
    fst created = Tenant.Resolved connection /\
    Tenant.destroyed (Tenant.dispose (Sample.config true) connection (snd created)) =
    [Tenant.knex_id (Tenant.pool connection)].
Proof.
  cbn zeta. eexists. split; [reflexivity |].
  exact (proj2 (proj1 (proj2 (create_then_dispose (Sample.config true)
                                (Sample.options (Some true)) 1000 Tenant.empty_world
                                _ eq_refl))
                  eq_refl eq_refl)).
Defined.

Lemma create_builds_one_pool_witness :
  Tenant.create (Sample.config true) Sample.negative_max 1000 Tenant.empty_world =
  (Tenant.Thrown (Tenant.OtherError "Tarn: opt.max must be an integer > 0"),
   Tenant.empty_world) /\
  exists connection,
    fst (Tenant.create (Sample.config true) (Sample.options (Some true)) 1000
           Tenant.empty_world) = Tenant.Resolved connection /\
    Tenant.active_pool_incs
      (snd (Tenant.create (Sample.config true) (Sample.options (Some true)) 1000
              Tenant.empty_world)) = [true].
Proof.
  split.
  - exact (proj1 (proj2 (proj2 (proj2 (proj2 (create_builds_one_pool (Sample.config true)
                                               Sample.negative_max 1000 Tenant.empty_world))
                                 eq_refl)))
             ltac:(reflexivity)).
  - eexists. split; [reflexivity |].
    exact (proj2 (proj2 (proj2 (proj1 (proj2 (proj2 (create_builds_one_pool
                                                      (Sample.config true)
                                                      (Sample.options (Some true)) 1000
                                                      Tenant.empty_world))
                                        eq_refl) _ eq_refl)))).
Defined.

Lemma idle_pool_is_destroyed_witness :
  let first :=
    Tenant.create (Sample.config true) (Sample.options None) 1000
      (Tenant.history (Sample.config true) []) in
  let purged := Tenant.purgeStale 61000 (snd first) in
  1000 + Tenant.ttl (Sample.config true) <= 61000 /\
  (exists connection, fst first = Tenant.Resolved connection) /\
  Tenant.connections purged !! Tenant.dbUrl (Sample.options None) = None.
Proof.
  cbn zeta.
  assert (Hidle : 1000 + Tenant.ttl (Sample.config true) <= 61000)
    by (vm_compute; discriminate).
  split; [exact Hidle |]. split; [eexists; reflexivity |].
  exact (proj1 (idle_pool_is_destroyed (Sample.config true) [] (Sample.options None)
                  1000 61000 61001 _ (or_introl eq_refl) Hidle eq_refl)).
Defined.

Lemma transaction_sets_search_path_witness :
  Tenant.transaction (Sample.config true) Sample.hands_stuck Sample.connection None =
  (Tenant.Thrown (Tenant.OtherError "rollback failed"), 1%nat).
Proof.
  exact (proj2 (proj2 (transaction_sets_search_path (Sample.config true) Sample.hands_stuck
                         Sample.connection Sample.stuck 1 eq_refl eq_refl eq_refl))
           _ _ eq_refl eq_refl).
Defined.

Lemma transaction_gives_up_with_transient_error_witness :
  exists message n t,
    fst (Tenant.transaction (Sample.config true) Sample.exhausted Sample.connection None) =
      Tenant.Thrown (Tenant.PgDatabaseError "08P01" message) /\
    Str.includes "no more connections allowed" message = true /\
    (n < snd (Tenant.transaction (Sample.config true) Sample.exhausted Sample.connection
                None))%nat /\
    Sample.exhausted Sample.knex n = (Tenant.Thrown (Tenant.PgDatabaseError "08P01" message), t).
Proof.
  apply (transaction_gives_up_with_transient_error (Sample.config true) Sample.exhausted
           Sample.connection None Sample.too_many 600).
  - vm_compute. reflexivity.
  - reflexivity.
Defined.

Lemma searchPath_shape_witness :
  Tenant.searchPath (Sample.config true) = ["storage"; "public"; "extensions"]%string.
Proof.
  exact (proj2 (proj2 (searchPath_shape (Sample.config true))) eq_refl).
Defined.

Lemma createStorageBackend_gcs_authConfig_witness :
  Backend.client
    (Backend.new_GCSBackend
       (Some (Backend.spread
                {[ "authConfig"%string :=
                     Backend.VObject
                       (Backend.spread {[ "scopes"%string := Backend.cloud_platform ]}
                          (Backend.properties_of
                             (Backend.property (Some Sample.gcs_config) "authConfig"))) ]}
                Sample.gcs_config))) =
  Backend.NewGoogleAuth
    (Some (Backend.VObject {[ "projectId"%string := Backend.VString "photos-prod" ]})).
Proof.
  apply (proj1 (createStorageBackend_gcs_authConfig
                  Backend.VUndefined Backend.VUndefined Backend.VUndefined Backend.VUndefined
                  (Some Sample.gcs_config) _ eq_refl)).
  - reflexivity.
  - reflexivity.
Defined.
